(** * Celestia star database: a shallow embedding of [src/celengine/stardb.cpp]

    The development follows the source file top to bottom: catalog-number
    strings, the cross-index tables, the binary star file, the [.stc]
    merge ([load], [createStar], [applyOrbit]) and the [finish] pass with
    the catalog-number index used by [find]. *)

From Stdlib Require Import ZArith NArith Ascii String DecimalString Strings.Byte.
From Stdlib Require Import Floats.SpecFloat DecimalN DecimalPos.
From stdpp Require Import base option list sorting gmap strings.

Local Open Scope N_scope.

(** ** Machine integers *)

(** [AstroCatalog::IndexNumber] is [std::uint32_t]; arithmetic wraps. *)
Definition UINT32_MOD : N := 4294967296.
Definition UINT32_MAX : N := 4294967295.
Definition wrap32 (n : N) : N := n mod UINT32_MOD.

(** ** Strings and catalog-number grammars *)

Module Strs.

Definition is_digit (c : ascii) : bool :=
  let n := N_of_ascii c in (48 <=? n) && (n <=? 57).

Definition is_blank (c : ascii) : bool :=
  let n := N_of_ascii c in (n =? 32) || (n =? 9).

Definition to_upper (c : ascii) : ascii :=
  let n := N_of_ascii c in
  if (97 <=? n) && (n <=? 122) then ascii_of_N (n - 32) else c.

(** Modelled from the spec: [compareIgnoringCase(s1, s2, n)] of
    [celutil/stringutils] is not among the sources. The spec describes the
    prefix of a catalog grammar as a "case-insensitive literal prefix": the
    first [n] characters of both strings are compared letter by letter
    without regard to case, and a string that ends early differs.  The
    result is [true] where the C++ function returns [0]. *)
Fixpoint compareIgnoringCase (s1 s2 : string) (n : nat) : bool :=
  match n with
  | O => true
  | S n' =>
      match s1, s2 with
      | String c1 r1, String c2 r2 =>
          if Ascii.eqb (to_upper c1) (to_upper c2)
          then compareIgnoringCase r1 r2 n' else false
      | _, _ => false
      end
  end.

(** [name.find_first_not_of(" \t", pos)] seen from the suffix that starts
    at [pos]: [None] is [npos], [Some r] is the suffix at the first
    character that is neither a space nor a tab. *)
Fixpoint find_first_not_of_blank (s : string) : option string :=
  match s with
  | EmptyString => None
  | String c r => if is_blank c then find_first_not_of_blank r else Some s
  end.

(** Suffix of [s] at offset [n] ([name.data() + n]). *)
Fixpoint drop_chars (n : nat) (s : string) : string :=
  match n, s with
  | O, _ => s
  | S n', String _ r => drop_chars n' r
  | S _, EmptyString => EmptyString
  end.

Inductive errc := errc_ok | invalid_argument | result_out_of_range.

(** Result of [from_chars]: the suffix at [ptr], the error code and the
    value stored (meaningful when the code is [errc_ok]). *)
Record from_chars_result := FromChars {
  fc_ptr : string;
  fc_ec : errc;
  fc_value : N
}.

Fixpoint scan_digits (s : string) (acc : N) : N * string :=
  match s with
  | String c r =>
      if is_digit c then scan_digits r (10 * acc + (N_of_ascii c - 48))
      else (acc, s)
  | EmptyString => (acc, s)
  end.

(** Modelled from the spec: [celestia::compat::from_chars] (header
    [celcompat/charconv.h]) is not among the sources; per the spec each
    grammar reads "an unsigned integer".  This is [std::from_chars] for
    [std::uint32_t] in base 10: the longest run of decimal digits is
    consumed, no sign and no leading blank is accepted, an empty run is
    [invalid_argument] with [ptr] left at the start, and a value that does
    not fit 32 bits is [result_out_of_range] with [ptr] after the run. *)
Definition from_chars (s : string) : from_chars_result :=
  match s with
  | String c _ =>
      if is_digit c then
        let '(v, r) := scan_digits s 0 in
        if v <=? UINT32_MAX then FromChars r errc_ok v
        else FromChars r result_out_of_range 0
      else FromChars s invalid_argument 0
  | EmptyString => FromChars s invalid_argument 0
  end.

Definition errc_is_ok (e : errc) : bool :=
  match e with errc_ok => true | _ => false end.

(** [result.ptr == end_ptr || *result.ptr != c] *)
Definition at_end_or_not (c : ascii) (s : string) : bool :=
  match s with
  | EmptyString => true
  | String d _ => negb (Ascii.eqb d c)
  end.

(** [fmt::format("{}", n)] for an unsigned integer. *)
Definition fmt_uint (n : N) : string := NilZero.string_of_uint (N.to_uint n).

End Strs.

Module CatalogNumbers.
Import Strs.

Definition HDCatalogPrefix : string := "HD "%string.
Definition HIPPARCOSCatalogPrefix : string := "HIP "%string.
Definition TychoCatalogPrefix : string := "TYC "%string.
Definition SAOCatalogPrefix : string := "SAO "%string.

Definition TYC3_MULTIPLIER : N := 1000000000.
Definition TYC2_MULTIPLIER : N := 10000.
Definition TYC123_MIN : N := 1.
Definition TYC1_MAX : N := 9999.
Definition TYC2_MAX : N := 99999.
Definition TYC3_MAX : N := 3.
Definition TDSC_TYC3_MAX : N := 4.
Definition TDSC_TYC3_MAX_RANGE_TYC1 : N := 2907.

(** [parseSimpleCatalogNumber]: [Some n] where the C++ function returns
    [true] having stored [n]. *)
Definition parseSimpleCatalogNumber (name prefix : string) : option N :=
  if negb (compareIgnoringCase name prefix (String.length prefix)) then None
  else
    match find_first_not_of_blank (drop_chars (String.length prefix) name) with
    | None => None
    | Some s =>
        let r := from_chars s in
        if errc_is_ok (fc_ec r) then
          match find_first_not_of_blank (fc_ptr r) with
          | None => Some (fc_value r)
          | Some _ => None
          end
        else None
    end.

Definition parseHIPPARCOSCatalogNumber (name : string) : option N :=
  parseSimpleCatalogNumber name HIPPARCOSCatalogPrefix.

Definition parseHDCatalogNumber (name : string) : option N :=
  parseSimpleCatalogNumber name HDCatalogPrefix.

(** The packing [tycParts[2] * TYC3_MULTIPLIER + tycParts[1] *
    TYC2_MULTIPLIER + tycParts[0]], evaluated in [std::uint32_t]. *)
Definition packTycho (tyc1 tyc2 tyc3 : N) : N :=
  wrap32 (wrap32 (wrap32 (tyc3 * TYC3_MULTIPLIER) + wrap32 (tyc2 * TYC2_MULTIPLIER)) + tyc1).

Definition parseTychoCatalogNumber (name : string) : option N :=
  if negb (compareIgnoringCase name TychoCatalogPrefix (String.length TychoCatalogPrefix))
  then None
  else
    match find_first_not_of_blank (drop_chars (String.length TychoCatalogPrefix) name) with
    | None => None
    | Some s =>
        let r1 := from_chars s in
        if negb (errc_is_ok (fc_ec r1))
           || (fc_value r1 <? TYC123_MIN) || (TYC1_MAX <? fc_value r1)
           || at_end_or_not "-"%char (fc_ptr r1)
        then None
        else
          let r2 := from_chars (drop_chars 1 (fc_ptr r1)) in
          if negb (errc_is_ok (fc_ec r2))
             || (fc_value r2 <? TYC123_MIN) || (TYC2_MAX <? fc_value r2)
             || at_end_or_not "-"%char (fc_ptr r2)
          then None
          else
            let r3 := from_chars (drop_chars 1 (fc_ptr r2)) in
            if errc_is_ok (fc_ec r3)
               && (TYC123_MIN <=? fc_value r3)
               && ((fc_value r3 <=? TYC3_MAX)
                   || ((fc_value r3 =? TDSC_TYC3_MAX)
                       && (fc_value r1 <=? TDSC_TYC3_MAX_RANGE_TYC1)))
            then
              match find_first_not_of_blank (fc_ptr r3) with
              | Some _ => None
              | None => Some (packTycho (fc_value r1) (fc_value r2) (fc_value r3))
              end
            else None
    end.

Definition parseCelestiaCatalogNumber (name : string) : option N :=
  match name with
  | String c rest =>
      if negb (Ascii.eqb c "#"%char) then None
      else
        let r := from_chars rest in
        if errc_is_ok (fc_ec r) then
          match find_first_not_of_blank (fc_ptr r) with
          | None => Some (fc_value r)
          | Some _ => None
          end
        else None
  | EmptyString => None
  end.

(** The three numbers printed by the [else] branch of
    [catalogNumberToString], in the order [tyc1], [tyc2], [tyc3]. *)
Definition tychoParts (catalogNumber : N) : N * N * N :=
  let tyc3 := catalogNumber / TYC3_MULTIPLIER in
  let c1 := wrap32 (catalogNumber + UINT32_MOD - wrap32 (tyc3 * TYC3_MULTIPLIER)) in
  let tyc2 := c1 / TYC2_MULTIPLIER in
  let c2 := wrap32 (c1 + UINT32_MOD - wrap32 (tyc2 * TYC2_MULTIPLIER)) in
  (c2, tyc2, tyc3).

Definition fmt_tycho (p : N * N * N) : string :=
  let '(tyc1, tyc2, tyc3) := p in
  ("TYC " ++ fmt_uint tyc1 ++ "-" ++ fmt_uint tyc2 ++ "-" ++ fmt_uint tyc3)%string.

(** [catalogNumberToString]; [StarDatabase::MAX_HIPPARCOS_NUMBER] is
    declared in [stardb.h], which is not among the sources, and is taken as
    the parameter [max_hipparcos]. *)
Definition catalogNumberToString (max_hipparcos catalogNumber : N) : string :=
  if catalogNumber <=? max_hipparcos
  then ("HIP " ++ fmt_uint catalogNumber)%string
  else fmt_tycho (tychoParts catalogNumber).

End CatalogNumbers.

(** ** Floating point

    [float] is IEEE binary32 and [double] binary64; both are values of
    [spec_float], operated on at their own precision. *)

Module F32.

Definition prec : Z := 24.
Definition emax : Z := 128.

Definition add := SFadd prec emax.
Definition sub := SFsub prec emax.
Definition mul := SFmul prec emax.
Definition div := SFdiv prec emax.
Definition sqrt := SFsqrt prec emax.
Definition eqb := SFeqb.
Definition ltb := SFltb.

(** The float nearest to the integer [z] ([static_cast<float>(z)], and
    literals such as [30.0f] and [256.0f]). *)
Definition of_Z (z : Z) : spec_float := binary_normalize prec emax z 0 false.

(** The value of a 32-bit pattern ([std::memcpy] into a [float]). *)
Definition of_bits (b : N) : spec_float :=
  let sign := N.testbit b 31 in
  let e := Z.of_N (N.land (N.shiftr b 23) 255) in
  let m := Z.of_N (N.land b 8388607) in
  if (e =? 0)%Z then
    match m with
    | Zpos p => S754_finite sign p (-149)
    | _ => S754_zero sign
    end
  else if (e =? 255)%Z then
    (if (m =? 0)%Z then S754_infinity sign else S754_nan)
  else
    match (m + 8388608)%Z with
    | Zpos p => S754_finite sign p (e - 150)
    | _ => S754_nan
    end.

(** [static_cast<float>(d)] for a [double] [d]. *)
Definition of_double (d : spec_float) : spec_float :=
  match d with
  | S754_finite s m e => binary_round prec emax s m e
  | _ => d
  end.

Definition zero : spec_float := S754_zero false.

End F32.

Module F64.

Definition prec : Z := 53.
Definition emax : Z := 1024.
Definition ltb := SFltb.
Definition zero : spec_float := S754_zero false.

(** [static_cast<double>(f)] for a [float] [f]: the same number. *)
Definition of_float (f : spec_float) : spec_float :=
  match f with
  | S754_finite s m e => binary_round prec emax s m e
  | _ => f
  end.

End F64.

Abbreviation float := spec_float.
Abbreviation double := spec_float.

(** [Eigen::Vector3f] *)
Record Vector3f := Vec3f { vx : float; vy : float; vz : float }.

(** [Eigen::Vector3d] *)
Record Vector3d := Vec3d { dx : double; dy : double; dz : double }.

(** [v.norm()]: the square root of the sum of the squared components, in
    single precision. *)
Definition norm (v : Vector3f) : float :=
  F32.sqrt (F32.add (F32.add (F32.mul (vx v) (vx v)) (F32.mul (vy v) (vy v)))
                    (F32.mul (vz v) (vz v))).

(** [pos.cast<float>()] *)
Definition cast_float (v : Vector3d) : Vector3f :=
  Vec3f (F32.of_double (dx v)) (F32.of_double (dy v)) (F32.of_double (dz v)).

(** ** Bytes and input streams *)

Module Bytes.

(** Little-endian decoding, as [std::memcpy] followed by [LE_TO_CPU_INT16]
    or [LE_TO_CPU_INT32] gives on any host. *)
Fixpoint le_decode (bs : list byte) : N :=
  match bs with
  | [] => 0
  | b :: r => Byte.to_N b + 256 * le_decode r
  end.

(** The field of [len] bytes at offset [off] of a record. *)
Definition field (off len : nat) (bs : list byte) : list byte :=
  take len (drop off bs).

Definition le_uint (off len : nat) (bs : list byte) : N :=
  le_decode (field off len bs).

(** A 16-bit pattern read as [std::int16_t]. *)
Definition to_int16 (n : N) : Z :=
  if 32768 <=? n then (Z.of_N n - 65536)%Z else Z.of_N n.

Definition of_ascii_string (s : string) : list byte :=
  map byte_of_ascii (list_ascii_of_string s).

Definition eqb_bytes (a b : list byte) : bool :=
  bool_decide (map Byte.to_N a = map Byte.to_N b).

End Bytes.

(** [std::istream] over a finite sequence of bytes.  [is_dev_error]
    tells what the device does once the bytes run out: report the end of
    the file, or fail (the read sets [badbit]). *)
Record istream := IStream {
  is_data : list byte;
  is_dev_error : bool;
  is_badbit : bool;
  is_eofbit : bool;
  is_failbit : bool;
  is_gcount : nat
}.

Definition is_good (s : istream) : bool :=
  negb (is_badbit s) && negb (is_eofbit s) && negb (is_failbit s).

(** [in.read(buf, n)]: the characters stored and the stream afterwards.
    A stream that is not good stores nothing and sets [failbit]; a stream
    that ends before [n] characters sets [eofbit] and [failbit], or
    [badbit] when the device fails. *)
Definition is_read (n : nat) (s : istream) : list byte * istream :=
  if negb (is_good s) then
    ([], IStream (is_data s) (is_dev_error s) (is_badbit s) (is_eofbit s) true 0)
  else if bool_decide (n ≤ length (is_data s))%nat then
    (take n (is_data s),
     IStream (drop n (is_data s)) (is_dev_error s) false false false n)
  else if is_dev_error s then
    (is_data s, IStream [] true true false true (length (is_data s)))
  else
    (is_data s, IStream [] false false true true (length (is_data s))).

(** A stream freshly opened on [bs]. *)
Definition stream_of (bs : list byte) : istream :=
  IStream bs false false false false 0.

(** ** Data model *)

(** [StarDetails], with the fields that [stardb.cpp] reads or writes.
    Orbits and rotation models are opaque handles made by the factories
    [CreateOrbit] and [CreateRotationModel]; a texture is the pair given to
    [MultiResTexture]; a geometry is a [ResourceHandle]. *)
Record StarDetails := mkDetails {
  d_shared : bool;
  d_spectralType : string;
  d_temperature : float;
  d_bolometricCorrection : float;
  d_knowledge : N;
  d_texture : string * string;
  d_geometry : N;
  d_semiAxes : Vector3f;
  d_radius : float;
  d_orbit : option N;
  d_rotationModel : option N;
  d_visibility : bool;
  d_infoURL : string
}.

Definition KnowRadius : N := 1.
Definition KnowRotation : N := 2.
Definition KnowTexture : N := 4.

(** Modelled from the spec: [StarDetails::clone] is defined in [star.cpp],
    which is not among the sources.  Per the spec a shared classification
    record "must first be cloned into an exclusively-owned copy": the copy
    has the same fields and is not shared. *)
Definition clone (d : StarDetails) : StarDetails :=
  mkDetails false (d_spectralType d) (d_temperature d) (d_bolometricCorrection d)
            (d_knowledge d) (d_texture d) (d_geometry d) (d_semiAxes d) (d_radius d)
            (d_orbit d) (d_rotationModel d) (d_visibility d) (d_infoURL d).

(** One catalog entry.  [s_details] is [None] for the null pointer of a
    default-constructed star.  The barycenter links hold positions in the
    finalized array [stars]. *)
Record Star := mkStar {
  s_index : N;
  s_position : Vector3f;
  s_absMag : float;
  s_extinction : float;
  s_details : option StarDetails;
  s_categories : list string;
  s_orbitBarycenter : option nat;
  s_orbitingStars : list nat
}.

Definition getIndex (s : Star) : N := s_index s.

Definition setIndex (n : N) (s : Star) : Star :=
  mkStar n (s_position s) (s_absMag s) (s_extinction s) (s_details s)
         (s_categories s) (s_orbitBarycenter s) (s_orbitingStars s).
Definition setPosition (p : Vector3f) (s : Star) : Star :=
  mkStar (s_index s) p (s_absMag s) (s_extinction s) (s_details s)
         (s_categories s) (s_orbitBarycenter s) (s_orbitingStars s).
Definition setAbsoluteMagnitude (m : float) (s : Star) : Star :=
  mkStar (s_index s) (s_position s) m (s_extinction s) (s_details s)
         (s_categories s) (s_orbitBarycenter s) (s_orbitingStars s).
Definition setExtinction (e : float) (s : Star) : Star :=
  mkStar (s_index s) (s_position s) (s_absMag s) e (s_details s)
         (s_categories s) (s_orbitBarycenter s) (s_orbitingStars s).
Definition setDetails (d : option StarDetails) (s : Star) : Star :=
  mkStar (s_index s) (s_position s) (s_absMag s) (s_extinction s) d
         (s_categories s) (s_orbitBarycenter s) (s_orbitingStars s).
Definition setCategories (c : list string) (s : Star) : Star :=
  mkStar (s_index s) (s_position s) (s_absMag s) (s_extinction s) (s_details s)
         c (s_orbitBarycenter s) (s_orbitingStars s).
Definition setOrbitBarycenter (b : nat) (s : Star) : Star :=
  mkStar (s_index s) (s_position s) (s_absMag s) (s_extinction s) (s_details s)
         (s_categories s) (Some b) (s_orbitingStars s).
Definition addOrbitingStar (o : nat) (s : Star) : Star :=
  mkStar (s_index s) (s_position s) (s_absMag s) (s_extinction s) (s_details s)
         (s_categories s) (s_orbitBarycenter s) (s_orbitingStars s ++ [o]).

Inductive DataDisposition := Add | Replace | Modify.

Definition is_Modify (d : DataDisposition) : bool :=
  match d with Modify => true | _ => false end.

(** The property list of one [.stc] block, seen through the typed
    accessors that [createStar] and its helpers call; [None] is the
    accessor's "absent" answer.  Lengths and angles are the values after
    the accessor's unit conversion.  [h_Orbit] and [h_RotationModel] are
    what [CreateOrbit] and [CreateRotationModel] make of the block. *)
Record Hash := mkHash {
  h_SpectralType : option string;
  h_Position : option Vector3f;
  h_RA : option double;
  h_Dec : option double;
  h_Distance : option double;
  h_AbsMag : option float;
  h_AppMag : option float;
  h_Extinction : option float;
  h_Mesh : option string;
  h_Texture : option string;
  h_Orbit : option N;
  h_RotationModel : option N;
  h_SemiAxes : option Vector3d;
  h_Radius : option float;
  h_Temperature : option double;
  h_BoloCorrection : option float;
  h_InfoURL : option string;
  h_OrbitBarycenter : option (string + N)
}.

(** What follows the header of a block: a token other than the start of
    a group, a group that [parser.readValue()] does not turn into a
    property list, or a property list. *)
Inductive BlockBody := NotAGroup | BadValue | Group (starData : Hash).

(** One block of an [.stc] file as the tokenizer delivers it to [load]:
    the optional disposition name, the name token that follows (the object
    type), the number token already cast to [IndexNumber], the string
    token, and the body. *)
Record StcBlock := mkBlock {
  b_disposition : option DataDisposition;
  b_objectType : option string;
  b_catalogNumber : option N;
  b_objName : option string;
  b_body : BlockBody
}.

(** [(catNo, barycenterCatNo)] *)
Record BarycenterUsage := mkUsage { bu_catNo : N; bu_barycenterCatNo : N }.

Record CrossIndexEntry := mkXEntry { x_catalogNumber : N; x_celCatalogNumber : N }.

(** A [CrossIndex] object on the heap: alive, or deleted. *)
Inductive XCell := XLive (entries : list CrossIndexEntry) | XFreed.

Inductive LogLevel := LError | LWarn | LInfo | LDebug.

(** A message handed to the logger: its level and its format string. *)
Definition LogEntry : Type := LogLevel * string.

(** ** Collaborators

    What [stardb.cpp] calls but does not define, and the constants
    declared in headers that are not among the sources. *)
Class Env := {
  (** [AstroCatalog::InvalidIndex] *)
  InvalidIndex : N;
  (** [StarDatabase::MAX_HIPPARCOS_NUMBER] *)
  MAX_HIPPARCOS_NUMBER : N;
  (** initial value of [nextAutoCatalogNumber] *)
  firstAutoCatalogNumber : N;
  (** the enumeration [StarDatabase::Catalog] *)
  HenryDraper : nat;
  SAO : nat;
  MaxCatalog : nat;
  (** [StellarClass] with [unpackV1] and [parse] *)
  StellarClass : Type;
  unpackV1 : N → option StellarClass;
  parseStellarClass : string → StellarClass;
  (** [StarDetails::GetStarDetails], [None] for a null pointer *)
  GetStarDetails : StellarClass → option StarDetails;
  GetBarycenterDetails : StarDetails;
  (** a default-constructed [Star] *)
  newStar : Star;
  (** [astro::appToAbsMag] *)
  appToAbsMag : float → float → float;
  (** [astro::equatorialToCelestialCart] *)
  equatorialToCelestialCart : double → double → double → Vector3d;
  (** right ascension, declination and distance recovered from a stored
      position, as the [Modify] branch of [createStar] computes them *)
  positionToEquatorial : Vector3f → double * double * double;
  (** the bolometric correction recomputed from a temperature in
      [applyCustomStarDetails] *)
  bolometricCorrectionOf : double → float;
  (** [GetGeometryManager()->getHandle(GeometryInfo(name, path, ...))] *)
  geometryHandle : string → string → N;
  (** [Star::loadCategories], on the list of category tags *)
  loadCategories : Hash → DataDisposition → string → list string → list string;
  (** the order in which [rebuildAndSort] emits the stars inserted into
      the octree *)
  rebuildAndSort : list Star → list Star;
  (** [StarNameDatabase] *)
  NameDB : Type;
  names_findCatalogNumberByName : NameDB → string → bool → N;
  names_erase : N → NameDB → NameDB;
  names_add : N → string → NameDB → NameDB
}.

Import CatalogNumbers.

Section Database.
Context `{Env}.

(** The members of [StarDatabase].  Pointers to stars are positions:
    [catalogNumberIndex] points into [stars], the load-time indices into
    [unsortedStars]; entries of [crossIndexes] point into [xheap], the
    cross-index objects allocated so far.  [heapStar] is the object made
    by [new Star()] while [load] handles a block, and [log] is what was
    handed to the logger. *)
Record StarDatabase := mkDB {
  nStars : nat;
  stars : list Star;
  catalogNumberIndex : list nat;
  namesDB : option NameDB;
  crossIndexes : list (option nat);
  xheap : list XCell;
  unsortedStars : list Star;
  binFileCatalogNumberIndex : option (list nat);
  binFileStarCount : nat;
  stcFileCatalogNumberIndex : gmap N nat;
  barycenters : list BarycenterUsage;
  nextAutoCatalogNumber : N;
  heapStar : Star;
  log : list LogEntry
}.

(** [StarDatabase::StarDatabase()] *)
Definition emptyDatabase : StarDatabase :=
  mkDB 0 [] [] None (replicate MaxCatalog None) [] [] None 0 ∅ []
       firstAutoCatalogNumber newStar [].

Definition set_nStars v (d : StarDatabase) : StarDatabase :=
  mkDB v (stars d) (catalogNumberIndex d) (namesDB d) (crossIndexes d) (xheap d)
       (unsortedStars d) (binFileCatalogNumberIndex d) (binFileStarCount d)
       (stcFileCatalogNumberIndex d) (barycenters d) (nextAutoCatalogNumber d)
       (heapStar d) (log d).
Definition set_stars v (d : StarDatabase) : StarDatabase :=
  mkDB (nStars d) v (catalogNumberIndex d) (namesDB d) (crossIndexes d) (xheap d)
       (unsortedStars d) (binFileCatalogNumberIndex d) (binFileStarCount d)
       (stcFileCatalogNumberIndex d) (barycenters d) (nextAutoCatalogNumber d)
       (heapStar d) (log d).
Definition set_catalogNumberIndex v (d : StarDatabase) : StarDatabase :=
  mkDB (nStars d) (stars d) v (namesDB d) (crossIndexes d) (xheap d)
       (unsortedStars d) (binFileCatalogNumberIndex d) (binFileStarCount d)
       (stcFileCatalogNumberIndex d) (barycenters d) (nextAutoCatalogNumber d)
       (heapStar d) (log d).
Definition set_namesDB v (d : StarDatabase) : StarDatabase :=
  mkDB (nStars d) (stars d) (catalogNumberIndex d) v (crossIndexes d) (xheap d)
       (unsortedStars d) (binFileCatalogNumberIndex d) (binFileStarCount d)
       (stcFileCatalogNumberIndex d) (barycenters d) (nextAutoCatalogNumber d)
       (heapStar d) (log d).
Definition set_crossIndexes v (d : StarDatabase) : StarDatabase :=
  mkDB (nStars d) (stars d) (catalogNumberIndex d) (namesDB d) v (xheap d)
       (unsortedStars d) (binFileCatalogNumberIndex d) (binFileStarCount d)
       (stcFileCatalogNumberIndex d) (barycenters d) (nextAutoCatalogNumber d)
       (heapStar d) (log d).
Definition set_xheap v (d : StarDatabase) : StarDatabase :=
  mkDB (nStars d) (stars d) (catalogNumberIndex d) (namesDB d) (crossIndexes d) v
       (unsortedStars d) (binFileCatalogNumberIndex d) (binFileStarCount d)
       (stcFileCatalogNumberIndex d) (barycenters d) (nextAutoCatalogNumber d)
       (heapStar d) (log d).
Definition set_unsortedStars v (d : StarDatabase) : StarDatabase :=
  mkDB (nStars d) (stars d) (catalogNumberIndex d) (namesDB d) (crossIndexes d) (xheap d)
       v (binFileCatalogNumberIndex d) (binFileStarCount d)
       (stcFileCatalogNumberIndex d) (barycenters d) (nextAutoCatalogNumber d)
       (heapStar d) (log d).
Definition set_binFileIndex v n (d : StarDatabase) : StarDatabase :=
  mkDB (nStars d) (stars d) (catalogNumberIndex d) (namesDB d) (crossIndexes d) (xheap d)
       (unsortedStars d) v n
       (stcFileCatalogNumberIndex d) (barycenters d) (nextAutoCatalogNumber d)
       (heapStar d) (log d).
Definition set_stcFileCatalogNumberIndex v (d : StarDatabase) : StarDatabase :=
  mkDB (nStars d) (stars d) (catalogNumberIndex d) (namesDB d) (crossIndexes d) (xheap d)
       (unsortedStars d) (binFileCatalogNumberIndex d) (binFileStarCount d)
       v (barycenters d) (nextAutoCatalogNumber d)
       (heapStar d) (log d).
Definition set_barycenters v (d : StarDatabase) : StarDatabase :=
  mkDB (nStars d) (stars d) (catalogNumberIndex d) (namesDB d) (crossIndexes d) (xheap d)
       (unsortedStars d) (binFileCatalogNumberIndex d) (binFileStarCount d)
       (stcFileCatalogNumberIndex d) v (nextAutoCatalogNumber d)
       (heapStar d) (log d).
Definition set_nextAutoCatalogNumber v (d : StarDatabase) : StarDatabase :=
  mkDB (nStars d) (stars d) (catalogNumberIndex d) (namesDB d) (crossIndexes d) (xheap d)
       (unsortedStars d) (binFileCatalogNumberIndex d) (binFileStarCount d)
       (stcFileCatalogNumberIndex d) (barycenters d) v
       (heapStar d) (log d).
Definition set_heapStar v (d : StarDatabase) : StarDatabase :=
  mkDB (nStars d) (stars d) (catalogNumberIndex d) (namesDB d) (crossIndexes d) (xheap d)
       (unsortedStars d) (binFileCatalogNumberIndex d) (binFileStarCount d)
       (stcFileCatalogNumberIndex d) (barycenters d) (nextAutoCatalogNumber d)
       v (log d).
Definition set_log v (d : StarDatabase) : StarDatabase :=
  mkDB (nStars d) (stars d) (catalogNumberIndex d) (namesDB d) (crossIndexes d) (xheap d)
       (unsortedStars d) (binFileCatalogNumberIndex d) (binFileStarCount d)
       (stcFileCatalogNumberIndex d) (barycenters d) (nextAutoCatalogNumber d)
       (heapStar d) v.

(** [GetLogger()->error(...)] and the like. *)
Definition logger (lvl : LogLevel) (msg : string) (d : StarDatabase) : StarDatabase :=
  set_log (log d ++ [(lvl, msg)]) d.

(** *** Searching the indexes *)

(** [std::lower_bound(first, first + count, v, comp)] on an array, with
    [comp(x, v)] the comparison [key x < v]: the offset of the element the
    returned iterator points to.  The loop halves [count] each round;
    [fuel] bounds the rounds and [count] rounds are always enough. *)
Fixpoint lower_bound_loop {A} (key : A → N) (arr : list A) (v : N)
    (fuel first count : nat) : nat :=
  match fuel with
  | O => first
  | S fuel' =>
      if bool_decide (count = 0)%nat then first
      else
        let step := (count / 2)%nat in
        let it := (first + step)%nat in
        if match arr !! it with Some x => key x <? v | None => false end
        then lower_bound_loop key arr v fuel' (it + 1)%nat (count - (step + 1))%nat
        else lower_bound_loop key arr v fuel' first step
  end.

Definition lower_bound {A} (key : A → N) (arr : list A) (count : nat) (v : N) : nat :=
  lower_bound_loop key arr v count 0 count.

(** [ptr->getIndex()] for a pointer [p] into the array [mem]. *)
Definition indexAt (mem : list Star) (p : nat) : N :=
  match mem !! p with Some s => getIndex s | None => 0 end.

(** The order that the comparator of both [std::sort] calls on arrays of
    star pointers induces: no element is before one of smaller number. *)
Definition byIndex (mem : list Star) : relation nat :=
  λ p q, indexAt mem p ≤ indexAt mem q.

#[global] Instance byIndex_dec mem p q : Decision (byIndex mem p q).
Proof. unfold byIndex. apply _. Defined.

(** [std::sort] of an array of star pointers by catalog number.  The
    standard leaves the order of equal elements open; the model sorts by
    merging, which is one of the permitted results. *)
Definition sortByIndex (mem : list Star) (ptrs : list nat) : list nat :=
  merge_sort (byIndex mem) ptrs.

(** [StarDatabase::find(catalogNumber)]: the position in [stars] of the
    star found, [None] for [nullptr]. *)
Definition find (db : StarDatabase) (catalogNumber : N) : option nat :=
  let star := lower_bound (indexAt (stars db)) (catalogNumberIndex db) (nStars db)
                          catalogNumber in
  match catalogNumberIndex db !! star with
  | Some p =>
      if bool_decide (star ≠ nStars db) && (indexAt (stars db) p =? catalogNumber)
      then Some p else None
  | None => None
  end.

(** [StarDatabase::findWhileLoading]: the position in [unsortedStars]. *)
Definition findWhileLoading (db : StarDatabase) (catalogNumber : N) : option nat :=
  let inBin :=
    match binFileCatalogNumberIndex db with
    | Some arr =>
        let star := lower_bound (indexAt (unsortedStars db)) arr (binFileStarCount db)
                                catalogNumber in
        match arr !! star with
        | Some p =>
            if bool_decide (star ≠ binFileStarCount db)
               && (indexAt (unsortedStars db) p =? catalogNumber)
            then Some p else None
        | None => None
        end
    | None => None
    end in
  match inBin with
  | Some p => Some p
  | None => stcFileCatalogNumberIndex db !! catalogNumber
  end.

(** *** Cross indexes *)

Definition CROSSINDEX_MAGIC : string := "CELINDEX".
Definition STARSDAT_MAGIC : string := "CELSTARS".

(** [StarDatabase::searchCrossIndexForCatalogNumber].  The result is
    [None] where the C++ function dereferences a table that has been
    deleted, which has no defined result. *)
Definition searchCrossIndexForCatalogNumber (db : StarDatabase) (catalog : nat)
    (number : N) : option N :=
  if bool_decide (length (crossIndexes db) ≤ catalog)%nat then Some InvalidIndex
  else
    match crossIndexes db !! catalog with
    | Some (Some p) =>
        match xheap db !! p with
        | Some (XLive xindex) =>
            let iter := lower_bound x_catalogNumber xindex (length xindex) number in
            match xindex !! iter with
            | Some e =>
                if negb (x_catalogNumber e =? number) then Some InvalidIndex
                else Some (x_celCatalogNumber e)
            | None => Some InvalidIndex
            end
        | _ => None
        end
    | _ => Some InvalidIndex
    end.

(** [StarDatabase::crossIndex]: a linear search, [None] as above. *)
Definition crossIndex (db : StarDatabase) (catalog : nat) (celCatalogNumber : N)
    : option N :=
  if bool_decide (length (crossIndexes db) ≤ catalog)%nat then Some InvalidIndex
  else
    match crossIndexes db !! catalog with
    | Some (Some p) =>
        match xheap db !! p with
        | Some (XLive xindex) =>
            match List.find (λ o, celCatalogNumber =? x_celCatalogNumber o) xindex with
            | Some e => Some (x_catalogNumber e)
            | None => Some InvalidIndex
            end
        | _ => None
        end
    | _ => Some InvalidIndex
    end.

(** [StarDatabase::searchCrossIndex] *)
Definition searchCrossIndex (db : StarDatabase) (catalog : nat) (number : N)
    : option (option nat) :=
  match searchCrossIndexForCatalogNumber db catalog number with
  | Some celCatalogNumber =>
      if bool_decide (celCatalogNumber ≠ InvalidIndex)
      then Some (find db celCatalogNumber) else Some None
  | None => None
  end.

(** [operator<] of [CrossIndexEntry], as the order [sort] leaves. *)
Definition byCatalogNumber : relation CrossIndexEntry :=
  λ a b, x_catalogNumber a ≤ x_catalogNumber b.

#[global] Instance byCatalogNumber_dec a b : Decision (byCatalogNumber a b).
Proof. unfold byCatalogNumber. apply _. Defined.

(** The inner [while (remainingRecords-- > 0)] loop: [n] records of 8
    bytes decoded from [ptr]. *)
Fixpoint decodeCrossIndexRecords (n : nat) (ptr : list byte) : list CrossIndexEntry :=
  match n with
  | O => []
  | S n' =>
      mkXEntry (Bytes.le_uint 0 4 ptr) (Bytes.le_uint 4 4 ptr)
        :: decodeCrossIndexRecords n' (drop 8 ptr)
  end.

Inductive xload_result :=
  | XDone (xindex : list CrossIndexEntry)
  | XFailed (msg : string).

(** The [while (hasMoreRecords)] loop of [loadCrossIndex] with its buffer
    of 512 records.  [None] only when [fuel] runs out. *)
Fixpoint readCrossIndexRecords (fuel : nat) (inp : istream)
    (xindex : list CrossIndexEntry) : option (xload_result * istream) :=
  match fuel with
  | O => None
  | S fuel' =>
      let '(buffer, in1) := is_read 4096 inp in
      if is_badbit in1 then Some (XFailed "Loading cross index failed", in1)
      else if is_eofbit in1 then
        let bytesRead := is_gcount in1 in
        if bool_decide (bytesRead mod 8 ≠ 0)%nat
        then Some (XFailed "Loading cross index failed - unexpected EOF", in1)
        else Some (XDone (xindex ++ decodeCrossIndexRecords (bytesRead / 8) buffer), in1)
      else readCrossIndexRecords fuel' in1 (xindex ++ decodeCrossIndexRecords 512 buffer)
  end.

(** [StarDatabase::loadCrossIndex].  The result carries the value
    returned, the stream and the database afterwards; it is [None] only
    if the record loop ran out of fuel. *)
Definition loadCrossIndex (catalog : nat) (inp : istream) (db : StarDatabase)
    : option (bool * istream * StarDatabase) :=
  if bool_decide (length (crossIndexes db) ≤ catalog)%nat then Some (false, inp, db)
  else
    (* if (crossIndexes[catalog] != nullptr) delete crossIndexes[catalog]; *)
    let db1 :=
      match crossIndexes db !! catalog with
      | Some (Some p) => set_xheap (<[p := XFreed]> (xheap db)) db
      | _ => db
      end in
    let '(header, in1) := is_read 10 inp in
    if negb (is_good in1) then Some (false, in1, db1)
    else if negb (Bytes.eqb_bytes (Bytes.field 0 8 header)
                                  (Bytes.of_ascii_string CROSSINDEX_MAGIC))
    then Some (false, in1, logger LError "Bad header for cross index" db1)
    else if negb (Bytes.le_uint 8 2 header =? 256)
    then Some (false, in1, logger LError "Bad version for cross index" db1)
    else
      (* CrossIndex* xindex = new CrossIndex(); *)
      let xindex := length (xheap db1) in
      let db2 := set_xheap (xheap db1 ++ [XLive []]) db1 in
      match readCrossIndexRecords (S (length (is_data in1) / 4096)) in1 [] with
      | None => None
      | Some (XFailed msg, in2) =>
          Some (false, in2, set_xheap (<[xindex := XFreed]> (xheap db2)) (logger LError msg db2))
      | Some (XDone entries, in2) =>
          let db3 := logger LDebug "Loaded xindex in {} ms" db2 in
          let db4 := set_xheap (<[xindex := XLive (merge_sort byCatalogNumber entries)]>
                                  (xheap db3)) db3 in
          Some (true, in2, set_crossIndexes (<[catalog := Some xindex]> (crossIndexes db4)) db4)
      end.

(** *** The binary star file *)

(** [sizeof(StarsDatRecord)] under [#pragma pack(push, 1)]: the fields
    [catNo] (4 bytes, offset 0), [x], [y], [z] (4 bytes each, offsets 4, 8
    and 12), [absMag] (2 bytes, offset 16) and [spectralType] (2 bytes,
    offset 18); and [BUFFER_RECORDS] of [loadBinary]. *)
Definition StarsDatRecord_size : nat := 20.
Definition BUFFER_RECORDS : N := 4096 / 20.

(** The body of the [for] loop over the records of one buffer: [n]
    records decoded from [ptr], each appended to [unsortedStars].  The
    result is [false] where [loadBinary] returns [false] for a spectral
    type without star details. *)
Fixpoint decodeStarRecords (n : nat) (ptr : list byte) (db : StarDatabase)
    : bool * StarDatabase :=
  match n with
  | O => (true, db)
  | S n' =>
      let catNo := Bytes.le_uint 0 4 ptr in
      let x := F32.of_bits (Bytes.le_uint 4 4 ptr) in
      let y := F32.of_bits (Bytes.le_uint 8 4 ptr) in
      let z := F32.of_bits (Bytes.le_uint 12 4 ptr) in
      let absMag := Bytes.to_int16 (Bytes.le_uint 16 2 ptr) in
      let spectralType := Bytes.le_uint 18 2 ptr in
      let star := setAbsoluteMagnitude (F32.div (F32.of_Z absMag) (F32.of_Z 256))
                    (setPosition (Vec3f x y z) newStar) in
      match unpackV1 spectralType ≫= GetStarDetails with
      | None =>
          (false, logger LError "Bad spectral type in star database, star #{}" db)
      | Some details =>
          let star := setIndex catNo (setDetails (Some details) star) in
          decodeStarRecords n' (drop StarsDatRecord_size ptr)
            (set_nStars (S (nStars db)) (set_unsortedStars (unsortedStars db ++ [star]) db))
      end
  end.

(** The [while (nStarsRemaining > 0)] loop.  [None] only when [fuel]
    runs out. *)
Fixpoint readStarRecords (fuel : nat) (nStarsRemaining : N) (inp : istream)
    (db : StarDatabase) : option (bool * istream * StarDatabase) :=
  match fuel with
  | O => None
  | S fuel' =>
      if nStarsRemaining =? 0 then Some (true, inp, db)
      else
        let recordsToRead := N.min BUFFER_RECORDS nStarsRemaining in
        let '(buffer, in1) := is_read (StarsDatRecord_size * N.to_nat recordsToRead) inp in
        if negb (is_good in1) then Some (false, in1, db)
        else
          let '(ok, db1) := decodeStarRecords (N.to_nat recordsToRead) buffer db in
          if negb ok then Some (false, in1, db1)
          else readStarRecords fuel' (nStarsRemaining - recordsToRead) in1 db1
  end.

(** [StarDatabase::loadBinary] *)
Definition loadBinary (inp : istream) (db : StarDatabase)
    : option (bool * istream * StarDatabase) :=
  let '(header, in1) := is_read 14 inp in
  if negb (is_good in1) then Some (false, in1, db)
  else if negb (Bytes.eqb_bytes (Bytes.field 0 8 header)
                                (Bytes.of_ascii_string STARSDAT_MAGIC))
  then Some (false, in1, db)
  else if negb (Bytes.le_uint 8 2 header =? 256) then Some (false, in1, db)
  else
    let nStarsInFile := Bytes.le_uint 10 4 header in
    match readStarRecords (S (S (N.to_nat (nStarsInFile / BUFFER_RECORDS)))) nStarsInFile in1 db with
    | None => None
    | Some (false, in2, db1) => Some (false, in2, db1)
    | Some (true, in2, db1) =>
        if is_badbit in2 then Some (false, in2, db1)
        else
          let db2 := logger LInfo "{} stars in binary database"
                       (logger LDebug "StarDatabase::read: nStars = {}, time = {} ms" db1) in
          if bool_decide (0 < length (unsortedStars db2))%nat then
            let count := length (unsortedStars db2) in
            Some (true, in2,
                  set_binFileIndex (Some (sortByIndex (unsortedStars db2) (seq 0 count)))
                                   count db2)
          else Some (true, in2, db2)
    end.

(** *** Finishing *)

(** [StarDatabase::buildOctree].  [new Star[nStars]] makes [nStars]
    default stars, which [rebuildAndSort] overwrites from the first on. *)
Definition buildOctree (db : StarDatabase) : StarDatabase :=
  let db1 := logger LDebug "Sorting stars into octree . . ." db in
  let db2 := logger LDebug "Spatially sorting stars for improved locality of reference . . ." db1 in
  let emitted := rebuildAndSort (unsortedStars db2) in
  let sortedStars := take (nStars db2) (emitted ++ replicate (nStars db2) newStar) in
  let db3 := logger LDebug "{} stars total\nOctree has {} nodes and {} stars." db2 in
  set_stars sortedStars (set_unsortedStars [] db3).

(** [StarDatabase::buildIndexes] *)
Definition buildIndexes (db : StarDatabase) : StarDatabase :=
  let db1 := logger LInfo "Building catalog number indexes . . ." db in
  set_catalogNumberIndex (sortByIndex (stars db1) (seq 0 (nStars db1))) db1.

(** Modelled from the spec: [Star::setOrbitBarycenter] and
    [Star::addOrbitingStar] are defined in [star.cpp], which is not among
    the sources.  Per the spec an entry carries "an optional back-reference
    to an orbit barycenter entry and a forward list of entries orbiting
    it"; the two calls set the first on [star] and extend the second on
    [barycenter]. *)
Definition linkBarycenter (star barycenter : nat) (mem : list Star) : list Star :=
  alter (addOrbitingStar star) barycenter (alter (setOrbitBarycenter barycenter) star mem).

(** The loop of [finish] over [barycenters].  With [assertions] the two
    [assert]s are compiled in and a null pointer stops the program
    ([None]); without ([NDEBUG]) they expand to nothing. *)
Fixpoint resolveBarycenters (assertions : bool) (bs : list BarycenterUsage)
    (db : StarDatabase) : option StarDatabase :=
  match bs with
  | [] => Some db
  | b :: rest =>
      let star := find db (bu_catNo b) in
      let barycenter := find db (bu_barycenterCatNo b) in
      if assertions && negb (bool_decide (is_Some star) && bool_decide (is_Some barycenter))
      then None
      else
        match star, barycenter with
        | Some i, Some j =>
            resolveBarycenters assertions rest (set_stars (linkBarycenter i j (stars db)) db)
        | _, _ => resolveBarycenters assertions rest db
        end
  end.

(** [StarDatabase::finish].  Deleting [binFileCatalogNumberIndex] is
    rendered by the null value: the array is not read again. *)
Definition finish (assertions : bool) (db : StarDatabase) : option StarDatabase :=
  let db1 := logger LInfo "Total star count: {}" db in
  let db2 := buildIndexes (buildOctree db1) in
  let db3 := set_stcFileCatalogNumberIndex ∅ (set_binFileIndex None (binFileStarCount db2) db2) in
  match resolveBarycenters assertions (barycenters db3) db3 with
  | Some db4 => Some (set_barycenters [] db4)
  | None => None
  end.

(** *** Name lookup *)

(** [StarDatabase::findCatalogNumberByName]; [None] where a deleted
    cross index would be read. *)
Definition findCatalogNumberByName (db : StarDatabase) (name : string) (i18n : bool)
    : option N :=
  if bool_decide (name = EmptyString) then Some InvalidIndex
  else
    let byName :=
      match namesDB db with
      | Some names => names_findCatalogNumberByName names name i18n
      | None => InvalidIndex
      end in
    if bool_decide (byName ≠ InvalidIndex) then Some byName
    else
      match parseCelestiaCatalogNumber name with
      | Some n => Some n
      | None =>
      match parseHIPPARCOSCatalogNumber name with
      | Some n => Some n
      | None =>
      match parseTychoCatalogNumber name with
      | Some n => Some n
      | None =>
      match parseHDCatalogNumber name with
      | Some n => searchCrossIndexForCatalogNumber db HenryDraper n
      | None =>
      match parseSimpleCatalogNumber name SAOCatalogPrefix with
      | Some n => searchCrossIndexForCatalogNumber db SAO n
      | None => Some InvalidIndex
      end end end end end.

(** *** The merge of [.stc] files

    The functions of the merge change the database and the star they are
    given through a pointer; they are written in a state monad over the
    database, whose [None] stands for a step without defined behaviour
    (a null or dangling pointer is dereferenced). *)

Definition M (A : Type) : Type := StarDatabase → option (A * StarDatabase).

#[global] Instance M_ret : MRet M := λ A a db, Some (a, db).
#[global] Instance M_bind : MBind M := λ A B f m db,
  match m db with
  | Some (a, db') => f a db'
  | None => None
  end.

Definition getDB : M StarDatabase := λ db, Some (db, db).
Definition modifyDB (f : StarDatabase → StarDatabase) : M unit := λ db, Some (tt, f db).
Definition undefined {A} : M A := λ _, None.
Definition liftOption {A} (o : option A) : M A :=
  λ db, match o with Some a => Some (a, db) | None => None end.
Definition logM (lvl : LogLevel) (msg : string) : M unit := modifyDB (logger lvl msg).

(** A [Star*] during the merge: an element of [unsortedStars], or the
    object made by [new Star()]. *)
Inductive StarPtr := InStore (p : nat) | OnHeap.

Definition readStar (star : StarPtr) : M Star :=
  λ db, match star with
        | InStore p =>
            match unsortedStars db !! p with
            | Some s => Some (s, db)
            | None => None
            end
        | OnHeap => Some (heapStar db, db)
        end.

Definition updateStar (star : StarPtr) (f : Star → Star) : M unit :=
  λ db, match star with
        | InStore p =>
            match unsortedStars db !! p with
            | Some _ => Some (tt, set_unsortedStars (alter f p (unsortedStars db)) db)
            | None => None
            end
        | OnHeap => Some (tt, set_heapStar (f (heapStar db)) db)
        end.

(** [star->getDetails()->setX(...)]: a change made through the details
    pointer of [star]. *)
Definition updateDetails (star : StarPtr) (f : StarDetails → StarDetails) : M unit :=
  s ← readStar star;
  match s_details s with
  | Some d => updateStar star (setDetails (Some (f d)))
  | None => undefined
  end.

Definition setSpectralData (r : StarDetails) (d : StarDetails) : StarDetails :=
  mkDetails (d_shared d) (d_spectralType r) (d_temperature r) (d_bolometricCorrection r)
            (d_knowledge d)
            (if N.land (d_knowledge d) KnowTexture =? 0 then d_texture r else d_texture d)
            (d_geometry d) (d_semiAxes d) (d_radius d) (d_orbit d)
            (if N.land (d_knowledge d) KnowRotation =? 0
             then d_rotationModel r else d_rotationModel d)
            (d_visibility r) (d_infoURL d).

(** [modifyStarDetails] *)
Definition modifyStarDetails (star : StarPtr) (referenceDetails : option StarDetails)
    (hasCustomDetails : bool) : M unit :=
  s ← readStar star;
  match s_details s with
  | None => undefined
  | Some existingDetails =>
      if d_shared existingDetails then
        if hasCustomDetails then
          updateStar star (setDetails (Some (clone (default existingDetails referenceDetails))))
        else
          match referenceDetails with
          | Some r => updateStar star (setDetails (Some r))
          | None => mret tt
          end
      else
        match referenceDetails with
        | Some r => updateStar star (setDetails (Some (setSpectralData r existingDetails)))
        | None => mret tt
        end
  end.

Record CustomStarDetails := mkCustom {
  hasCustomDetails : bool;
  modelName : option string;
  textureName : option string;
  orbit : option N;
  rm : option N;
  semiAxes : option Vector3d;
  radius : option float;
  temperature : double;
  bolometricCorrection : option float;
  infoURL : option string
}.

(** [parseCustomStarDetails] *)
Definition parseCustomStarDetails (starData : Hash) : CustomStarDetails :=
  let temperature := default F64.zero (h_Temperature starData) in
  mkCustom
    (bool_decide (is_Some (h_Mesh starData))
     || bool_decide (is_Some (h_Texture starData))
     || bool_decide (is_Some (h_Orbit starData))
     || bool_decide (is_Some (h_RotationModel starData))
     || bool_decide (is_Some (h_SemiAxes starData))
     || bool_decide (is_Some (h_Radius starData))
     || F64.ltb F64.zero temperature
     || bool_decide (is_Some (h_BoloCorrection starData))
     || bool_decide (is_Some (h_InfoURL starData)))
    (h_Mesh starData) (h_Texture starData) (h_Orbit starData) (h_RotationModel starData)
    (h_SemiAxes starData) (h_Radius starData) temperature (h_BoloCorrection starData)
    (h_InfoURL starData).

Definition d_setTexture v (d : StarDetails) : StarDetails :=
  mkDetails (d_shared d) (d_spectralType d) (d_temperature d) (d_bolometricCorrection d)
            (d_knowledge d) v (d_geometry d) (d_semiAxes d) (d_radius d)
            (d_orbit d) (d_rotationModel d) (d_visibility d) (d_infoURL d).
Definition d_addKnowledge v (d : StarDetails) : StarDetails :=
  mkDetails (d_shared d) (d_spectralType d) (d_temperature d) (d_bolometricCorrection d)
            (N.lor (d_knowledge d) v) (d_texture d) (d_geometry d) (d_semiAxes d) (d_radius d)
            (d_orbit d) (d_rotationModel d) (d_visibility d) (d_infoURL d).
Definition d_setGeometry v (d : StarDetails) : StarDetails :=
  mkDetails (d_shared d) (d_spectralType d) (d_temperature d) (d_bolometricCorrection d)
            (d_knowledge d) (d_texture d) v (d_semiAxes d) (d_radius d)
            (d_orbit d) (d_rotationModel d) (d_visibility d) (d_infoURL d).
Definition d_setEllipsoidSemiAxes v (d : StarDetails) : StarDetails :=
  mkDetails (d_shared d) (d_spectralType d) (d_temperature d) (d_bolometricCorrection d)
            (d_knowledge d) (d_texture d) (d_geometry d) v (d_radius d)
            (d_orbit d) (d_rotationModel d) (d_visibility d) (d_infoURL d).
Definition d_setRadius v (d : StarDetails) : StarDetails :=
  mkDetails (d_shared d) (d_spectralType d) (d_temperature d) (d_bolometricCorrection d)
            (d_knowledge d) (d_texture d) (d_geometry d) (d_semiAxes d) v
            (d_orbit d) (d_rotationModel d) (d_visibility d) (d_infoURL d).
Definition d_setTemperature v (d : StarDetails) : StarDetails :=
  mkDetails (d_shared d) (d_spectralType d) v (d_bolometricCorrection d)
            (d_knowledge d) (d_texture d) (d_geometry d) (d_semiAxes d) (d_radius d)
            (d_orbit d) (d_rotationModel d) (d_visibility d) (d_infoURL d).
Definition d_setBolometricCorrection v (d : StarDetails) : StarDetails :=
  mkDetails (d_shared d) (d_spectralType d) (d_temperature d) v
            (d_knowledge d) (d_texture d) (d_geometry d) (d_semiAxes d) (d_radius d)
            (d_orbit d) (d_rotationModel d) (d_visibility d) (d_infoURL d).
Definition d_setInfoURL v (d : StarDetails) : StarDetails :=
  mkDetails (d_shared d) (d_spectralType d) (d_temperature d) (d_bolometricCorrection d)
            (d_knowledge d) (d_texture d) (d_geometry d) (d_semiAxes d) (d_radius d)
            (d_orbit d) (d_rotationModel d) (d_visibility d) v.
Definition d_setOrbit v (d : StarDetails) : StarDetails :=
  mkDetails (d_shared d) (d_spectralType d) (d_temperature d) (d_bolometricCorrection d)
            (d_knowledge d) (d_texture d) (d_geometry d) (d_semiAxes d) (d_radius d)
            v (d_rotationModel d) (d_visibility d) (d_infoURL d).
Definition d_setRotationModel v (d : StarDetails) : StarDetails :=
  mkDetails (d_shared d) (d_spectralType d) (d_temperature d) (d_bolometricCorrection d)
            (d_knowledge d) (d_texture d) (d_geometry d) (d_semiAxes d) (d_radius d)
            (d_orbit d) v (d_visibility d) (d_infoURL d).

(** [if (c) body]: run [body] when the optional value is present. *)
Definition whenSome {A} (o : option A) (body : A → M unit) : M unit :=
  match o with Some a => body a | None => mret tt end.

(** [StarDatabase::applyOrbit].  The second component of the result is
    [barycenterPosition]. *)
Definition applyOrbit (catalogNumber : N) (starData : Hash) (details : StarPtr)
    (customDetails : CustomStarDetails) : M (bool * option Vector3f) :=
  match orbit customDetails with
  | None => mret (true, None)
  | Some o =>
      _ ← updateDetails details (d_setOrbit (Some o));
      '(barycenterCatNo, barycenterDefined) ←
        match h_OrbitBarycenter starData with
        | Some (inl barycenterName) =>
            db ← getDB;
            n ← liftOption (findCatalogNumberByName db barycenterName false);
            mret (n, true)
        | Some (inr barycenterNumber) => mret (barycenterNumber, true)
        | None => mret (InvalidIndex, false)
        end;
      if barycenterDefined : bool then
        barycenterPosition ←
          (if bool_decide (barycenterCatNo ≠ InvalidIndex) then
             _ ← modifyDB (λ db, set_barycenters
                           (barycenters db ++ [mkUsage catalogNumber barycenterCatNo]) db);
             db ← getDB;
             match findWhileLoading db barycenterCatNo with
             | Some barycenter =>
                 b ← readStar (InStore barycenter);
                 mret (Some (s_position b))
             | None => mret None
             end
           else mret None);
        match barycenterPosition with
        | None =>
            _ ← logM LError "Barycenter {} does not exist.";
            mret (false, None)
        | Some pos => mret (true, Some pos)
        end
      else mret (true, None)
  end.

(** [StarDatabase::applyCustomStarDetails] *)
Definition applyCustomStarDetails (star : StarPtr) (catalogNumber : N) (starData : Hash)
    (path : string) (customDetails : CustomStarDetails) : M (bool * option Vector3f) :=
  if negb (hasCustomDetails customDetails) then mret (true, None)
  else
    _ ← whenSome (textureName customDetails) (λ t,
          _ ← updateDetails star (d_setTexture (t, path));
          updateDetails star (d_addKnowledge KnowTexture));
    _ ← whenSome (modelName customDetails) (λ m,
          updateDetails star (d_setGeometry (geometryHandle m path)));
    _ ← whenSome (semiAxes customDetails) (λ a,
          updateDetails star (d_setEllipsoidSemiAxes (cast_float a)));
    _ ← whenSome (radius customDetails) (λ r,
          _ ← updateDetails star (d_setRadius r);
          updateDetails star (d_addKnowledge KnowRadius));
    _ ← (if F64.ltb F64.zero (temperature customDetails) then
           _ ← updateDetails star (d_setTemperature (F32.of_double (temperature customDetails)));
           if negb (bool_decide (is_Some (bolometricCorrection customDetails))) then
             updateDetails star
               (d_setBolometricCorrection (bolometricCorrectionOf (temperature customDetails)))
           else mret tt
         else mret tt);
    _ ← whenSome (bolometricCorrection customDetails) (λ bc,
          updateDetails star (d_setBolometricCorrection bc));
    _ ← whenSome (infoURL customDetails) (λ u, updateDetails star (d_setInfoURL u));
    '(ok, barycenterPosition) ← applyOrbit catalogNumber starData star customDetails;
    if negb ok then mret (false, barycenterPosition)
    else
      _ ← whenSome (rm customDetails) (λ r,
            updateDetails star (d_setRotationModel (Some r)));
      mret (true, barycenterPosition).

(** [StarDatabase::createOrUpdateStarDetails] *)
Definition createOrUpdateStarDetails (star : StarPtr) (disposition : DataDisposition)
    (catalogNumber : N) (starData : Hash) (path : string) (isBarycenter : bool)
    : M (bool * option Vector3f) :=
  let continue (referenceDetails : option StarDetails) : M (bool * option Vector3f) :=
    let customDetails := parseCustomStarDetails starData in
    _ ← (if is_Modify disposition then
           modifyStarDetails star referenceDetails (hasCustomDetails customDetails)
         else
           match referenceDetails with
           | Some r =>
               updateStar star (setDetails
                 (Some (if hasCustomDetails customDetails then clone r else r)))
           | None => undefined
           end);
    applyCustomStarDetails star catalogNumber starData path customDetails in
  if isBarycenter then continue (Some GetBarycenterDetails)
  else
    match h_SpectralType starData with
    | Some spectralType =>
        match GetStarDetails (parseStellarClass spectralType) with
        | None =>
            _ ← logM LError "Invalid star: bad spectral type.";
            mret (false, None)
        | Some r => continue (Some r)
        end
    | None =>
        if negb (is_Modify disposition) then
          _ ← logM LError "Invalid star: missing spectral type.";
          mret (false, None)
        else continue None
    end.

(** The position block of [createStar] (from "Compute the position in
    rectangular coordinates" on); [false] where [createStar] returns
    [false]. *)
Definition resolvePosition (star : StarPtr) (disposition : DataDisposition)
    (starData : Hash) (barycenterPosition : option Vector3f) : M bool :=
  match barycenterPosition with
  | Some p => _ ← updateStar star (setPosition p); mret true
  | None =>
      match h_Position starData with
      | Some rectangularPos => _ ← updateStar star (setPosition rectangularPos); mret true
      | None =>
          s ← readStar star;
          let '(ra0, dec0, distance0) :=
            if is_Modify disposition then positionToEquatorial (s_position s)
            else (F64.zero, F64.zero, F64.zero) in
          let withDistance (ra dec : double) (modifyPosition : bool) : M bool :=
            let place (distance : double) (modifyPosition : bool) : M bool :=
              if modifyPosition then
                let raf := F32.of_double ra in
                let decf := F32.of_double dec in
                let distancef := F32.of_double distance in
                let pos := equatorialToCelestialCart (F64.of_float raf) (F64.of_float decf)
                                                     (F64.of_float distancef) in
                _ ← updateStar star (setPosition (cast_float pos));
                mret true
              else mret true in
            match h_Distance starData with
            | Some dist => place dist true
            | None =>
                if negb (is_Modify disposition) then
                  _ ← logM LError "Invalid star: missing distance.";
                  mret false
                else place distance0 modifyPosition
            end in
          let withDec (ra : double) (modifyPosition : bool) : M bool :=
            match h_Dec starData with
            | Some decValue => withDistance ra decValue true
            | None =>
                if negb (is_Modify disposition) then
                  _ ← logM LError "Invalid star: missing declination.";
                  mret false
                else withDistance ra dec0 modifyPosition
            end in
          match h_RA starData with
          | Some raValue => withDec raValue true
          | None =>
              if negb (is_Modify disposition) then
                _ ← logM LError "Invalid star: missing right ascension";
                mret false
              else withDec ra0 false
          end
      end
  end.

(** The literals [30.0f], [1e-5f] and [0.0f]. *)
Definition f30 : float := F32.of_Z 30.
Definition f1em5 : float := F32.of_bits 925353388.

(** The magnitude block of [createStar] (from [if (isBarycenter)] on). *)
Definition resolveMagnitude (star : StarPtr) (disposition : DataDisposition)
    (starData : Hash) (isBarycenter : bool) : M bool :=
  if isBarycenter then
    _ ← updateStar star (setAbsoluteMagnitude f30);
    mret true
  else
    let rest (absoluteDefined : bool) (magnitude : option float) : M bool :=
      _ ← whenSome magnitude (λ m, updateStar star (setAbsoluteMagnitude m));
      _ ← whenSome (h_Extinction starData) (λ extinction,
            s ← readStar star;
            let distance := norm (s_position s) in
            extinction ←
              (if negb (F32.eqb distance F32.zero) then
                 _ ← updateStar star (setExtinction (F32.div extinction distance));
                 mret extinction
               else mret F32.zero);
            if negb absoluteDefined then
              s ← readStar star;
              updateStar star (setAbsoluteMagnitude (F32.sub (s_absMag s) extinction))
            else mret tt);
      mret true in
    match h_AbsMag starData with
    | Some m => rest true (Some m)
    | None =>
        match h_AppMag starData with
        | Some appMag =>
            s ← readStar star;
            let distance := norm (s_position s) in
            if F32.ltb distance f1em5 then
              _ ← logM LError "Invalid star: absolute (not apparent) magnitude must be specified for star near origin";
              mret false
            else rest false (Some (appToAbsMag appMag distance))
        | None =>
            if negb (is_Modify disposition) then
              _ ← logM LError "Invalid star: missing magnitude.";
              mret false
            else rest false None
        end
    end.

(** [StarDatabase::createStar] *)
Definition createStar (star : StarPtr) (disposition : DataDisposition)
    (catalogNumber : N) (starData : Hash) (path : string) (isBarycenter : bool)
    : M bool :=
  '(ok, barycenterPosition) ←
    createOrUpdateStarDetails star disposition catalogNumber starData path isBarycenter;
  if negb ok then mret false
  else
    _ ← (if negb (is_Modify disposition) then updateStar star (setIndex catalogNumber)
         else mret tt);
    ok ← resolvePosition star disposition starData barycenterPosition;
    if negb ok then mret false
    else resolveMagnitude star disposition starData isBarycenter.

(** [objName.substr(0, objName.find(':', 0))] *)
Fixpoint upToColon (s : string) : string :=
  match s with
  | EmptyString => EmptyString
  | String c r => if Ascii.eqb c ":" then EmptyString else String c (upToColon r)
  end.

(** The names that the loop over [objName] hands to [namesDB->add], in
    order: the pieces between the colons. *)
Fixpoint splitColon (s : string) : list string :=
  match s with
  | EmptyString => [EmptyString]
  | String c r =>
      if Ascii.eqb c ":" then EmptyString :: splitColon r
      else
        match splitColon r with
        | x :: xs => String c x :: xs
        | [] => [String c EmptyString]
        end
  end.

(** [nextAutoCatalogNumber--] *)
Definition takeAutoCatalogNumber : M N :=
  λ db, Some (nextAutoCatalogNumber db,
              set_nextAutoCatalogNumber (wrap32 (nextAutoCatalogNumber db + UINT32_MAX)) db).

(** The [switch (disposition)] of [load]: the catalog number and the
    star found for it; [None] where [load] returns [false]. *)
Definition resolveTarget (disposition : DataDisposition) (isStar : bool)
    (catalogNumber : N) (firstName : string) : M (option (N * option nat)) :=
  match disposition with
  | Add =>
      if bool_decide (catalogNumber = InvalidIndex) then
        if negb isStar && bool_decide (firstName = EmptyString) then
          _ ← logM LError "Bad barycenter: neither catalog number nor name set at line {}.";
          mret None
        else
          n ← takeAutoCatalogNumber;
          mret (Some (n, None))
      else
        db ← getDB;
        mret (Some (catalogNumber, findWhileLoading db catalogNumber))
  | Replace =>
      catalogNumber ←
        (if bool_decide (catalogNumber = InvalidIndex)
            && negb (bool_decide (firstName = EmptyString))
         then db ← getDB; liftOption (findCatalogNumberByName db firstName false)
         else mret catalogNumber);
      if bool_decide (catalogNumber = InvalidIndex) then
        n ← takeAutoCatalogNumber;
        mret (Some (n, None))
      else
        db ← getDB;
        mret (Some (catalogNumber, findWhileLoading db catalogNumber))
  | Modify =>
      catalogNumber ←
        (if bool_decide (catalogNumber = InvalidIndex)
            && negb (bool_decide (firstName = EmptyString))
         then db ← getDB; liftOption (findCatalogNumberByName db firstName false)
         else mret catalogNumber);
      if bool_decide (catalogNumber ≠ InvalidIndex) then
        db ← getDB;
        mret (Some (catalogNumber, findWhileLoading db catalogNumber))
      else mret (Some (catalogNumber, None))
  end.

(** The part of the loop body of [load] after [ok] is known. *)
Definition commitStar (ok isNewStar : bool) (catalogNumber : N) (objName : string)
    : M unit :=
  if ok then
    _ ← (if isNewStar then
           modifyDB (λ db,
             let db1 := set_nStars (S (nStars db))
                          (set_unsortedStars (unsortedStars db ++ [heapStar db]) db) in
             set_stcFileCatalogNumberIndex
               (<[catalogNumber := (length (unsortedStars db1) - 1)%nat]>
                  (stcFileCatalogNumberIndex db1)) db1)
         else mret tt);
    modifyDB (λ db,
      match namesDB db with
      | Some names =>
          if negb (bool_decide (objName = EmptyString)) then
            set_namesDB
              (Some (foldl (λ ndb starName, names_add catalogNumber starName ndb)
                           (names_erase catalogNumber names) (splitColon objName))) db
          else db
      | None => db
      end)
  else logM LInfo "Bad star definition--will continue parsing file.".

(** One round of the [while] loop of [StarDatabase::load]: [true] to go
    on with the next block, [false] where [load] returns [false]. *)
Definition loadBlock (resourcePath : string) (b : StcBlock) : M bool :=
  let disposition := default Add (b_disposition b) in
  let afterType (isStar : bool) : M bool :=
    let catalogNumber := default InvalidIndex (b_catalogNumber b) in
    let objName := default EmptyString (b_objName b) in
    let firstName := upToColon objName in
    match b_body b with
    | NotAGroup =>
        _ ← logM LError "Unexpected token at line {}!";
        mret false
    | body =>
        target ← resolveTarget disposition isStar catalogNumber firstName;
        match target with
        | None => mret false
        | Some (catalogNumber, found) =>
            let isNewStar := negb (bool_decide (is_Some found)) in
            match body with
            | Group starData =>
                _ ← (if isNewStar then modifyDB (set_heapStar newStar) else mret tt);
                let star := match found with Some p => InStore p | None => OnHeap end in
                ok ←
                  (if isNewStar && is_Modify disposition then
                     _ ← logM LWarn "Modify requested for nonexistent star.";
                     mret false
                   else
                     ok ← createStar star disposition catalogNumber starData resourcePath
                                     (negb isStar);
                     _ ← updateStar star (λ s,
                           setCategories (loadCategories starData disposition resourcePath
                                                         (s_categories s)) s);
                     mret ok);
                _ ← commitStar ok isNewStar catalogNumber objName;
                mret true
            | _ =>
                _ ← logM LError "Bad star definition at line {}.";
                mret false
            end
        end
    end in
  match b_objectType b with
  | None => afterType true
  | Some tokenValue =>
      if bool_decide (tokenValue = "Star") then afterType true
      else if bool_decide (tokenValue = "Barycenter") then afterType false
      else
        _ ← logM LError "Error in .stc file (line {}): {}";
        mret false
  end.

(** [StarDatabase::load] on the blocks of the file. *)
Fixpoint load (resourcePath : string) (blocks : list StcBlock) : M bool :=
  match blocks with
  | [] => mret true
  | b :: rest =>
      ok ← loadBlock resourcePath b;
      if ok : bool then load resourcePath rest else mret false
  end.

End Database.

(** * Vocabulary of the properties

    Predicates and auxiliary functions in which the theorems below are
    stated. *)

Section Ordered.
Context {A : Type} (key : A → N) (arr : list A).

(** [arr] is ordered by [key] on its first [n] elements. *)
Definition ordered (n : nat) : Prop :=
  ∀ i j x y, (i ≤ j)%nat → (j < n)%nat →
    arr !! i = Some x → arr !! j = Some y → key x ≤ key y.

End Ordered.

(** The stream [inp] with [extra] appended to what it still holds. *)
Definition append_data (inp : istream) (extra : list byte) : istream :=
  IStream (is_data inp ++ extra) (is_dev_error inp) (is_badbit inp) (is_eofbit inp)
          (is_failbit inp) (is_gcount inp).

Section Vocabulary.
Context `{Env}.

(** The state of the index that [buildIndexes] establishes: it lists
    every position of [stars] once, in an order of non-decreasing
    catalog number. *)
Definition indexed (db : StarDatabase) : Prop :=
  length (stars db) = nStars db ∧
  catalogNumberIndex db ≡ₚ seq 0 (nStars db) ∧
  ∀ i j p q, (i ≤ j)%nat →
    catalogNumberIndex db !! i = Some p → catalogNumberIndex db !! j = Some q →
    indexAt (stars db) p ≤ indexAt (stars db) q.

(** The loop of [finish] without assertions, as a fold over the pending
    pairs with the lookups [F] of the finalized index. *)
Definition linkStep (F : N → option nat) (mem : list Star) (b : BarycenterUsage)
    : list Star :=
  match F (bu_catNo b), F (bu_barycenterCatNo b) with
  | Some i, Some j => linkBarycenter i j mem
  | _, _ => mem
  end.

(** The whole loop: [linkStep] over the pending pairs, first to last. *)
Definition linkAll (F : N → option nat) (bs : list BarycenterUsage) (mem : list Star)
    : list Star :=
  foldl (linkStep F) mem bs.

(** The five messages that [finish] hands to the logger. *)
Definition finishMessages : list LogEntry :=
  [(LInfo, "Total star count: {}");
   (LDebug, "Sorting stars into octree . . .");
   (LDebug, "Spatially sorting stars for improved locality of reference . . .");
   (LDebug, "{} stars total\nOctree has {} nodes and {} stars.");
   (LInfo, "Building catalog number indexes . . .")].

(** The database on which the loop of [finish] starts. *)
Definition beforeLinks (db : StarDatabase) : StarDatabase :=
  let db2 := buildIndexes (buildOctree (logger LInfo "Total star count: {}" db)) in
  set_stcFileCatalogNumberIndex ∅ (set_binFileIndex None (binFileStarCount db2) db2).

(** The spectral code of record [i] of [body], the bytes after the header. *)
Definition spectralCodeAt (i : nat) (body : list byte) : N :=
  Bytes.le_uint 18 2 (drop (StarsDatRecord_size * i) body).

(** The first [n] records of [body] have spectral codes with star details. *)
Definition recordsDecodable (n : nat) (body : list byte) : Prop :=
  ∀ i, (i < n)%nat → is_Some (unpackV1 (spectralCodeAt i body) ≫= GetStarDetails).

(** The 14 bytes of [StarsDatHeader]: magic, version, then the counter. *)
Definition headerOk (data : list byte) : Prop :=
  (14 ≤ length data)%nat ∧
  Bytes.eqb_bytes (Bytes.field 0 8 data) (Bytes.of_ascii_string STARSDAT_MAGIC) = true ∧
  Bytes.le_uint 8 2 data = 256.

(** The record counter of the header. *)
Definition declaredCount (data : list byte) : nat :=
  N.to_nat (Bytes.le_uint 10 4 data).

(** What [decodeStarRecords] leaves apart from the stars it appends. *)
Definition sameButStars (db db' : StarDatabase) (n : nat) : Prop :=
  ∃ l, length l = n ∧
    db' = set_nStars (nStars db + n) (set_unsortedStars (unsortedStars db ++ l) db).

(** The star that [star] points to. *)
Definition starAt (star : StarPtr) (db : StarDatabase) : option Star :=
  match star with
  | InStore p => unsortedStars db !! p
  | OnHeap => Some (heapStar db)
  end.

(** Invariants of a run: a property of the database that the steps of
    the merge keep.  [okf] tells which changes of the star behind [star]
    the property survives. *)
Record stable (star : StarPtr) (okf : (Star → Star) → Prop)
    (I : StarDatabase → Prop) : Prop := mkStable {
  st_update : ∀ db db' f, okf f → I db → updateStar star f db = Some (tt, db') → I db';
  st_log : ∀ db lvl msg, I db → I (logger lvl msg db);
  st_barycenters : ∀ db bs, I db → I (set_barycenters bs db)
}.

(** [keeps I m]: every defined run of [m] from a state with [I] ends in a
    state with [I]. *)
Definition keeps {A} (I : StarDatabase → Prop) (m : M A) : Prop :=
  ∀ db a db', I db → m db = Some (a, db') → I db'.

(** The catalog number that the [Replace] and [Modify] cases of [load]
    settle on for a block: its number token, or failing that the number
    that its first name resolves to. *)
Definition blockNumber (db : StarDatabase) (b : StcBlock) : option N :=
  let catalogNumber := default InvalidIndex (b_catalogNumber b) in
  let firstName := upToColon (default EmptyString (b_objName b)) in
  if bool_decide (catalogNumber = InvalidIndex) && negb (bool_decide (firstName = EmptyString))
  then findCatalogNumberByName db firstName false
  else Some catalogNumber.

(** The object type of the block is absent or one of the two known. *)
Definition knownObjectType (b : StcBlock) : Prop :=
  b_objectType b = None ∨ b_objectType b = Some "Star"%string
  ∨ b_objectType b = Some "Barycenter"%string.

(** The members of the database that no step of [createStar] writes. *)
Definition frameView (db : StarDatabase) :=
  (nStars db, stars db, catalogNumberIndex db, namesDB db, crossIndexes db, xheap db,
   binFileCatalogNumberIndex db, binFileStarCount db, stcFileCatalogNumberIndex db,
   nextAutoCatalogNumber db).

(** [db] differs from [db0] at most in the star behind [star], in the
    pending barycenters and in the log. *)
Definition preserved (star : StarPtr) (db0 db : StarDatabase) : Prop :=
  frameView db = frameView db0 ∧
  length (unsortedStars db) = length (unsortedStars db0) ∧
  match star with
  | InStore p =>
      (∀ q, q ≠ p → unsortedStars db !! q = unsortedStars db0 !! q) ∧
      heapStar db = heapStar db0
  | OnHeap => unsortedStars db = unsortedStars db0
  end.

(** The star behind [star] has catalog number [n]. *)
Definition hasIndex (star : StarPtr) (n : N) (db : StarDatabase) : Prop :=
  ∃ e, starAt star db = Some e ∧ getIndex e = n.

(** [f] leaves the catalog number of a star alone. *)
Definition keepsIndex (f : Star → Star) : Prop := ∀ s, getIndex (f s) = getIndex s.

(** The block is a barycenter. *)
Definition blockIsBarycenter (b : StcBlock) : bool :=
  bool_decide (b_objectType b = Some "Barycenter"%string).

(** [loadCategories] applied to a star. *)
Definition withCategories (starData : Hash) (disposition : DataDisposition)
    (resourcePath : string) (s : Star) : Star :=
  setCategories (loadCategories starData disposition resourcePath (s_categories s)) s.

(** What [loadBlock] does once the target of the block is settled on
    the catalog number [catalogNumber] and the star [found]. *)
Definition blockBody (resourcePath : string) (b : StcBlock) (starData : Hash)
    (disposition : DataDisposition) (catalogNumber : N) (found : option nat) : M bool :=
  let isNewStar := negb (bool_decide (is_Some found)) in
  _ ← (if isNewStar then modifyDB (set_heapStar newStar) else mret tt);
  let star := match found with Some p => InStore p | None => OnHeap end in
  ok ←
    (if isNewStar && is_Modify disposition then
       _ ← logM LWarn "Modify requested for nonexistent star.";
       mret false
     else
       ok ← createStar star disposition catalogNumber starData resourcePath
                       (blockIsBarycenter b);
       _ ← updateStar star (withCategories starData disposition resourcePath);
       mret ok);
  _ ← commitStar ok isNewStar catalogNumber (default EmptyString (b_objName b));
  mret true.

(** The names step of [commitStar] writes [namesDB] only. *)
Definition renamed (catalogNumber : N) (objName : string) (db : StarDatabase)
    : StarDatabase :=
  match namesDB db with
  | Some names =>
      if negb (bool_decide (objName = EmptyString)) then
        set_namesDB
          (Some (foldl (λ ndb starName, names_add catalogNumber starName ndb)
                       (names_erase catalogNumber names) (splitColon objName))) db
      else db
  | None => db
  end.

(** [updateStar] on a star that exists: the state afterwards. *)
Definition afterUpdate (star : StarPtr) (f : Star → Star) (db : StarDatabase)
    : StarDatabase :=
  match star with
  | InStore p => set_unsortedStars (alter f p (unsortedStars db)) db
  | OnHeap => set_heapStar (f (heapStar db)) db
  end.

(** The distance of a star from the origin, as [createStar] computes it. *)
Definition distanceOf (s : Star) : float := norm (s_position s).

(** [total P m Q]: from every state with [P] the run of [m] is defined,
    and its result and final state satisfy [Q]. *)
Definition total {A} (P : StarDatabase → Prop) (m : M A)
    (Q : A → StarDatabase → Prop) : Prop :=
  ∀ db, P db → ∃ a db', m db = Some (a, db') ∧ Q a db'.

(** [db] differs from [db0] at most in the star behind [star], which
    kept its catalog number, and in the log. *)
Definition framed (star : StarPtr) (db0 db : StarDatabase) : Prop :=
  preserved star db0 db ∧
  (∀ q, indexAt (unsortedStars db) q = indexAt (unsortedStars db0) q) ∧
  ∃ e, starAt star db = Some e.

(** ... and that star has star details. *)
Definition detailed (star : StarPtr) (db : StarDatabase) : Prop :=
  ∃ e d, starAt star db = Some e ∧ s_details e = Some d.

(** The invariant of [createStar] up to the orbit step: the frame of
    [db0], a star with details, and the pending pairs [bs]. *)
Definition J (star : StarPtr) (db0 : StarDatabase) (bs : list BarycenterUsage)
    (db : StarDatabase) : Prop :=
  framed star db0 db ∧ detailed star db ∧ barycenters db = bs.


(** The star exists, and has star details where the block modifies it. *)
Definition ready (star : StarPtr) (disposition : DataDisposition) (db : StarDatabase)
    : Prop :=
  ∃ e, starAt star db = Some e ∧
       (is_Modify disposition = true → is_Some (s_details e)).

End Vocabulary.

(** * Vocabulary of the further properties *)

Section Printed.
Import Strs CatalogNumbers.

(** The number that a run of decimal digits denotes after [acc]. *)
Fixpoint uint_value (d : Decimal.uint) (acc : N) : N :=
  match d with
  | Decimal.Nil => acc
  | Decimal.D0 l => uint_value l (10 * acc)
  | Decimal.D1 l => uint_value l (10 * acc + 1)
  | Decimal.D2 l => uint_value l (10 * acc + 2)
  | Decimal.D3 l => uint_value l (10 * acc + 3)
  | Decimal.D4 l => uint_value l (10 * acc + 4)
  | Decimal.D5 l => uint_value l (10 * acc + 5)
  | Decimal.D6 l => uint_value l (10 * acc + 6)
  | Decimal.D7 l => uint_value l (10 * acc + 7)
  | Decimal.D8 l => uint_value l (10 * acc + 8)
  | Decimal.D9 l => uint_value l (10 * acc + 9)
  end.

(** [s] does not start with a decimal digit. *)
Definition no_digit_ahead (s : string) : Prop :=
  match s with
  | EmptyString => True
  | String c _ => is_digit c = false
  end.

(** Every character of [s] is a space or a tab. *)
Fixpoint all_blank (s : string) : bool :=
  match s with
  | EmptyString => true
  | String c r => is_blank c && all_blank r
  end.

(** The ranges in which [parseTychoCatalogNumber] accepts the three
    numbers of a Tycho name. *)
Definition tychoPartsAccepted (p : N * N * N) : bool :=
  let '(tyc1, tyc2, tyc3) := p in
  (TYC123_MIN <=? tyc1) && (tyc1 <=? TYC1_MAX)
  && (TYC123_MIN <=? tyc2) && (tyc2 <=? TYC2_MAX)
  && (TYC123_MIN <=? tyc3)
  && ((tyc3 <=? TYC3_MAX)
      || ((tyc3 =? TDSC_TYC3_MAX) && (tyc1 <=? TDSC_TYC3_MAX_RANGE_TYC1))).

End Printed.

Section MoreVocabulary.
Context `{Env}.




(** The star that the loop body of [loadBinary] makes of the record at
    [ptr]; [None] for a spectral code without star details. *)
Definition starOfRecord (ptr : list byte) : option Star :=
  match unpackV1 (Bytes.le_uint 18 2 ptr) ≫= GetStarDetails with
  | Some details =>
      Some (setIndex (Bytes.le_uint 0 4 ptr)
              (setDetails (Some details)
                 (setAbsoluteMagnitude
                    (F32.div (F32.of_Z (Bytes.to_int16 (Bytes.le_uint 16 2 ptr))) (F32.of_Z 256))
                    (setPosition (Vec3f (F32.of_bits (Bytes.le_uint 4 4 ptr))
                                        (F32.of_bits (Bytes.le_uint 8 4 ptr))
                                        (F32.of_bits (Bytes.le_uint 12 4 ptr))) newStar))))
  | None => None
  end.

(** [db'] is [db] with the stars [l] appended, the counter advanced by
    their number, and messages logged. *)
Definition grown (db db' : StarDatabase) (l : list Star) : Prop :=
  ∃ lg, db' = set_log lg (set_nStars (nStars db + length l)
                            (set_unsortedStars (unsortedStars db ++ l) db)).

(** The stars [l] are those of the first records of [body], in order. *)
Definition decodedFrom (body : list byte) (l : list Star) : Prop :=
  ∀ i s, l !! i = Some s → starOfRecord (drop (StarsDatRecord_size * i) body) = Some s.

(** The index of the binary file seen as a finalized index: the search
    of [findWhileLoading] in it is the search of [find]. *)
Definition binaryView (db : StarDatabase) (arr : list nat) : StarDatabase :=
  set_stars (unsortedStars db)
    (set_catalogNumberIndex arr (set_nStars (binFileStarCount db) db)).

(** What a catalog entry holds apart from its barycenter links. *)
Definition entryData (s : Star)
    : N * Vector3f * float * float * option StarDetails * list string :=
  (s_index s, s_position s, s_absMag s, s_extinction s, s_details s, s_categories s).

(** [disposition == DataDisposition::Add] *)
Definition is_Add (d : DataDisposition) : bool :=
  match d with Add => true | _ => false end.

(** The header of a block is one that [load] goes on from: the object
    type is absent, [Star] or [Barycenter], a property list follows, and
    the block is not an [Add] of a barycenter without number and name. *)
Definition blockWellFormed (b : StcBlock) : bool :=
  let wf (isStar : bool) : bool :=
    match b_body b with
    | Group _ =>
        negb (is_Add (default Add (b_disposition b))
              && bool_decide (default InvalidIndex (b_catalogNumber b) = InvalidIndex)
              && negb isStar
              && bool_decide (upToColon (default EmptyString (b_objName b)) = EmptyString))
    | _ => false
    end in
  match b_objectType b with
  | None => wf true
  | Some tokenValue =>
      if bool_decide (tokenValue = "Star") then wf true
      else if bool_decide (tokenValue = "Barycenter") then wf false
      else false
  end.

(** The load-time store is well formed: the counter is the number of
    stars stored, and the two load-time indexes point to stored stars. *)
Definition storeOk (db : StarDatabase) : Prop :=
  nStars db = length (unsortedStars db) ∧
  (∀ n p, stcFileCatalogNumberIndex db !! n = Some p →
          (p < length (unsortedStars db))%nat) ∧
  (∀ arr p, binFileCatalogNumberIndex db = Some arr → p ∈ arr →
            (p < length (unsortedStars db))%nat).

(** Every stored star has star details. *)
Definition allDetailed (db : StarDatabase) : Prop :=
  ∀ s, s ∈ unsortedStars db → is_Some (s_details s).

(** Every cross-index table that a slot points to is alive, and no two
    slots point to the same table. *)
Definition crossAlive (db : StarDatabase) : Prop :=
  ∀ c p, crossIndexes db !! c = Some (Some p) →
    (∃ t, xheap db !! p = Some (XLive t)) ∧
    ∀ c', crossIndexes db !! c' = Some (Some p) → c' = c.

(** The state in which the merge of an [.stc] file is safe to run. *)
Definition loadSafe (db : StarDatabase) : Prop :=
  storeOk db ∧ allDetailed db ∧ crossAlive db.

(** ... and the star at work exists and has details, which are its own
    (not shared) when [custom] is set. *)
Definition working (star : StarPtr) (custom : bool) (db : StarDatabase) : Prop :=
  loadSafe db ∧
  ∃ e d, starAt star db = Some e ∧ s_details e = Some d ∧
         (custom = true → d_shared d = false).

(** The star at work exists, in a state that is safe. *)
Definition standing (star : StarPtr) (db : StarDatabase) : Prop :=
  loadSafe db ∧ ∃ e, starAt star db = Some e ∧ (star ≠ OnHeap → is_Some (s_details e)).

(** The star behind [star] exists and lies at [pos], and the pending
    barycenter pairs are [bs]. *)
Definition placed (star : StarPtr) (pos : Vector3f) (bs : list BarycenterUsage)
    (db : StarDatabase) : Prop :=
  (∃ e, starAt star db = Some e ∧ s_position e = pos) ∧ barycenters db = bs.

(** The invariant of [createStar] up to the orbit step, with the star
    stored at [q] lying at [pos]. *)
Definition Jat (star : StarPtr) (db0 : StarDatabase) (bs : list BarycenterUsage)
    (q : nat) (pos : Vector3f) (db : StarDatabase) : Prop :=
  J star db0 bs db ∧ ∃ b, unsortedStars db !! q = Some b ∧ s_position b = pos.

(** A block that gets an automatic catalog number: an [Add] without
    number (of a star, or of a barycenter with a name), or a [Replace]
    whose number, given or found by name, is the invalid one. *)
Definition takesAutoNumber (db : StarDatabase) (b : StcBlock) : Prop :=
  (default Add (b_disposition b) = Add ∧
   default InvalidIndex (b_catalogNumber b) = InvalidIndex ∧
   (blockIsBarycenter b = false ∨
    upToColon (default EmptyString (b_objName b)) ≠ EmptyString))
  ∨ (b_disposition b = Some Replace ∧ blockNumber db b = Some InvalidIndex).

(** The load-time store is well formed and the index of the [.stc]
    files is right: the star it has for a number has that number. *)
Definition numbered (db : StarDatabase) : Prop :=
  storeOk db ∧
  ∀ n p, stcFileCatalogNumberIndex db !! n = Some p → indexAt (unsortedStars db) p = n.

(** ... and the stars that [db0] holds are still there, each with the
    catalog number it has in [db0]. *)
Definition numbersKept (db0 db : StarDatabase) : Prop :=
  numbered db ∧
  ∀ q, (q < length (unsortedStars db0))%nat →
       (q < length (unsortedStars db))%nat ∧
       indexAt (unsortedStars db) q = indexAt (unsortedStars db0) q.

(** [f] leaves a star of number [n] with that number. *)
Definition keepsNumber (n : N) (f : Star → Star) : Prop :=
  ∀ s, getIndex s = n → getIndex (f s) = n.

End MoreVocabulary.

(** * The queries by name: [find], [getStarName], [getStarNameList] *)

Section NameQueries.
Import Strs CatalogNumbers.
Context `{Env}.
(** Three things that the name queries take from headers that are not
    among the sources: the names that the number index of the name
    database holds for a catalog number, in the order of the index
    ([getFirstNameIter] onwards, while the key is that number); the
    translation [D_] of a name; and [Star::MaxTychoCatalogNumber]. *)
Context (names_ofNumber : NameDB → N → list string)
        (localize : string → string)
        (MaxTychoCatalogNumber : N).

(** [StarDatabase::find(std::string_view, bool)]; [None] where
    [findCatalogNumberByName] has no defined result. *)
Definition findByName (db : StarDatabase) (name : string) (i18n : bool)
    : option (option nat) :=
  match findCatalogNumberByName db name i18n with
  | Some catalogNumber =>
      if bool_decide (catalogNumber ≠ InvalidIndex)
      then Some (find db catalogNumber) else Some None
  | None => None
  end.

(** [StarDatabase::getStarName] *)
Definition getStarName (db : StarDatabase) (star : Star) (i18n : bool) : string :=
  let catalogNumber := getIndex star in
  let byNumber := catalogNumberToString MAX_HIPPARCOS_NUMBER catalogNumber in
  match namesDB db with
  | Some names =>
      match names_ofNumber names catalogNumber with
      | name :: _ =>
          if i18n then
            let local := localize name in
            if bool_decide (name ≠ local) then local else name
          else name
      | [] => byNumber
      end
  | None => byNumber
  end.

(** The locals [starNames], [nameSet] and [isNameSetEmpty] of
    [getStarNameList]. *)
Record NameList := mkNameList {
  starNames : string;
  nameSet : gset string;
  isNameSetEmpty : bool
}.

(** The lambda [append] of [getStarNameList]. *)
Definition appendName (str : string) (acc : NameList) : NameList :=
  if bool_decide (str ∈ nameSet acc) then acc
  else
    mkNameList
      ((if isNameSetEmpty acc then starNames acc else starNames acc ++ " / ") ++ str)%string
      ({[ str ]} ∪ nameSet acc)
      false.

(** [nameSet.size() < maxNames] *)
Definition roomLeft (maxNames : N) (acc : NameList) : bool :=
  N.of_nat (size (nameSet acc)) <? maxNames.

(** The [while] loop of [getStarNameList] over the names of the star. *)
Fixpoint appendNamesOf (maxNames : N) (names : list string) (acc : NameList) : NameList :=
  match names with
  | [] => acc
  | name :: rest =>
      if roomLeft maxNames acc
      then appendNamesOf maxNames rest (appendName (localize name) acc)
      else acc
  end.

(** [StarDatabase::getStarNameList]; [None] where [crossIndex] reads a
    deleted table. *)
Definition getStarNameList (db : StarDatabase) (star : Star) (maxNames : N)
    : option string :=
  let catalogNumber := getIndex star in
  let acc := mkNameList EmptyString ∅ true in
  let acc :=
    match namesDB db with
    | Some names => appendNamesOf maxNames (names_ofNumber names catalogNumber) acc
    | None => acc
    end in
  let hip := catalogNumber in
  let acc :=
    if bool_decide (hip ≠ InvalidIndex) && bool_decide (hip ≠ 0) && roomLeft maxNames acc then
      if hip <=? MaxTychoCatalogNumber then
        if 1000000 <=? hip then appendName (fmt_tycho (tychoParts hip)) acc
        else appendName ("HIP " ++ fmt_uint hip)%string acc
      else acc
    else acc in
  match crossIndex db HenryDraper hip with
  | None => None
  | Some hd =>
      let acc :=
        if roomLeft maxNames acc && bool_decide (hd ≠ InvalidIndex)
        then appendName ("HD " ++ fmt_uint hd)%string acc else acc in
      match crossIndex db SAO hip with
      | None => None
      | Some sao =>
          let acc :=
            if roomLeft maxNames acc && bool_decide (sao ≠ InvalidIndex)
            then appendName ("SAO " ++ fmt_uint sao)%string acc else acc in
          Some (starNames acc)
      end
  end.

(** The names of [l] joined by [" / "], as [append] builds the string. *)
Definition joinNames (l : list string) : string :=
  match l with
  | [] => EmptyString
  | x :: r => fold_left (λ s y, ((s ++ " / ") ++ y)%string) r x
  end.

(** Where a name of the list of [star] comes from. *)
Definition nameOrigin (db : StarDatabase) (star : Star) (x : string) : Prop :=
  (∃ names name, namesDB db = Some names ∧
                 name ∈ names_ofNumber names (getIndex star) ∧ x = localize name)
  ∨ x = fmt_tycho (tychoParts (getIndex star))
  ∨ x = ("HIP " ++ fmt_uint (getIndex star))%string
  ∨ (∃ hd, crossIndex db HenryDraper (getIndex star) = Some hd ∧ hd ≠ InvalidIndex ∧
           x = ("HD " ++ fmt_uint hd)%string)
  ∨ (∃ sao, crossIndex db SAO (getIndex star) = Some sao ∧ sao ≠ InvalidIndex ∧
            x = ("SAO " ++ fmt_uint sao)%string).

(** The name database of [db] does not resolve [name]. *)
Definition unnamed (db : StarDatabase) (name : string) (i18n : bool) : Prop :=
  ∀ names, namesDB db = Some names →
           names_findCatalogNumberByName names name i18n = InvalidIndex.

(** What [getStarNameList] keeps true of its locals: the names appended
    so far are [l]. *)
Definition listed (db : StarDatabase) (star : Star) (maxNames : N) (l : list string)
    (acc : NameList) : Prop :=
  NoDup l ∧ N.of_nat (length l) ≤ maxNames ∧
  nameSet acc = list_to_set l ∧ starNames acc = joinNames l ∧
  isNameSetEmpty acc = bool_decide (l = []) ∧
  ∀ x, x ∈ l → nameOrigin db star x.

End NameQueries.

(** ** A concrete environment

    Values for the collaborators, used to run the model on examples.  The
    constants are those of the Celestia headers; the functions are simple
    stand-ins with the right types. *)

Module Sample.

Definition sampleDetails (spectral : string) : StarDetails :=
  mkDetails true spectral (F32.of_Z 5780) F32.zero 0 (EmptyString, EmptyString) 0
            (Vec3f (F32.of_Z 1) (F32.of_Z 1) (F32.of_Z 1)) (F32.of_Z 1) None None true
            EmptyString.

Definition sampleStar : Star :=
  mkStar UINT32_MAX (Vec3f F32.zero F32.zero F32.zero) (F32.of_Z 5) F32.zero None [] None [].

Definition sampleUnpack (st : N) : option string :=
  if N.shiftr st 12 <? 4 then Some "G2V"%string else None.

Definition sampleNames : Type := list (N * string).

Definition sampleFindName (names : sampleNames) (name : string) (_ : bool) : N :=
  match List.find (λ e, String.eqb (snd e) name) names with
  | Some e => fst e
  | None => UINT32_MAX
  end.

#[global] Instance sampleEnv : Env := {|
  InvalidIndex := UINT32_MAX;
  MAX_HIPPARCOS_NUMBER := 999999;
  firstAutoCatalogNumber := 4294967294;
  HenryDraper := 0;
  SAO := 2;
  MaxCatalog := 3;
  StellarClass := string;
  unpackV1 := sampleUnpack;
  parseStellarClass := λ s, s;
  GetStarDetails := λ sc, if String.eqb sc "?" then None else Some (sampleDetails sc);
  GetBarycenterDetails := sampleDetails "Bary";
  newStar := sampleStar;
  appToAbsMag := λ appMag _, appMag;
  equatorialToCelestialCart := λ ra dec distance, Vec3d distance F64.zero F64.zero;
  positionToEquatorial := λ pos, (F64.zero, F64.zero, vx pos);
  bolometricCorrectionOf := λ _, F32.zero;
  geometryHandle := λ _ _, 1;
  loadCategories := λ _ _ _ cats, cats;
  rebuildAndSort := λ l, l;
  NameDB := sampleNames;
  names_findCatalogNumberByName := sampleFindName;
  names_erase := λ n names, filter (λ e, fst e ≠ n) names;
  names_add := λ n name names, if String.eqb name "" then names else names ++ [(n, name)]
|}.

(** A star with catalog number [n] at [(x, 0, 0)]. *)
Definition starOnAxis (n : N) (x : Z) (mag : Z) : Star :=
  mkStar n (Vec3f (F32.of_Z x) F32.zero F32.zero) (F32.of_Z mag) F32.zero
         (Some (sampleDetails "G2V")) [] None [].

(** A database that holds [l] as loaded stars without a binary index. *)
Definition databaseOf (l : list Star) : StarDatabase :=
  set_nStars (length l) (set_unsortedStars l emptyDatabase).

(** A property list with nothing but what is given. *)
Definition hashOf (spectral : option string) (position : option Vector3f)
    (absMag appMag extinction : option float) : Hash :=
  mkHash spectral position None None None absMag appMag extinction None None None None
         None None None None None None.

(** The header of a binary star file announcing [count] records. *)
Definition starsHeader (count : byte) : list byte :=
  Bytes.of_ascii_string STARSDAT_MAGIC ++ [x00; x01; count; x00; x00; x00].

(** A binary record: catalog number [n] (one byte), position zero,
    magnitude [mag] (in whole magnitudes), spectral code with high byte
    [sp]. *)
Definition starRecord (n mag sp : byte) : list byte :=
  [n; x00; x00; x00] ++ replicate 12 x00 ++ [x00; mag] ++ [x00; sp].

(** A cross-index record: foreign number [hd], Celestia number [cel]. *)
Definition crossRecord (hd cel : byte) : list byte :=
  [hd; x00; x00; x00; cel; x00; x00; x00].

(** A block with a catalog number and no name. *)
Definition blockOf (disposition : option DataDisposition) (n : N) (starData : Hash)
    : StcBlock :=
  mkBlock disposition None (Some n) None (Group starData).

(** A property list that adds an orbit around barycenter number [bary]. *)
Definition orbitingHash (bary : N) : Hash :=
  mkHash (Some "G2V"%string) None None None None (Some (F32.of_Z 5)) None None None None
         (Some 1) None None None None None None (Some (inr bary)).

Definition crossHeader : list byte :=
  Bytes.of_ascii_string CROSSINDEX_MAGIC ++ [x00; x01].

(** A database in which the cross index of Henry Draper numbers holds
    one entry. *)
Definition withCrossIndex : StarDatabase :=
  match loadCrossIndex HenryDraper (stream_of (crossHeader ++ crossRecord x07 x05))
                       emptyDatabase with
  | Some (_, _, db) => db
  | None => emptyDatabase
  end.


(** The database after [loadBinary] on a file of two stars, numbered 5
    and 9. *)
Definition twoStarFile : list byte :=
  starsHeader x02 ++ starRecord x05 x01 x00 ++ starRecord x09 x02 x00.

Definition loadedBinary : StarDatabase :=
  match loadBinary (stream_of twoStarFile) emptyDatabase with
  | Some (_, _, db) => db
  | None => emptyDatabase
  end.

(** A file of two records with the same catalog number 5 and different
    magnitudes. *)
Definition duplicateFile : list byte :=
  starsHeader x02 ++ starRecord x05 x01 x00 ++ starRecord x05 x02 x00.

(** The database that [finish] without assertions leaves. *)
Definition finished (db : StarDatabase) : StarDatabase :=
  match finish false db with
  | Some db' => db'
  | None => db
  end.

(** A star at [(3, 0, 0)] of absolute magnitude 2. *)
Definition plainHash : Hash :=
  hashOf (Some "K0"%string) (Some (Vec3f (F32.of_Z 3) F32.zero F32.zero))
         (Some (F32.of_Z 2)) None None.

(** Nothing but an extinction of one magnitude. *)
Definition extinctionHash : Hash := hashOf None None None None (Some (F32.of_Z 1)).

End Sample.

(** Further examples. *)
Module Cases.
Import Sample.

(** A cross-index file with the one record that gives Henry Draper
    number 7 to the star 5. *)
Definition crossFile : list byte := crossHeader ++ crossRecord x07 x05.

(** The stream and the database that [loadCrossIndex] leaves when it
    reads [crossFile] for the Henry Draper catalog. *)
Definition afterCrossLoad (db : StarDatabase) : istream * StarDatabase :=
  match loadCrossIndex HenryDraper (stream_of crossFile) db with
  | Some (_, in', db') => (in', db')
  | None => (stream_of [], db)
  end.

(** The stream that [loadBinary] leaves behind on [twoStarFile]. *)
Definition afterBinaryLoad : istream :=
  match loadBinary (stream_of twoStarFile) emptyDatabase with
  | Some (_, in', _) => in'
  | None => stream_of []
  end.

(** The names of a number in the sample name database. *)
Definition sampleNamesOf (names : sampleNames) (n : N) : list string :=
  snd <$> filter (λ e, fst e = n) names.

(** A spectral type and a position, but no magnitude. *)
Definition noMagnitudeHash : Hash :=
  hashOf (Some "K0"%string) (Some (Vec3f (F32.of_Z 3) F32.zero F32.zero)) None None None.

(** A star block with a name and no catalog number. *)
Definition namedBlock (name : string) (starData : Hash) : StcBlock :=
  mkBlock None None None (Some name) (Group starData).

(** The stars of [twoStarFile] with the Henry Draper table of
    [crossFile]. *)
Definition crossedBinary : StarDatabase := (afterCrossLoad loadedBinary).2.

End Cases.

(** * Properties *)

(** ** Binary search *)

Section LowerBound.
Context {A : Type} (key : A → N) (arr : list A) (v : N).

Lemma lower_bound_loop_spec (n : nat) :
  (n ≤ length arr)%nat → ordered key arr n →
  ∀ fuel first count,
    (count ≤ fuel)%nat → (first + count ≤ n)%nat →
    (∀ i x, (i < first)%nat → arr !! i = Some x → key x < v) →
    (∀ i x, (first + count ≤ i)%nat → (i < n)%nat → arr !! i = Some x → v ≤ key x) →
    let r := lower_bound_loop key arr v fuel first count in
    (first ≤ r)%nat ∧ (r ≤ first + count)%nat ∧
    (∀ i x, (i < r)%nat → arr !! i = Some x → key x < v) ∧
    (∀ i x, (r ≤ i)%nat → (i < n)%nat → arr !! i = Some x → v ≤ key x).
Proof.
  intros Hlen Hord fuel.
  induction fuel as [|fuel IH]; intros first count Hfuel Hrange Hlow Hhigh;
    cbn [lower_bound_loop]; cbv zeta.
  - assert (count = 0)%nat as -> by lia.
    repeat split; try lia; [exact Hlow |].
    intros i x Hi Hin Hx. apply (Hhigh i x); [lia | exact Hin | exact Hx].
  - case_bool_decide as Hc.
    + subst count. repeat split; try lia; [exact Hlow |].
      intros i x Hi Hin Hx. apply (Hhigh i x); [lia | exact Hin | exact Hx].
    + pose proof (Nat.div_lt count 2 ltac:(lia) ltac:(lia)) as Hstep.
      cbv zeta.
      destruct (lookup_lt_is_Some_2 arr (first + count / 2)) as [m Hm]; [lia|].
      rewrite Hm.
      destruct (N.ltb_spec (key m) v) as [Hlt|Hge].
      * destruct (IH (first + count / 2 + 1)%nat (count - (count / 2 + 1))%nat)
          as (H1 & H2 & H3 & H4); [lia | lia | | | ].
        -- intros i x Hi Hx.
           assert (key x ≤ key m)
             by (apply (Hord i (first + count / 2)%nat x m); [lia | lia | exact Hx | exact Hm]).
           lia.
        -- intros i x Hi Hin Hx. apply (Hhigh i x); [lia | exact Hin | exact Hx].
        -- repeat split; try lia; assumption.
      * destruct (IH first (count / 2)%nat) as (H1 & H2 & H3 & H4);
          [lia | lia | exact Hlow | | ].
        -- intros i x Hi Hin Hx.
           assert (key m ≤ key x)
             by (apply (Hord (first + count / 2)%nat i m x); [lia | lia | exact Hm | exact Hx]).
           lia.
        -- repeat split; try lia; assumption.
Qed.

(** [lower_bound] returns the first offset whose key is not below [v]. *)
Lemma lower_bound_spec (n : nat) :
  (n ≤ length arr)%nat → ordered key arr n →
  let r := lower_bound key arr n v in
  (r ≤ n)%nat ∧
  (∀ i x, (i < r)%nat → arr !! i = Some x → key x < v) ∧
  (∀ i x, (r ≤ i)%nat → (i < n)%nat → arr !! i = Some x → v ≤ key x).
Proof.
  intros Hlen Hord. unfold lower_bound.
  assert (∀ i x, (i < 0)%nat → arr !! i = Some x → key x < v) as Hlow
    by (intros i x Hi; lia).
  assert (∀ i x, (0 + n ≤ i)%nat → (i < n)%nat → arr !! i = Some x → v ≤ key x) as Hhigh
    by (intros i x Hi Hin; lia).
  destruct (lower_bound_loop_spec n Hlen Hord n 0%nat n (le_n n) (le_n n) Hlow Hhigh)
    as (_ & H2 & H3 & H4).
  repeat split; assumption.
Qed.

End LowerBound.

(** ** The catalog-number index after [finish] *)

Section Finish.
Context `{Env}.

#[local] Instance byIndex_refl mem : Reflexive (byIndex mem).
Proof. intros p. unfold byIndex. lia. Qed.

#[local] Instance byIndex_trans mem : Transitive (byIndex mem).
Proof. intros p q r. unfold byIndex. lia. Qed.

#[local] Instance byIndex_total mem : Total (byIndex mem).
Proof. intros p q. unfold byIndex. lia. Qed.

Lemma StronglySorted_lookup_le {A} (R : relation A) `{!Reflexive R} (l : list A) :
  StronglySorted R l →
  ∀ i j x y, (i ≤ j)%nat → l !! i = Some x → l !! j = Some y → R x y.
Proof.
  induction 1 as [|a l Hl IH Ha]; intros i j x y Hij Hx Hy.
  - rewrite lookup_nil in Hx. discriminate.
  - destruct i as [|i], j as [|j]; simpl in *; try lia.
    + injection Hx as <-. injection Hy as <-. reflexivity.
    + injection Hx as <-. rewrite Forall_forall in Ha. apply Ha.
      eapply list_elem_of_lookup_2. exact Hy.
    + apply (IH i j); [lia | exact Hx | exact Hy].
Qed.

Lemma indexed_ordered db :
  indexed db → ordered (indexAt (stars db)) (catalogNumberIndex db) (nStars db).
Proof.
  intros (_ & _ & Hord) i j x y Hij _ Hx Hy. exact (Hord i j x y Hij Hx Hy).
Qed.

Lemma indexed_length db : indexed db → length (catalogNumberIndex db) = nStars db.
Proof.
  intros (_ & Hperm & _). rewrite (Permutation_length Hperm). apply length_seq.
Qed.

Lemma indexed_position db p :
  indexed db → p ∈ catalogNumberIndex db ↔ (p < nStars db)%nat.
Proof.
  intros (_ & Hperm & _). rewrite Hperm, elem_of_seq. lia.
Qed.

Lemma indexAt_lookup mem p e : mem !! p = Some e → indexAt mem p = getIndex e.
Proof. unfold indexAt. intros ->. reflexivity. Qed.

(** What [find] returns is a star of the number asked for. *)
Lemma find_Some db n p :
  indexed db → find db n = Some p →
  ∃ e, stars db !! p = Some e ∧ getIndex e = n.
Proof.
  intros Hidx. unfold find.
  destruct (catalogNumberIndex db !! _) as [q|] eqn:Hq; [|discriminate].
  destruct (bool_decide _ && _) eqn:Hc; [|discriminate].
  intros [= <-]. apply andb_true_iff in Hc as [_ Hkey]. apply N.eqb_eq in Hkey.
  assert (q < nStars db)%nat as Hlt.
  { apply (indexed_position db q Hidx). eapply list_elem_of_lookup_2. exact Hq. }
  destruct Hidx as (Hlen & _).
  destruct (lookup_lt_is_Some_2 (stars db) q) as [e He]; [lia|].
  exists e. split; [exact He|]. rewrite <- (indexAt_lookup _ _ _ He). exact Hkey.
Qed.

(** [find] answers [nullptr] only for a number that no star has. *)
Lemma find_None db n :
  indexed db → find db n = None → ∀ e, e ∈ stars db → getIndex e ≠ n.
Proof.
  intros Hidx Hfind e He Hn.
  apply list_elem_of_lookup_1 in He as [p Hp].
  pose proof (lookup_lt_Some _ _ _ Hp) as Hplt.
  pose proof (indexed_length db Hidx) as Hilen.
  pose proof Hidx as (Hlen & _ & Hord).
  assert (p ∈ catalogNumberIndex db) as Hin by (apply (indexed_position db p Hidx); lia).
  apply list_elem_of_lookup_1 in Hin as [i Hi].
  pose proof (lookup_lt_Some _ _ _ Hi) as Hilt.
  destruct (lower_bound_spec (indexAt (stars db)) (catalogNumberIndex db) n (nStars db))
    as (Hr & Hlow & Hhigh); [lia | apply indexed_ordered; exact Hidx |].
  unfold find in Hfind.
  set (r := lower_bound _ _ _ _) in *.
  assert (indexAt (stars db) p = n) as Hkey by (rewrite (indexAt_lookup _ _ _ Hp); exact Hn).
  destruct (decide (i < r)%nat) as [Hir|Hir].
  - specialize (Hlow i p Hir Hi). lia.
  - assert (r < nStars db)%nat as Hrlt by lia.
    destruct (lookup_lt_is_Some_2 (catalogNumberIndex db) r) as [q Hq]; [lia|].
    rewrite Hq in Hfind.
    assert (indexAt (stars db) q = n) as Hqn.
    { pose proof (Hhigh r q (le_n r) Hrlt Hq).
      pose proof (Hord r i q p ltac:(lia) Hq Hi). lia. }
    rewrite bool_decide_eq_true_2 in Hfind by lia.
    rewrite (proj2 (N.eqb_eq _ _) Hqn) in Hfind. discriminate.
Qed.

(** With pairwise distinct numbers the index is strictly increasing. *)
Lemma indexed_strict db :
  indexed db → NoDup (getIndex <$> stars db) →
  ∀ i j p q, (i < j)%nat →
    catalogNumberIndex db !! i = Some p → catalogNumberIndex db !! j = Some q →
    indexAt (stars db) p < indexAt (stars db) q.
Proof.
  intros Hidx Hnd i j p q Hij Hp Hq.
  pose proof Hidx as (Hlen & Hperm & Hord).
  pose proof (Hord i j p q ltac:(lia) Hp Hq) as Hle.
  destruct (decide (indexAt (stars db) p = indexAt (stars db) q)) as [Heq|]; [|lia].
  exfalso.
  assert (p < nStars db)%nat as Hplt
    by (apply (indexed_position db p Hidx); eapply list_elem_of_lookup_2; exact Hp).
  assert (q < nStars db)%nat as Hqlt
    by (apply (indexed_position db q Hidx); eapply list_elem_of_lookup_2; exact Hq).
  destruct (lookup_lt_is_Some_2 (stars db) p) as [e He]; [lia|].
  destruct (lookup_lt_is_Some_2 (stars db) q) as [e' He']; [lia|].
  rewrite (indexAt_lookup _ _ _ He), (indexAt_lookup _ _ _ He') in Heq.
  assert (p = q) as ->.
  { apply (NoDup_lookup _ p q (getIndex e) Hnd); rewrite list_lookup_fmap.
    - rewrite He. reflexivity.
    - rewrite He', Heq. reflexivity. }
  assert (NoDup (catalogNumberIndex db)) as Hndi by (rewrite Hperm; apply NoDup_seq).
  pose proof (NoDup_lookup _ i j q Hndi Hp Hq). lia.
Qed.

(** With pairwise distinct numbers [find] returns the very star. *)
Lemma find_exact db p e :
  indexed db → NoDup (getIndex <$> stars db) →
  stars db !! p = Some e → find db (getIndex e) = Some p.
Proof.
  intros Hidx Hnd Hp.
  destruct (find db (getIndex e)) as [q|] eqn:Hfind.
  - destruct (find_Some db _ q Hidx Hfind) as (e' & He' & Heq).
    f_equal. apply (NoDup_lookup _ q p (getIndex e) Hnd); rewrite list_lookup_fmap.
    + rewrite He'. simpl. rewrite Heq. reflexivity.
    + rewrite Hp. reflexivity.
  - exfalso. apply (find_None db _ Hidx Hfind e); [|reflexivity].
    eapply list_elem_of_lookup_2. exact Hp.
Qed.

(** [buildIndexes] establishes the index over an array of [nStars]. *)
Lemma buildIndexes_indexed db :
  length (stars db) = nStars db → indexed (buildIndexes db).
Proof.
  intros Hlen. unfold indexed, buildIndexes, sortByIndex. simpl.
  split; [exact Hlen|]. split.
  - apply merge_sort_Permutation.
  - apply (StronglySorted_lookup_le (byIndex (stars db))).
    apply StronglySorted_merge_sort; apply _.
Qed.

Lemma buildOctree_length db : length (stars (buildOctree db)) = nStars (buildOctree db).
Proof.
  unfold buildOctree. simpl. rewrite length_take, length_app, length_replicate. lia.
Qed.

Lemma indexAt_linkBarycenter i j mem p :
  indexAt (linkBarycenter i j mem) p = indexAt mem p.
Proof.
  unfold indexAt, linkBarycenter. rewrite !list_lookup_alter.
  repeat case_decide; subst; destruct (mem !! p); reflexivity.
Qed.

(** Linking barycenters changes no catalog number, hence keeps the index. *)
Lemma resolveBarycenters_indexed assertions bs :
  ∀ db db', indexed db → resolveBarycenters assertions bs db = Some db' → indexed db'.
Proof.
  induction bs as [|b bs IH]; intros db db' Hidx; simpl.
  - intros [= <-]. exact Hidx.
  - destruct (assertions && _); [discriminate|].
    destruct (find db (bu_catNo b)) as [i|]; [|apply IH; exact Hidx].
    destruct (find db (bu_barycenterCatNo b)) as [j|]; [|apply IH; exact Hidx].
    apply IH. destruct Hidx as (Hlen & Hperm & Hord).
    unfold indexed; simpl. split; [|split].
    + unfold linkBarycenter. rewrite !length_alter. exact Hlen.
    + exact Hperm.
    + intros i' j' p q Hij Hp Hq. rewrite !indexAt_linkBarycenter. eauto.
Qed.

(** [indexed] reads three members of the database only. *)
Lemma indexed_frame db1 db2 :
  stars db2 = stars db1 → nStars db2 = nStars db1 →
  catalogNumberIndex db2 = catalogNumberIndex db1 →
  indexed db1 → indexed db2.
Proof. unfold indexed. intros -> -> ->. auto. Qed.

(** The database on which [finish] starts to resolve barycenters. *)
Lemma finish_indexed_before db :
  indexed (set_stcFileCatalogNumberIndex ∅
             (set_binFileIndex None
                (binFileStarCount (buildIndexes (buildOctree (logger LInfo "Total star count: {}" db))))
                (buildIndexes (buildOctree (logger LInfo "Total star count: {}" db))))).
Proof.
  generalize (logger LInfo "Total star count: {}" db). intros db1.
  pose proof (buildIndexes_indexed (buildOctree db1) (buildOctree_length db1)) as Hidx.
  revert Hidx. generalize (buildIndexes (buildOctree db1)). intros db2.
  apply indexed_frame; reflexivity.
Qed.

Lemma finish_indexed assertions db db' :
  finish assertions db = Some db' → indexed db'.
Proof.
  unfold finish. destruct (resolveBarycenters _ _ _) as [db4|] eqn:Hres; [|discriminate].
  intros [= <-].
  apply resolveBarycenters_indexed in Hres; [|apply finish_indexed_before].
  revert Hres. apply indexed_frame; reflexivity.
Qed.

(** C1 (amended).  After [finish], the catalog-number index lists every
    position of the finalized array once, in non-decreasing order of
    catalog number; [find] returns only a star of the number asked for,
    and returns null exactly for numbers that no finalized star has; when
    the numbers of the finalized stars are pairwise distinct, the index
    is strictly increasing and [find (number e)] is the position of [e]
    itself. *)
Theorem find_after_finish (assertions : bool) (db db' : StarDatabase) :
  finish assertions db = Some db' →
  catalogNumberIndex db' ≡ₚ seq 0 (length (stars db')) ∧
  (∀ i j p q, (i ≤ j)%nat →
     catalogNumberIndex db' !! i = Some p → catalogNumberIndex db' !! j = Some q →
     indexAt (stars db') p ≤ indexAt (stars db') q) ∧
  (∀ n p, find db' n = Some p → ∃ e, stars db' !! p = Some e ∧ getIndex e = n) ∧
  (∀ n, find db' n = None ↔ ∀ e, e ∈ stars db' → getIndex e ≠ n) ∧
  (NoDup (getIndex <$> stars db') →
     (∀ p e, stars db' !! p = Some e → find db' (getIndex e) = Some p) ∧
     (∀ i j p q, (i < j)%nat →
        catalogNumberIndex db' !! i = Some p → catalogNumberIndex db' !! j = Some q →
        indexAt (stars db') p < indexAt (stars db') q)).
Proof.
  intros Hfin. pose proof (finish_indexed _ _ _ Hfin) as Hidx.
  pose proof Hidx as (Hlen & Hperm & Hord).
  split; [rewrite Hlen; exact Hperm|].
  split; [exact Hord|].
  split; [intros n p; apply find_Some; exact Hidx|].
  split.
  - intros n. split.
    + apply find_None. exact Hidx.
    + intros Hnone. destruct (find db' n) as [p|] eqn:Hfind; [|reflexivity].
      destruct (find_Some db' n p Hidx Hfind) as (e & He & Hn).
      exfalso. apply (Hnone e); [|exact Hn]. eapply list_elem_of_lookup_2. exact He.
  - intros Hnd. split.
    + intros p e. apply find_exact; assumption.
    + apply indexed_strict; assumption.
Qed.

(** *** Barycenter links *)

Lemma lower_bound_loop_ext {A} (key key' : A → N) (arr : list A) (v : N) :
  (∀ x, key x = key' x) →
  ∀ fuel first count,
    lower_bound_loop key arr v fuel first count
    = lower_bound_loop key' arr v fuel first count.
Proof.
  intros Hkey. induction fuel as [|fuel IH]; intros first count;
    cbn [lower_bound_loop]; [reflexivity|].
  case_bool_decide; [reflexivity|]. cbv zeta.
  destruct (arr !! _) as [x|]; [rewrite Hkey|]; rewrite !IH; reflexivity.
Qed.

(** [find] reads the stars only for their catalog numbers. *)
Lemma find_ext db1 db2 n :
  nStars db1 = nStars db2 →
  catalogNumberIndex db1 = catalogNumberIndex db2 →
  (∀ p, indexAt (stars db1) p = indexAt (stars db2) p) →
  find db1 n = find db2 n.
Proof.
  intros Hn Hi Hk. unfold find, lower_bound. rewrite Hn, Hi.
  rewrite (lower_bound_loop_ext _ _ _ _ Hk).
  destruct (catalogNumberIndex db2 !! _) as [p|]; [|reflexivity].
  rewrite Hk. reflexivity.
Qed.

Lemma find_set_stars_link db i j n :
  find (set_stars (linkBarycenter i j (stars db)) db) n = find db n.
Proof.
  apply find_ext; [reflexivity | reflexivity |].
  intros p. simpl. apply indexAt_linkBarycenter.
Qed.

Lemma linkAll_ext F G bs mem :
  (∀ n, F n = G n) → linkAll F bs mem = linkAll G bs mem.
Proof.
  intros HFG. revert mem. induction bs as [|b bs IH]; intros mem; [reflexivity|].
  unfold linkAll in *. simpl. unfold linkStep at 2 4. rewrite !HFG. apply IH.
Qed.

Lemma resolveBarycenters_release bs :
  ∀ db, resolveBarycenters false bs db
        = Some (set_stars (linkAll (find db) bs (stars db)) db).
Proof.
  induction bs as [|b bs IH]; intros db.
  - simpl. destruct db; reflexivity.
  - cbn [resolveBarycenters]. rewrite andb_false_l.
    unfold linkAll. cbn [foldl]. unfold linkStep at 2.
    destruct (find db (bu_catNo b)) as [i|]; [|apply IH].
    destruct (find db (bu_barycenterCatNo b)) as [j|]; [|apply IH].
    rewrite IH. unfold set_stars. simpl. do 2 f_equal.
    apply linkAll_ext. intros n. apply (find_set_stars_link db i j n).
Qed.

Lemma lookup_linkBarycenter i j mem p :
  linkBarycenter i j mem !! p
  = (if decide (j = p) then addOrbitingStar i else id)
      <$> ((if decide (i = p) then setOrbitBarycenter j else id) <$> mem !! p).
Proof.
  unfold linkBarycenter. rewrite !list_lookup_alter.
  repeat case_decide; subst; try congruence; destruct (mem !! p); reflexivity.
Qed.

Lemma length_linkStep F mem b : length (linkStep F mem b) = length mem.
Proof.
  unfold linkStep. destruct (F _); [|reflexivity]. destruct (F _); [|reflexivity].
  unfold linkBarycenter. rewrite !length_alter. reflexivity.
Qed.

Lemma length_linkAll F bs mem : length (linkAll F bs mem) = length mem.
Proof.
  revert mem. induction bs as [|b bs IH]; intros mem; [reflexivity|].
  unfold linkAll in *. simpl. rewrite IH. apply length_linkStep.
Qed.

Lemma linkAll_snoc F bs b mem :
  linkAll F (bs ++ [b]) mem = linkStep F (linkAll F bs mem) b.
Proof. unfold linkAll. rewrite foldl_app. reflexivity. Qed.

(** One link seen from a position [p] of the array. *)
Lemma link_lookup i j mem p s :
  mem !! p = Some s →
  ∃ s', linkBarycenter i j mem !! p = Some s' ∧
    (∀ o, o ∈ s_orbitingStars s → o ∈ s_orbitingStars s') ∧
    (p = j → i ∈ s_orbitingStars s') ∧
    s_orbitBarycenter s' = (if decide (i = p) then Some j else s_orbitBarycenter s).
Proof.
  intros Hs. rewrite lookup_linkBarycenter, Hs. simpl.
  eexists. split; [reflexivity|].
  destruct (decide (j = p)) as [->|Hj], (decide (i = p)) as [->|Hi]; destruct s; simpl;
    (split; [intros o Ho; try (apply elem_of_app; left); exact Ho|]);
    (split; [intros Hp; try congruence; apply elem_of_app; right;
             apply list_elem_of_singleton; reflexivity | reflexivity]).
Qed.

Section Links.
Context (F : N → option nat) (mem0 : list Star).
Hypothesis F_valid : ∀ n p, F n = Some p → (p < length mem0)%nat.

(** A pair whose numbers both resolve links the two stars. *)
Lemma linkAll_resolved bs b i j :
  b ∈ bs → F (bu_catNo b) = Some i → F (bu_barycenterCatNo b) = Some j →
  ∃ ei ej, linkAll F bs mem0 !! i = Some ei ∧ linkAll F bs mem0 !! j = Some ej ∧
    i ∈ s_orbitingStars ej ∧
    ∃ b', b' ∈ bs ∧ F (bu_catNo b') = Some i ∧
          F (bu_barycenterCatNo b') = s_orbitBarycenter ei.
Proof.
  induction bs as [|c bs IH] using rev_ind; intros Hb Hi Hj.
  - apply elem_of_nil in Hb. destruct Hb.
  - rewrite linkAll_snoc.
    pose proof (length_linkAll F bs mem0) as Hlen.
    pose proof (F_valid _ _ Hi) as Hilt. pose proof (F_valid _ _ Hj) as Hjlt.
    destruct (lookup_lt_is_Some_2 (linkAll F bs mem0) i) as [si Hsi]; [lia|].
    destruct (lookup_lt_is_Some_2 (linkAll F bs mem0) j) as [sj Hsj]; [lia|].
    assert (b ∈ bs ∨ b = c) as Hcase.
    { apply elem_of_app in Hb as [Hb|Hb]; [left; exact Hb|].
      right. apply list_elem_of_singleton in Hb. exact Hb. }
    assert (∀ b', b' ∈ bs → b' ∈ bs ++ [c]) as Hweak
      by (intros b' Hb'; apply elem_of_app; left; exact Hb').
    assert (c ∈ bs ++ [c]) as Hlast
      by (apply elem_of_app; right; apply list_elem_of_singleton; reflexivity).
    unfold linkStep.
    destruct (F (bu_catNo c)) as [ic|] eqn:Hic;
      [destruct (F (bu_barycenterCatNo c)) as [jc|] eqn:Hjc|].
    + destruct (link_lookup ic jc _ i si Hsi) as (si' & Hsi' & _ & _ & Hbi).
      destruct (link_lookup ic jc _ j sj Hsj) as (sj' & Hsj' & Hmono & Hnew & _).
      exists si', sj'. split; [exact Hsi'|]. split; [exact Hsj'|].
      destruct Hcase as [Hold|Heq]; [|subst c].
      * destruct (IH Hold Hi Hj) as (ei & ej & Hei & Hej & Hin & b' & Hb' & Hci & Hcj).
        rewrite Hsi in Hei. rewrite Hsj in Hej. injection Hei as <-. injection Hej as <-.
        split; [apply Hmono; exact Hin|].
        rewrite Hbi. destruct (decide (ic = i)) as [->|Hne].
        -- exists c. auto.
        -- exists b'. auto.
      * rewrite Hi in Hic. rewrite Hj in Hjc. injection Hic as <-. injection Hjc as <-.
        split; [apply Hnew; reflexivity|].
        rewrite Hbi. rewrite decide_True by reflexivity. exists b. auto.
    + destruct Hcase as [Hold|Heq]; [|subst c; congruence].
      destruct (IH Hold Hi Hj) as (ei & ej & Hei & Hej & Hin & b' & Hb' & Hci & Hcj).
      exists ei, ej. repeat split; try assumption. exists b'. auto.
    + destruct Hcase as [Hold|Heq]; [|subst c; congruence].
      destruct (IH Hold Hi Hj) as (ei & ej & Hei & Hej & Hin & b' & Hb' & Hci & Hcj).
      exists ei, ej. repeat split; try assumption. exists b'. auto.
Qed.

(** A star that is the orbiting member of no resolving pair keeps the
    barycenter link it had. *)
Lemma linkAll_unresolved bs i :
  (∀ b, b ∈ bs → F (bu_catNo b) = Some i → F (bu_barycenterCatNo b) = None) →
  s_orbitBarycenter <$> linkAll F bs mem0 !! i = s_orbitBarycenter <$> mem0 !! i.
Proof.
  induction bs as [|c bs IH] using rev_ind; intros Hun; [reflexivity|].
  rewrite linkAll_snoc. rewrite <- IH.
  - unfold linkStep.
    destruct (F (bu_catNo c)) as [ic|] eqn:Hic; [|reflexivity].
    destruct (F (bu_barycenterCatNo c)) as [jc|] eqn:Hjc; [|reflexivity].
    assert (ic ≠ i) as Hne.
    { intros ->. specialize (Hun c). rewrite Hic, Hjc in Hun.
      discriminate Hun; [apply elem_of_app; right; apply list_elem_of_singleton|]; reflexivity. }
    destruct (linkAll F bs mem0 !! i) as [si|] eqn:Hsi.
    + destruct (link_lookup ic jc _ i si Hsi) as (si' & Hsi' & _ & _ & Hbi).
      rewrite Hsi'. simpl. rewrite Hbi, decide_False by exact Hne. reflexivity.
    + rewrite lookup_linkBarycenter, Hsi. reflexivity.
  - intros b Hb. apply Hun. apply elem_of_app. left. exact Hb.
Qed.

End Links.

(** With assertions compiled in, [finish] stops at the first pair that
    does not resolve. *)
Lemma resolveBarycenters_assert bs :
  ∀ db, (∃ b, b ∈ bs ∧ (find db (bu_catNo b) = None ∨ find db (bu_barycenterCatNo b) = None))
        → resolveBarycenters true bs db = None.
Proof.
  induction bs as [|c bs IH]; intros db (b & Hb & Hnone).
  - apply elem_of_nil in Hb. destruct Hb.
  - cbn [resolveBarycenters]. rewrite andb_true_l.
    destruct (find db (bu_catNo c)) as [i|] eqn:Hi;
      [destruct (find db (bu_barycenterCatNo c)) as [j|] eqn:Hj|].
    + rewrite !bool_decide_eq_true_2 by eauto. simpl.
      apply IH. apply elem_of_cons in Hb as [->|Hb].
      * destruct Hnone; congruence.
      * exists b. split; [exact Hb|]. rewrite !find_set_stars_link. exact Hnone.
    + rewrite (bool_decide_eq_false_2 (is_Some None)) by (intros [? ?]; discriminate).
      rewrite andb_false_r. reflexivity.
    + rewrite (bool_decide_eq_false_2 (is_Some None)) by (intros [? ?]; discriminate).
      reflexivity.
Qed.

(** What the loop of [finish] without assertions leaves, stated on the
    database [db3] on which it starts. *)
Lemma release_links db3 :
  indexed db3 →
  let db' := set_barycenters [] (set_stars (linkAll (find db3) (barycenters db3) (stars db3)) db3) in
  (∀ b i j, b ∈ barycenters db3 →
     find db' (bu_catNo b) = Some i → find db' (bu_barycenterCatNo b) = Some j →
     ∃ ei ej, stars db' !! i = Some ei ∧ stars db' !! j = Some ej ∧
       i ∈ s_orbitingStars ej ∧
       ∃ b', b' ∈ barycenters db3 ∧ find db' (bu_catNo b') = Some i ∧
             find db' (bu_barycenterCatNo b') = s_orbitBarycenter ei) ∧
  (∀ i, (∀ b, b ∈ barycenters db3 → find db' (bu_catNo b) = Some i →
              find db' (bu_barycenterCatNo b) = None) →
     s_orbitBarycenter <$> stars db' !! i = s_orbitBarycenter <$> stars db3 !! i) ∧
  ((∃ b, b ∈ barycenters db3 ∧
         (find db' (bu_catNo b) = None ∨ find db' (bu_barycenterCatNo b) = None)) →
   resolveBarycenters true (barycenters db3) db3 = None).
Proof.
  intros Hidx db'.
  assert (∀ n, find db' n = find db3 n) as Hfind.
  { intros n. apply find_ext; [reflexivity | reflexivity |].
    intros p. subst db'. cbn [stars set_barycenters set_stars].
    generalize (barycenters db3). intros bs.
    induction bs as [|c bs IH] using rev_ind; [reflexivity|].
    rewrite linkAll_snoc. unfold linkStep.
    destruct (find db3 _); [|exact IH]. destruct (find db3 _); [|exact IH].
    rewrite indexAt_linkBarycenter. exact IH. }
  assert (∀ n p, find db3 n = Some p → (p < length (stars db3))%nat) as Hvalid.
  { intros n p Hp. destruct (find_Some db3 n p Hidx Hp) as (e & He & _).
    eapply lookup_lt_Some. exact He. }
  split; [|split].
  - intros b i j Hb. rewrite !Hfind. intros Hi Hj.
    destruct (linkAll_resolved (find db3) (stars db3) Hvalid (barycenters db3) b i j Hb Hi Hj)
      as (ei & ej & Hei & Hej & Hin & b' & Hb' & Hci & Hcj).
    exists ei, ej. repeat split; try assumption.
    exists b'. rewrite !Hfind. repeat split; assumption.
  - intros i Hun. subst db'. cbn [stars set_barycenters set_stars].
    apply linkAll_unresolved.
    intros b Hb. specialize (Hun b Hb). rewrite !Hfind in Hun. exact Hun.
  - intros (b & Hb & Hnone). rewrite !Hfind in Hnone.
    apply resolveBarycenters_assert.
    exists b. split; [exact Hb | exact Hnone].
Qed.

Lemma beforeLinks_fields db :
  barycenters (beforeLinks db) = barycenters db ∧
  log (beforeLinks db) = log db ++ finishMessages ∧
  stars (beforeLinks db) = stars (buildOctree db).
Proof.
  destruct db. unfold beforeLinks, buildIndexes, buildOctree, logger, finishMessages.
  cbn -[merge_sort rebuildAndSort take replicate]. rewrite <- !app_assoc.
  repeat split; reflexivity.
Qed.

Lemma finish_unfold assertions db :
  finish assertions db
  = match resolveBarycenters assertions (barycenters (beforeLinks db)) (beforeLinks db) with
    | Some db4 => Some (set_barycenters [] db4)
    | None => None
    end.
Proof. reflexivity. Qed.

(** C8 (amended).  [finish] looks both numbers of every pending pair up
    in the finalized index and links the two stars when both are found.
    For a pair whose numbers do not both resolve, a build without
    assertions skips the pair silently: [finish] completes, the log
    receives only its five fixed messages, and a star that is the orbiting
    member of no resolving pair keeps the link it had after the octree
    was built (none); a build with assertions stops at such a pair. *)
Theorem finish_barycenters (db : StarDatabase) :
  ∃ db', finish false db = Some db' ∧
    log db' = log db ++ finishMessages ∧
    barycenters db' = [] ∧
    (∀ b i j, b ∈ barycenters db →
       find db' (bu_catNo b) = Some i → find db' (bu_barycenterCatNo b) = Some j →
       ∃ ei ej, stars db' !! i = Some ei ∧ stars db' !! j = Some ej ∧
         i ∈ s_orbitingStars ej ∧
         ∃ b', b' ∈ barycenters db ∧ find db' (bu_catNo b') = Some i ∧
               find db' (bu_barycenterCatNo b') = s_orbitBarycenter ei) ∧
    (∀ i, (∀ b, b ∈ barycenters db → find db' (bu_catNo b) = Some i →
                find db' (bu_barycenterCatNo b) = None) →
       s_orbitBarycenter <$> stars db' !! i
       = s_orbitBarycenter <$> stars (buildOctree db) !! i) ∧
    ((∃ b, b ∈ barycenters db ∧
           (find db' (bu_catNo b) = None ∨ find db' (bu_barycenterCatNo b) = None)) →
     finish true db = None).
Proof.
  rewrite !finish_unfold.
  pose proof (finish_indexed_before db) as Hidx. fold (beforeLinks db) in Hidx.
  destruct (beforeLinks_fields db) as (Hb & Hl & Hs).
  destruct (release_links (beforeLinks db) Hidx) as (Hres & Hun & Has).
  revert Hidx Hb Hl Hs Hres Hun Has. generalize (beforeLinks db). intros db3.
  intros Hidx Hb Hl Hs Hres Hun Has.
  rewrite resolveBarycenters_release.
  eexists. split; [reflexivity|].
  split; [exact Hl|]. split; [reflexivity|].
  rewrite Hb in *. rewrite Hs in *.
  split; [exact Hres|]. split; [exact Hun|].
  intros Hex. rewrite (Has Hex). reflexivity.
Qed.

End Finish.

(** ** Reloading a cross index *)

Section CrossIndex.
Context `{Env}.

Lemma is_read_good_enough n inp :
  is_good inp = true → (n ≤ length (is_data inp))%nat →
  is_read n inp
  = (take n (is_data inp),
     IStream (drop n (is_data inp)) (is_dev_error inp) false false false n).
Proof.
  intros Hg Hn. unfold is_read. rewrite Hg. simpl.
  rewrite bool_decide_eq_true_2 by exact Hn. reflexivity.
Qed.

Lemma is_read_good_short n inp :
  is_good inp = true → (length (is_data inp) < n)%nat →
  is_good (is_read n inp).2 = false.
Proof.
  intros Hg Hn. unfold is_read. rewrite Hg. simpl.
  rewrite bool_decide_eq_false_2 by lia. destruct (is_dev_error inp); reflexivity.
Qed.

(** The record loop of [loadCrossIndex] ends within the fuel it is given. *)
Lemma readCrossIndexRecords_total fuel :
  ∀ inp xindex, is_good inp = true → (length (is_data inp) / 4096 < fuel)%nat →
    is_Some (readCrossIndexRecords fuel inp xindex).
Proof.
  induction fuel as [|fuel IH]; intros inp xindex Hg Hfuel; [lia|].
  cbn [readCrossIndexRecords].
  destruct (decide (4096 ≤ length (is_data inp))%nat) as [Hlen|Hlen].
  - rewrite (is_read_good_enough _ _ Hg Hlen). cbn [is_badbit is_eofbit].
    apply IH; [reflexivity|]. cbn [is_data]. rewrite length_drop.
    assert (length (is_data inp) / 4096 = S ((length (is_data inp) - 4096) / 4096))%nat
      as Hdiv.
    { replace (length (is_data inp)) with (1 * 4096 + (length (is_data inp) - 4096))%nat
        at 1 by lia.
      rewrite Nat.div_add_l by lia. lia. }
    lia.
  - unfold is_read. rewrite Hg. cbn [negb].
    rewrite bool_decide_eq_false_2 by lia.
    destruct (is_dev_error inp); cbn [is_badbit is_eofbit is_gcount]; [eauto|].
    case_bool_decide; eauto.
Qed.

(** [loadCrossIndex] always returns. *)
Lemma loadCrossIndex_total catalog inp db : is_Some (loadCrossIndex catalog inp db).
Proof.
  unfold loadCrossIndex. case_bool_decide; [eauto|].
  destruct (is_read 10 inp) as [header in1] eqn:Hread.
  destruct (is_good in1) eqn:Hg; cbn [negb]; [|eauto].
  destruct (negb (Bytes.eqb_bytes _ _)); [eauto|].
  destruct (negb (_ =? 256)); [eauto|].
  destruct (readCrossIndexRecords_total (S (length (is_data in1) / 4096)) in1 [] Hg
              ltac:(lia)) as [[r in2] ->].
  destruct r; eauto.
Qed.

(** C2 (as the code behaves).  Reloading the cross index of a catalog
    that already has a table deletes that table before the stream is
    looked at.  When the reload then fails, the slot still holds the
    pointer to the deleted table, and a lookup in that catalog reads
    freed memory: it has no defined result. *)
Theorem loadCrossIndex_failed_reload (catalog p : nat) (t : list CrossIndexEntry)
    (inp in' : istream) (db db' : StarDatabase) :
  crossIndexes db !! catalog = Some (Some p) →
  xheap db !! p = Some (XLive t) →
  loadCrossIndex catalog inp db = Some (false, in', db') →
  crossIndexes db' !! catalog = Some (Some p) ∧
  xheap db' !! p = Some XFreed ∧
  ∀ number, searchCrossIndexForCatalogNumber db' catalog number = None.
Proof.
  intros Hslot Hcell Hload.
  pose proof (lookup_lt_Some _ _ _ Hslot) as Hclt.
  pose proof (lookup_lt_Some _ _ _ Hcell) as Hplt.
  assert (crossIndexes db' = crossIndexes db ∧ xheap db' !! p = Some XFreed) as [Hsame Hfreed].
  { unfold loadCrossIndex in Hload.
    rewrite bool_decide_eq_false_2 in Hload by lia.
    rewrite Hslot in Hload.
    destruct (is_read 10 inp) as [header in1].
    assert (<[p:=XFreed]> (xheap db) !! p = Some XFreed) as Hp
      by (apply list_lookup_insert_eq; exact Hplt).
    destruct (negb (is_good in1)); [injection Hload as _ <-; split; [reflexivity|exact Hp]|].
    destruct (negb (Bytes.eqb_bytes _ _));
      [injection Hload as _ <-; split; [reflexivity|exact Hp]|].
    destruct (negb (_ =? 256)); [injection Hload as _ <-; split; [reflexivity|exact Hp]|].
    destruct (readCrossIndexRecords _ _ _) as [[[entries|msg] in2]|]; try discriminate.
    injection Hload as _ <-. split; [reflexivity|].
    cbn [xheap set_xheap logger set_log].
    rewrite list_lookup_insert_ne by (rewrite length_insert; lia).
    rewrite lookup_app_l by (rewrite length_insert; exact Hplt).
    exact Hp. }
  split; [rewrite Hsame; exact Hslot|]. split; [exact Hfreed|].
  intros number. unfold searchCrossIndexForCatalogNumber.
  rewrite Hsame. rewrite bool_decide_eq_false_2 by lia.
  rewrite Hslot, Hfreed. reflexivity.
Qed.

End CrossIndex.

(** ** The binary star file *)

Ltac div_lia := zify; Z.div_mod_to_equations; lia.

Section Binary.
Context `{Env}.

Lemma field_take off len n bs :
  (off + len ≤ n)%nat → Bytes.field off len (take n bs) = Bytes.field off len bs.
Proof.
  intros Hn. unfold Bytes.field. rewrite !take_drop_commute, take_take.
  rewrite Nat.min_l by lia. reflexivity.
Qed.

Lemma le_uint_take off len n bs :
  (off + len ≤ n)%nat → Bytes.le_uint off len (take n bs) = Bytes.le_uint off len bs.
Proof. intros Hn. unfold Bytes.le_uint. rewrite field_take by exact Hn. reflexivity. Qed.

Lemma le_uint_drop_take off len a n bs :
  (a + off + len ≤ n)%nat →
  Bytes.le_uint off len (drop a (take n bs)) = Bytes.le_uint off len (drop a bs).
Proof.
  intros Hn. unfold Bytes.le_uint, Bytes.field.
  rewrite !drop_drop. rewrite !take_drop_commute, take_take.
  rewrite Nat.min_l by lia. reflexivity.
Qed.

Lemma decodeStarRecords_spec n :
  ∀ ptr db,
    ((decodeStarRecords n ptr db).1 = true ↔ recordsDecodable n ptr) ∧
    ((decodeStarRecords n ptr db).1 = true → sameButStars db (decodeStarRecords n ptr db).2 n).
Proof.
  induction n as [|n IH]; intros ptr db.
  - cbn [decodeStarRecords fst snd]. split.
    + split; [intros _ i Hi; lia | reflexivity].
    + intros _. exists []. split; [reflexivity|]. destruct db. unfold set_nStars, set_unsortedStars.
      cbn. rewrite app_nil_r, Nat.add_0_r. reflexivity.
  - cbn [decodeStarRecords].
    destruct (unpackV1 (Bytes.le_uint 18 2 ptr) ≫= GetStarDetails) as [details|] eqn:Hd.
    + match goal with |- context [decodeStarRecords n ?p ?d] =>
        destruct (IH p d) as [Hiff Hsame] end.
      split.
      * rewrite Hiff. unfold recordsDecodable, spectralCodeAt. split.
        -- intros Hrest [|i] Hi.
           ++ rewrite Nat.mul_0_r, drop_0. rewrite Hd. eauto.
           ++ specialize (Hrest i ltac:(lia)). rewrite drop_drop in Hrest.
              replace (StarsDatRecord_size * S i)%nat with (StarsDatRecord_size + StarsDatRecord_size * i)%nat by lia.
              exact Hrest.
        -- intros Hall i Hi. specialize (Hall (S i) ltac:(lia)). rewrite drop_drop.
           replace (StarsDatRecord_size * S i)%nat with (StarsDatRecord_size + StarsDatRecord_size * i)%nat in Hall by lia.
           exact Hall.
      * intros Hok. destruct (Hsame Hok) as (l & Hl & ->).
        eexists (_ :: l). split; [simpl; rewrite Hl; reflexivity|].
        destruct db. unfold set_nStars, set_unsortedStars. cbn.
        rewrite <- app_assoc. f_equal. lia.
    + cbn [fst snd]. split; [|discriminate]. split; [discriminate|].
      intros Hall. specialize (Hall 0%nat ltac:(lia)).
      unfold spectralCodeAt in Hall. rewrite Nat.mul_0_r, drop_0, Hd in Hall.
      destruct Hall as [? ?]. discriminate.
Qed.

Lemma recordsDecodable_take n m body :
  (StarsDatRecord_size * n ≤ m)%nat →
  recordsDecodable n (take m body) ↔ recordsDecodable n body.
Proof.
  intros Hm. unfold recordsDecodable, spectralCodeAt.
  assert (∀ i, (i < n)%nat →
            Bytes.le_uint 18 2 (drop (StarsDatRecord_size * i) (take m body))
            = Bytes.le_uint 18 2 (drop (StarsDatRecord_size * i) body)) as Heq.
  { intros i Hi. apply le_uint_drop_take. unfold StarsDatRecord_size in *. lia. }
  split; intros Hall i Hi; specialize (Hall i Hi).
  - rewrite <- Heq by exact Hi. exact Hall.
  - rewrite Heq by exact Hi. exact Hall.
Qed.

Lemma recordsDecodable_split a b body :
  recordsDecodable (a + b) body
  ↔ recordsDecodable a body ∧ recordsDecodable b (drop (StarsDatRecord_size * a) body).
Proof.
  unfold recordsDecodable, spectralCodeAt, StarsDatRecord_size. split.
  - intros Hall. split.
    + intros i Hi. apply Hall. lia.
    + intros i Hi. rewrite drop_drop.
      replace (20 * a + 20 * i)%nat with (20 * (a + i))%nat by lia.
      apply Hall. lia.
  - intros [Ha Hb] i Hi. destruct (decide (i < a)%nat) as [Hlt|Hge]; [apply Ha; exact Hlt|].
    specialize (Hb (i - a)%nat ltac:(lia)). rewrite drop_drop in Hb.
    replace (20 * a + 20 * (i - a))%nat with (20 * i)%nat in Hb by lia.
    exact Hb.
Qed.

Lemma sameButStars_trans db1 db2 db3 n m :
  sameButStars db1 db2 n → sameButStars db2 db3 m → sameButStars db1 db3 (n + m).
Proof.
  intros (l1 & Hl1 & ->) (l2 & Hl2 & ->). exists (l1 ++ l2).
  split; [rewrite length_app; lia|].
  destruct db1. unfold set_nStars, set_unsortedStars. cbn.
  rewrite <- app_assoc. f_equal. lia.
Qed.

(** One round of the loop of [loadBinary], for a count that is not zero. *)
Lemma readStarRecords_step fuel nStarsRemaining inp db :
  nStarsRemaining ≠ 0 →
  readStarRecords (S fuel) nStarsRemaining inp db
  = let k := N.min BUFFER_RECORDS nStarsRemaining in
    let r := is_read (StarsDatRecord_size * N.to_nat k) inp in
    if negb (is_good r.2) then Some (false, r.2, db)
    else
      let d := decodeStarRecords (N.to_nat k) r.1 db in
      if negb d.1 then Some (false, r.2, d.2)
      else readStarRecords fuel (nStarsRemaining - k) r.2 d.2.
Proof.
  intros Hne. cbn [readStarRecords]. rewrite (proj2 (N.eqb_neq _ _) Hne). cbv zeta.
  destruct (is_read _ inp) as [buffer in1]. cbn [fst snd].
  destruct (negb (is_good in1)); [reflexivity|].
  destruct (decodeStarRecords _ buffer db) as [ok db1]. reflexivity.
Qed.

(** The loop of [loadBinary] ends within its fuel, and succeeds exactly
    when the stream holds the records announced and all are decodable. *)
Lemma readStarRecords_spec fuel :
  ∀ nStarsRemaining inp db,
    is_good inp = true →
    (N.to_nat ((nStarsRemaining + 203) / 204) < fuel)%nat →
    ∃ ok in' db',
      readStarRecords fuel nStarsRemaining inp db = Some (ok, in', db') ∧
      (ok = true ↔
         (StarsDatRecord_size * N.to_nat nStarsRemaining ≤ length (is_data inp))%nat ∧
         recordsDecodable (N.to_nat nStarsRemaining) (is_data inp)) ∧
      (ok = true →
         is_good in' = true ∧
         is_data in' = drop (StarsDatRecord_size * N.to_nat nStarsRemaining) (is_data inp) ∧
         sameButStars db db' (N.to_nat nStarsRemaining)).
Proof.
  induction fuel as [|fuel IH]; intros rem inp db Hg Hfuel;
    [exfalso; exact (Nat.nlt_0_r _ Hfuel)|].
  destruct (decide (rem = 0)) as [->|Hne].
  - cbn [readStarRecords]. rewrite N.eqb_refl.
    exists true, inp, db. split; [reflexivity|]. split.
    + split; [intros _|reflexivity].
      split; [change (N.to_nat 0) with 0%nat; lia|]. intros i Hi.
      change (N.to_nat 0) with 0%nat in Hi. lia.
    + intros _. split; [exact Hg|]. split; [reflexivity|].
      exists []. split; [reflexivity|]. destruct db. unfold set_nStars, set_unsortedStars.
      cbn. rewrite app_nil_r, Nat.add_0_r. reflexivity.
  - rewrite (readStarRecords_step _ _ _ _ Hne). cbv zeta.
    set (k := N.min BUFFER_RECORDS rem).
    assert (0 < k ∧ k ≤ rem ∧ k ≤ 204) as (Hk0 & Hkrem & Hk204)
      by (subst k; unfold BUFFER_RECORDS; change (4096 / 20) with 204; lia).
    destruct (decide (StarsDatRecord_size * N.to_nat k ≤ length (is_data inp))%nat)
      as [Hlen|Hlen].
    + rewrite (is_read_good_enough _ _ Hg Hlen). cbn [fst snd].
      change (is_good (IStream _ _ false false false _)) with true. cbn [negb].
      destruct (decodeStarRecords_spec (N.to_nat k) (take (StarsDatRecord_size * N.to_nat k) (is_data inp)) db)
        as [Hiff Hsame].
      rewrite (recordsDecodable_take _ _ _ (le_n _)) in Hiff.
      destruct ((decodeStarRecords _ _ db).1) eqn:Hok; cbn [negb].
      * specialize (Hsame eq_refl).
        match goal with |- context [readStarRecords fuel _ ?i ?d] =>
          destruct (IH (rem - k) i d eq_refl) as (ok & in' & db' & Hrun & Hokiff & Hpost) end.
        { assert ((rem - k + 203) / 204 < (rem + 203) / 204 ∨ rem - k = 0) as [Hlt|Hz]
            by (subst k; unfold BUFFER_RECORDS; change (4096 / 20) with 204; div_lia).
          - lia.
          - rewrite Hz. change ((0 + 203) / 204) with 0.
            assert (0 < (rem + 203) / 204) by div_lia. lia. }
        exists ok, in', db'. split; [exact Hrun|].
        cbn [is_data] in Hokiff, Hpost.
        assert (N.to_nat rem = N.to_nat k + N.to_nat (rem - k))%nat as Hsum by lia.
        split.
        -- rewrite Hokiff, Hsum, recordsDecodable_split, length_drop.
           pose proof (proj1 Hiff eq_refl) as Hdec.
           unfold StarsDatRecord_size in *. split.
           ++ intros [Hl Hr]. split; [lia|]. split; [exact Hdec|exact Hr].
           ++ intros [Hl [_ Hr]]. split; [lia|exact Hr].
        -- intros Ht. destruct (Hpost Ht) as (Hg' & Hdata & Hs').
           split; [exact Hg'|]. split.
           ++ rewrite Hdata, drop_drop. f_equal. unfold StarsDatRecord_size. lia.
           ++ rewrite Hsum. eapply sameButStars_trans; eassumption.
      * eexists false, _, _. split; [reflexivity|]. split; [|discriminate].
        split; [discriminate|]. intros [_ Hall]. exfalso.
        assert (recordsDecodable (N.to_nat k) (is_data inp)) as Hdec
          by (intros i Hi; apply Hall; lia).
        apply Hiff in Hdec. discriminate.
    + rewrite (is_read_good_short _ _ Hg) by lia. cbn [negb].
      eexists false, _, _. split; [reflexivity|]. split; [|discriminate].
      split; [discriminate|]. intros [Hl _]. unfold StarsDatRecord_size in *. lia.
Qed.

Lemma is_read_not_good n inp : is_good inp = false → is_good (is_read n inp).2 = false.
Proof.
  intros Hg. unfold is_read. rewrite Hg. cbn [negb snd]. unfold is_good. cbn.
  rewrite !andb_false_r. reflexivity.
Qed.

Lemma is_read_append n inp extra :
  is_good inp = true → (n ≤ length (is_data inp))%nat →
  is_read n (append_data inp extra)
  = ((is_read n inp).1, append_data (is_read n inp).2 extra).
Proof.
  intros Hg Hn.
  rewrite (is_read_good_enough n inp Hg Hn).
  rewrite is_read_good_enough.
  - cbn [append_data is_data is_dev_error fst snd is_badbit is_eofbit is_failbit is_gcount].
    rewrite take_app_le, drop_app_le by exact Hn. reflexivity.
  - exact Hg.
  - cbn [append_data is_data]. rewrite length_app. lia.
Qed.

(** Bytes after the records announced do not change what the loop does. *)
Lemma readStarRecords_surplus fuel :
  ∀ nStarsRemaining inp db in' db' extra,
    is_good inp = true →
    readStarRecords fuel nStarsRemaining inp db = Some (true, in', db') →
    readStarRecords fuel nStarsRemaining (append_data inp extra) db
    = Some (true, append_data in' extra, db').
Proof.
  induction fuel as [|fuel IH]; intros rem inp db in' db' extra Hg Hrun; [discriminate|].
  destruct (decide (rem = 0)) as [->|Hne].
  - cbn [readStarRecords] in *. rewrite N.eqb_refl in *.
    injection Hrun as <- <-. reflexivity.
  - rewrite (readStarRecords_step _ _ _ _ Hne) in Hrun.
    rewrite (readStarRecords_step _ _ _ _ Hne). cbv zeta in Hrun |- *.
    set (n := (StarsDatRecord_size * N.to_nat (N.min BUFFER_RECORDS rem))%nat) in *.
    destruct (decide (n ≤ length (is_data inp))%nat) as [Hlen|Hlen].
    + rewrite (is_read_append n inp extra Hg Hlen). cbn [fst snd].
      rewrite (is_read_good_enough n inp Hg Hlen) in Hrun |- *. cbn [fst snd] in Hrun |- *.
      change (is_good (IStream _ _ false false false _)) with true in Hrun.
      change (is_good (append_data (IStream _ _ false false false _) _)) with true.
      cbn [negb] in *.
      destruct (negb (decodeStarRecords _ _ db).1); [discriminate|].
      apply IH; [reflexivity|exact Hrun].
    + rewrite (is_read_good_short _ _ Hg) in Hrun by lia. discriminate.
Qed.

(** [loadBinary] returns, and returns [true] exactly for a good header
    followed by the announced number of 20-byte records whose spectral
    codes all have star details. *)
Lemma loadBinary_spec inp db :
  is_good inp = true →
  ∃ ok in' db',
    loadBinary inp db = Some (ok, in', db') ∧
    (ok = true ↔
       headerOk (is_data inp) ∧
       (StarsDatRecord_size * declaredCount (is_data inp) ≤ length (is_data inp) - 14)%nat ∧
       recordsDecodable (declaredCount (is_data inp)) (drop 14 (is_data inp))) ∧
    (ok = true →
       is_data in' = drop (14 + StarsDatRecord_size * declaredCount (is_data inp)) (is_data inp) ∧
       length (unsortedStars db')
       = (length (unsortedStars db) + declaredCount (is_data inp))%nat).
Proof.
  intros Hg. unfold loadBinary, headerOk, declaredCount.
  destruct (decide (14 ≤ length (is_data inp))%nat) as [Hlen|Hlen].
  - rewrite (is_read_good_enough 14 inp Hg Hlen).
    change (is_good (IStream _ _ false false false _)) with true. cbn [negb].
    rewrite field_take, !le_uint_take by lia.
    destruct (Bytes.eqb_bytes _ _) eqn:Hmagic; cbn [negb];
      [|eexists false, _, _; split; [reflexivity|]; split; [|discriminate];
        split; [discriminate|]; intros [(_ & Hm & _) _]; discriminate].
    destruct (N.eqb_spec (Bytes.le_uint 8 2 (is_data inp)) 256) as [Hver|Hver]; cbn [negb];
      [|eexists false, _, _; split; [reflexivity|]; split; [|discriminate];
        split; [discriminate|]; intros [(_ & _ & Hv) _]; congruence].
    set (count := Bytes.le_uint 10 4 (is_data inp)).
    match goal with |- context [readStarRecords ?f count ?i db] =>
      destruct (readStarRecords_spec f count i db eq_refl)
        as (ok & in2 & db1 & Hrun & Hiff & Hpost) end.
    { unfold BUFFER_RECORDS. change (4096 / 20) with 204. div_lia. }
    rewrite Hrun. cbn [is_data] in Hiff, Hpost. rewrite length_drop in Hiff.
    destruct ok.
    + destruct (Hpost eq_refl) as (Hg2 & Hdata & l & Hl & ->).
      assert (is_badbit in2 = false) as ->
        by (unfold is_good in Hg2; destruct (is_badbit in2); [discriminate|reflexivity]).
      assert (∀ X Y : StarDatabase,
                length (unsortedStars X) = (length (unsortedStars db) + N.to_nat count)%nat →
                length (unsortedStars Y) = (length (unsortedStars db) + N.to_nat count)%nat →
                ∃ ok in' db',
                  (if bool_decide (0 < length (unsortedStars X))%nat
                   then Some (true, in2, Y) else Some (true, in2, X))
                  = Some (ok, in', db') ∧
                  (ok = true ↔ ((14 ≤ length (is_data inp))%nat ∧ true = true ∧
                                Bytes.le_uint 8 2 (is_data inp) = 256) ∧
                     (StarsDatRecord_size * N.to_nat count ≤ length (is_data inp) - 14)%nat ∧
                     recordsDecodable (N.to_nat count) (drop 14 (is_data inp))) ∧
                  (ok = true →
                     is_data in' = drop (14 + StarsDatRecord_size * N.to_nat count) (is_data inp) ∧
                     length (unsortedStars db')
                     = (length (unsortedStars db) + N.to_nat count)%nat)) as Hfinal.
      { intros X Y HX HY.
        assert (is_data in2 = drop (14 + StarsDatRecord_size * N.to_nat count) (is_data inp))
          as Hd by (rewrite Hdata, drop_drop; reflexivity).
        destruct (proj1 Hiff eq_refl) as [Hl1 Hl2].
        case_bool_decide; eexists true, in2, _; (split; [reflexivity|]);
          (split; [split; [intros _|reflexivity]; repeat split; assumption|]);
          intros _; (split; [exact Hd|assumption]). }
      apply Hfinal; cbn; rewrite length_app, Hl; reflexivity.
    + eexists false, _, _. split; [reflexivity|]. split; [|discriminate].
      split; [discriminate|]. intros (_ & Hl & Hd).
      assert (false = true) by (apply Hiff; split; assumption). discriminate.
  - assert (is_good (is_read 14 inp).2 = false) as Hbad
      by (apply is_read_good_short; [exact Hg|lia]).
    destruct (is_read 14 inp) as [header in1]. cbn [snd] in Hbad. rewrite Hbad. cbn [negb].
    eexists false, _, _. split; [reflexivity|]. split; [|discriminate].
    split; [discriminate|]. intros [(Hl & _) _]. lia.
Qed.

(** C6 (amended).  [loadBinary] accepts a stream if and only if it
    begins with the 8-byte magic [CELSTARS], a little-endian 16-bit
    version equal to [0x0100] and a little-endian 32-bit record count,
    followed by at least that many complete 20-byte records (4-byte
    catalog number, three 4-byte floats, 2-byte magnitude, 2-byte spectral
    code) of which every spectral code decodes to star details; any other
    stream makes the load return [false]. *)
Theorem loadBinary_accepts_iff (inp : istream) (db : StarDatabase) :
  is_good inp = true →
  ∃ ok in' db',
    loadBinary inp db = Some (ok, in', db') ∧
    (ok = true ↔
       headerOk (is_data inp) ∧
       (StarsDatRecord_size * declaredCount (is_data inp) ≤ length (is_data inp) - 14)%nat ∧
       recordsDecodable (declaredCount (is_data inp)) (drop 14 (is_data inp))).
Proof.
  intros Hg.
  destruct (loadBinary_spec inp db Hg) as (ok & in' & db' & Hrun & Hiff & _).
  exists ok, in', db'. split; [exact Hrun | exact Hiff].
Qed.

Lemma loadBinary_true_good inp db in' db' :
  loadBinary inp db = Some (true, in', db') →
  is_good inp = true ∧ (14 ≤ length (is_data inp))%nat.
Proof.
  intros Hload. unfold loadBinary in Hload.
  destruct (is_good inp) eqn:Hg.
  - split; [reflexivity|].
    destruct (decide (14 ≤ length (is_data inp))%nat) as [Hlen|Hlen]; [exact Hlen|].
    pose proof (is_read_good_short 14 inp Hg ltac:(lia)) as Hbad.
    destruct (is_read 14 inp) as [header in1]. cbn [snd] in Hbad.
    rewrite Hbad in Hload. discriminate.
  - pose proof (is_read_not_good 14 inp Hg) as Hbad.
    destruct (is_read 14 inp) as [header in1]. cbn [snd] in Hbad.
    rewrite Hbad in Hload. discriminate.
Qed.

(** C9.  When [loadBinary] succeeds on a stream, it succeeds in the same
    way on that stream with any further bytes appended: the database is
    the same, exactly the announced number of records is decoded, and the
    appended bytes are left in the stream unread. *)
Theorem loadBinary_surplus (inp in' : istream) (db db' : StarDatabase)
    (extra : list byte) :
  loadBinary inp db = Some (true, in', db') →
  loadBinary (append_data inp extra) db = Some (true, append_data in' extra, db') ∧
  is_data (append_data in' extra)
  = drop (14 + StarsDatRecord_size * declaredCount (is_data inp)) (is_data inp) ++ extra ∧
  length (unsortedStars db')
  = (length (unsortedStars db) + declaredCount (is_data inp))%nat.
Proof.
  intros Hload.
  destruct (loadBinary_true_good _ _ _ _ Hload) as [Hg Hlen].
  destruct (loadBinary_spec inp db Hg) as (ok & in2 & db2 & Hrun & _ & Hpost).
  rewrite Hload in Hrun. injection Hrun as <- <- <-.
  destruct (Hpost eq_refl) as [Hdata Hcount].
  split; [|split; [cbn [append_data is_data]; rewrite Hdata; reflexivity | exact Hcount]].
  clear Hpost Hdata Hcount.
  unfold loadBinary in Hload |- *.
  rewrite (is_read_append 14 inp extra Hg Hlen).
  destruct (is_read 14 inp) as [header in1] eqn:Hr. cbn [fst snd].
  assert (is_good in1 = true) as Hg1.
  { rewrite (is_read_good_enough 14 inp Hg Hlen) in Hr. injection Hr as _ <-. reflexivity. }
  change (is_good (append_data in1 extra)) with (is_good in1).
  rewrite Hg1 in Hload |- *. cbn [negb] in Hload |- *.
  destruct (negb (Bytes.eqb_bytes _ _)); [discriminate|].
  destruct (negb (_ =? 256)); [discriminate|].
  destruct (readStarRecords _ _ in1 db) as [[[ok in2] db1]|] eqn:Hrun; [|discriminate].
  destruct ok; [|discriminate].
  rewrite (readStarRecords_surplus _ _ _ _ _ _ extra Hg1 Hrun).
  change (is_badbit (append_data in2 extra)) with (is_badbit in2).
  destruct (is_badbit in2); [discriminate|].
  case_bool_decide; injection Hload as <- <-; reflexivity.
Qed.

End Binary.

(** ** The merge of [.stc] blocks *)

Section Merge.
Context `{Env}.

Lemma bind_inv {A B} (m : M A) (f : A → M B) db b db' :
  (m ≫= f) db = Some (b, db') →
  ∃ a db1, m db = Some (a, db1) ∧ f a db1 = Some (b, db').
Proof.
  unfold mbind, M_bind. destruct (m db) as [[a db1]|]; [|discriminate].
  intros Hf. exists a, db1. split; [reflexivity | exact Hf].
Qed.

Lemma keeps_ret {A} I (a : A) : keeps I (mret a).
Proof. intros db a' db' HI [= _ <-]. exact HI. Qed.

Lemma keeps_bind {A B} I (m : M A) (f : A → M B) :
  keeps I m → (∀ a, keeps I (f a)) → keeps I (m ≫= f).
Proof.
  intros Hm Hf db b db' HI Hrun.
  apply bind_inv in Hrun as (a & db1 & Hm1 & Hf1).
  eapply Hf; [|exact Hf1]. eapply Hm; [exact HI | exact Hm1].
Qed.

Lemma keeps_undefined {A} I : keeps I (@undefined _ A).
Proof. intros db a db' _ Hrun. discriminate. Qed.

Lemma keeps_getDB I : keeps I getDB.
Proof. intros db a db' HI [= _ <-]. exact HI. Qed.

Lemma keeps_liftOption {A} I (o : option A) : keeps I (liftOption o).
Proof. intros db a db' HI. unfold liftOption. destruct o; intros [= _ <-]. exact HI. Qed.

Lemma keeps_readStar I star : keeps I (readStar star).
Proof.
  intros db a db' HI. unfold readStar.
  destruct star as [p|]; [destruct (unsortedStars db !! p)|]; intros [= _ <-]; exact HI.
Qed.

Section Stable.
Context (star : StarPtr) (okf : (Star → Star) → Prop) (I : StarDatabase → Prop).
Hypothesis HI : stable star okf I.

Lemma keeps_updateStar f : okf f → keeps I (updateStar star f).
Proof.
  intros Hf db [] db' Hdb Hrun. eapply (st_update _ _ _ HI); eassumption.
Qed.

Lemma keeps_logM lvl msg : keeps I (logM lvl msg).
Proof. intros db a db' Hdb [= _ <-]. apply (st_log _ _ _ HI). exact Hdb. Qed.

Lemma keeps_push b :
  keeps I (modifyDB (λ db, set_barycenters (barycenters db ++ [b]) db)).
Proof. intros db a db' Hdb [= _ <-]. apply (st_barycenters _ _ _ HI). exact Hdb. Qed.

Lemma keeps_whenSome {A} (o : option A) (body : A → M unit) :
  (∀ a, keeps I (body a)) → keeps I (whenSome o body).
Proof. intros Hb. destruct o; [apply Hb | apply keeps_ret]. Qed.

Ltac keeps_step :=
  match goal with
  | |- keeps _ (mret _) => apply keeps_ret
  | |- keeps _ (_ ≫= _) => apply keeps_bind; [|intros ?]
  | |- keeps _ undefined => apply keeps_undefined
  | |- keeps _ getDB => apply keeps_getDB
  | |- keeps _ (liftOption _) => apply keeps_liftOption
  | |- keeps _ (readStar _) => apply keeps_readStar
  | |- keeps _ (updateStar _ _) => apply keeps_updateStar; solve [auto]
  | |- keeps _ (logM _ _) => apply keeps_logM
  | |- keeps _ (modifyDB _) => apply keeps_push
  | |- keeps _ (whenSome _ _) => apply keeps_whenSome; intros ?
  | |- keeps _ (if ?b then _ else _) => destruct b
  | |- keeps _ (match ?o with _ => _ end) => destruct o
  end.

Ltac keeps_auto := repeat keeps_step.

Lemma keeps_updateDetails f : (∀ d, okf (setDetails d)) → keeps I (updateDetails star f).
Proof. intros Hd. unfold updateDetails. keeps_auto. Qed.

Lemma keeps_modifyStarDetails referenceDetails custom :
  (∀ d, okf (setDetails d)) → keeps I (modifyStarDetails star referenceDetails custom).
Proof. intros Hd. unfold modifyStarDetails. keeps_auto. Qed.

Lemma keeps_applyOrbit catalogNumber starData customDetails :
  (∀ d, okf (setDetails d)) →
  keeps I (applyOrbit catalogNumber starData star customDetails).
Proof.
  intros Hd. unfold applyOrbit.
  destruct (orbit customDetails); [|apply keeps_ret].
  apply keeps_bind; [apply keeps_updateDetails; exact Hd|intros _].
  keeps_auto.
Qed.

Lemma keeps_applyCustomStarDetails catalogNumber starData path customDetails :
  (∀ d, okf (setDetails d)) →
  keeps I (applyCustomStarDetails star catalogNumber starData path customDetails).
Proof.
  intros Hd. unfold applyCustomStarDetails.
  destruct (negb (hasCustomDetails customDetails)); [apply keeps_ret|].
  repeat first
    [ apply keeps_updateDetails; exact Hd
    | apply keeps_applyOrbit; exact Hd
    | keeps_step ].
Qed.

Lemma keeps_createOrUpdateStarDetails disposition catalogNumber starData path isBarycenter :
  (∀ d, okf (setDetails d)) →
  keeps I (createOrUpdateStarDetails star disposition catalogNumber starData path
             isBarycenter).
Proof.
  intros Hd. unfold createOrUpdateStarDetails.
  repeat first
    [ apply keeps_modifyStarDetails; exact Hd
    | apply keeps_applyCustomStarDetails; exact Hd
    | keeps_step ].
Qed.

Lemma keeps_resolvePosition disposition starData barycenterPosition :
  (∀ p, okf (setPosition p)) →
  keeps I (resolvePosition star disposition starData barycenterPosition).
Proof. intros Hp. unfold resolvePosition. keeps_auto. Qed.

Lemma keeps_resolveMagnitude disposition starData isBarycenter :
  (∀ m, okf (setAbsoluteMagnitude m)) → (∀ e, okf (setExtinction e)) →
  keeps I (resolveMagnitude star disposition starData isBarycenter).
Proof. intros Hm He. unfold resolveMagnitude. keeps_auto. Qed.

Lemma keeps_createStar disposition catalogNumber starData path isBarycenter :
  (∀ f, okf f) →
  keeps I (createStar star disposition catalogNumber starData path isBarycenter).
Proof.
  intros Hall. unfold createStar.
  repeat first
    [ apply keeps_createOrUpdateStarDetails; intros; apply Hall
    | apply keeps_resolvePosition; intros; apply Hall
    | apply keeps_resolveMagnitude; intros; apply Hall
    | keeps_step ].
Qed.

End Stable.

(** C4.  A [Modify] block whose catalog number, given directly or found
    through its name, matches no loaded star is rejected: no star is
    changed, none is added, names, pending barycenters and indexes stay
    as they were (only two log messages are written), and [load] goes on
    with the next block. *)
Theorem modify_missing_target (resourcePath : string) (b : StcBlock) (starData : Hash)
    (n : N) (db : StarDatabase) (rest : list StcBlock) :
  b_disposition b = Some Modify →
  knownObjectType b →
  b_body b = Group starData →
  blockNumber db b = Some n →
  (n = InvalidIndex ∨ findWhileLoading db n = None) →
  ∃ db',
    loadBlock resourcePath b db = Some (true, db') ∧
    db' = logger LInfo "Bad star definition--will continue parsing file."
            (logger LWarn "Modify requested for nonexistent star."
               (set_heapStar newStar db)) ∧
    unsortedStars db' = unsortedStars db ∧ nStars db' = nStars db ∧
    namesDB db' = namesDB db ∧ barycenters db' = barycenters db ∧
    stcFileCatalogNumberIndex db' = stcFileCatalogNumberIndex db ∧
    load resourcePath (b :: rest) db = load resourcePath rest db'.
Proof.
  intros Hdisp Htype Hbody Hnum Hmiss.
  assert (loadBlock resourcePath b db
          = Some (true, logger LInfo "Bad star definition--will continue parsing file."
                          (logger LWarn "Modify requested for nonexistent star."
                             (set_heapStar newStar db)))) as Hrun.
  { unfold loadBlock, blockNumber in *. rewrite Hdisp, Hbody. cbn [default].
    assert (∀ isStar,
      (target ← resolveTarget Modify isStar (default InvalidIndex (b_catalogNumber b))
                 (upToColon (default EmptyString (b_objName b)));
       match target with
       | None => mret false
       | Some (catalogNumber, found) =>
           let isNewStar := negb (bool_decide (is_Some found)) in
           _ ← (if isNewStar then modifyDB (set_heapStar newStar) else mret tt);
           let star := match found with Some p => InStore p | None => OnHeap end in
           ok ←
             (if isNewStar && is_Modify Modify then
                _ ← logM LWarn "Modify requested for nonexistent star.";
                mret false
              else
                ok ← createStar star Modify catalogNumber starData resourcePath
                                (negb isStar);
                _ ← updateStar star (λ s,
                      setCategories (loadCategories starData Modify resourcePath
                                                    (s_categories s)) s);
                mret ok);
           _ ← commitStar ok isNewStar catalogNumber
                 (default EmptyString (b_objName b));
           mret true
       end) db
      = Some (true, logger LInfo "Bad star definition--will continue parsing file."
                      (logger LWarn "Modify requested for nonexistent star."
                         (set_heapStar newStar db)))) as Hcore.
    { intros isStar. unfold resolveTarget, mbind, M_bind.
      destruct (bool_decide _ && negb _).
      - unfold getDB, liftOption. rewrite Hnum.
        destruct Hmiss as [->|Hnone].
        + rewrite bool_decide_eq_false_2 by (intros Hc; apply Hc; reflexivity). reflexivity.
        + case_bool_decide; [|reflexivity]. unfold mret, M_ret, getDB. rewrite Hnone. reflexivity.
      - injection Hnum as ->. unfold mret, M_ret at 1.
        destruct Hmiss as [->|Hnone].
        + rewrite bool_decide_eq_false_2 by (intros Hc; apply Hc; reflexivity). reflexivity.
        + case_bool_decide; [|reflexivity]. unfold mret, M_ret, getDB. rewrite Hnone. reflexivity. }
    destruct Htype as [->| [->| ->]].
    - apply Hcore.
    - rewrite bool_decide_eq_true_2 by reflexivity. apply Hcore.
    - rewrite bool_decide_eq_false_2 by discriminate.
      rewrite bool_decide_eq_true_2 by reflexivity. apply Hcore. }
  eexists. split; [exact Hrun|]. split; [reflexivity|].
  repeat (split; [reflexivity|]).
  cbn [load]. unfold mbind at 1, M_bind at 1. rewrite Hrun. reflexivity.
Qed.

(** *** What a run of [createStar] leaves alone *)

Lemma preserved_refl star db : preserved star db db.
Proof. unfold preserved. destruct star; auto. Qed.

Lemma updateStar_inv star f db db' :
  updateStar star f db = Some (tt, db') →
  ∃ e, starAt star db = Some e ∧ starAt star db' = Some (f e) ∧
    db' = match star with
          | InStore p => set_unsortedStars (alter f p (unsortedStars db)) db
          | OnHeap => set_heapStar (f (heapStar db)) db
          end.
Proof.
  unfold updateStar, starAt. destruct star as [p|].
  - destruct (unsortedStars db !! p) as [e|] eqn:He; [|discriminate].
    intros [= <-]. exists e. split; [reflexivity|]. split; [|reflexivity].
    cbn. rewrite list_lookup_alter_eq, He. reflexivity.
  - intros [= <-]. exists (heapStar db). auto.
Qed.

Lemma preserved_stable star db0 : stable star (λ _, True) (preserved star db0).
Proof.
  split.
  - intros db db' f _ (Hv & Hl & Hs) Hrun.
    apply updateStar_inv in Hrun as (e & _ & _ & ->).
    destruct star as [p|]; (split; [exact Hv|]); cbn.
    + rewrite length_alter. split; [exact Hl|]. destruct Hs as [Hs Hh]. split; [|exact Hh].
      intros q Hq. rewrite list_lookup_alter_ne by congruence. apply Hs. exact Hq.
    + split; [exact Hl | exact Hs].
  - intros db lvl msg HP. exact HP.
  - intros db bs HP. exact HP.
Qed.

Lemma hasIndex_stable star n : stable star keepsIndex (hasIndex star n).
Proof.
  split.
  - intros db db' f Hf (e & He & Hn) Hrun.
    apply updateStar_inv in Hrun as (e' & He' & Hnew & _).
    rewrite He in He'. injection He' as <-.
    exists (f e). split; [exact Hnew|]. rewrite Hf. exact Hn.
  - intros db lvl msg HP. exact HP.
  - intros db bs HP. exact HP.
Qed.

(** A run of [createStar] changes nothing but the star it is given, the
    pending barycenters and the log. *)
Lemma createStar_preserved star disposition n starData path isBarycenter db r db' :
  createStar star disposition n starData path isBarycenter db = Some (r, db') →
  preserved star db db'.
Proof.
  intros Hrun.
  eapply (keeps_createStar star (λ _, True) _ (preserved_stable star db)); [auto | | exact Hrun].
  apply preserved_refl.
Qed.

(** A successful run of [createStar] for [Add] or [Replace] leaves the
    star with the catalog number it was given. *)
Lemma createStar_index star disposition n starData path isBarycenter db db' :
  is_Modify disposition = false →
  createStar star disposition n starData path isBarycenter db = Some (true, db') →
  hasIndex star n db'.
Proof.
  intros Hd Hrun. unfold createStar in Hrun. rewrite Hd in Hrun. cbn [negb] in Hrun.
  apply bind_inv in Hrun as ([ok bp] & db1 & _ & Hrun).
  destruct ok; cbn [negb] in Hrun; [|discriminate].
  apply bind_inv in Hrun as ([] & db2 & Hset & Hrun).
  apply bind_inv in Hrun as (ok2 & db3 & Hpos & Hrun).
  destruct ok2; cbn [negb] in Hrun; [|discriminate].
  assert (hasIndex star n db2) as H2.
  { apply updateStar_inv in Hset as (e & _ & Hnew & _). exists (setIndex n e).
    split; [exact Hnew | reflexivity]. }
  assert (hasIndex star n db3) as H3.
  { eapply (keeps_resolvePosition star keepsIndex _ (hasIndex_stable star n));
      [intros p s; reflexivity | exact H2 | exact Hpos]. }
  eapply (keeps_resolveMagnitude star keepsIndex _ (hasIndex_stable star n));
    [intros m s; reflexivity | intros e s; reflexivity | exact H3 | exact Hrun].
Qed.

(** *** One block with a known object type and a property list *)

Lemma loadBlock_known resourcePath b starData db :
  knownObjectType b → b_body b = Group starData →
  loadBlock resourcePath b db
  = (target ← resolveTarget (default Add (b_disposition b)) (negb (blockIsBarycenter b))
                (default InvalidIndex (b_catalogNumber b))
                (upToColon (default EmptyString (b_objName b)));
     match target with
     | None => mret false
     | Some (catalogNumber, found) =>
         blockBody resourcePath b starData (default Add (b_disposition b)) catalogNumber found
     end) db.
Proof.
  intros Htype Hbody. unfold loadBlock, blockBody, withCategories, blockIsBarycenter.
  rewrite Hbody.
  destruct Htype as [->| [->| ->]].
  - rewrite bool_decide_eq_false_2 by discriminate. reflexivity.
  - rewrite (bool_decide_eq_true_2 ("Star"%string = "Star"%string)) by reflexivity.
    rewrite bool_decide_eq_false_2 by discriminate. reflexivity.
  - rewrite (bool_decide_eq_false_2 ("Barycenter"%string = "Star"%string)) by discriminate.
    rewrite (bool_decide_eq_true_2 ("Barycenter"%string = "Barycenter"%string)) by reflexivity.
    rewrite bool_decide_eq_true_2 by reflexivity. reflexivity.
Qed.

Lemma renamed_fields catalogNumber objName db :
  unsortedStars (renamed catalogNumber objName db) = unsortedStars db ∧
  nStars (renamed catalogNumber objName db) = nStars db ∧
  stcFileCatalogNumberIndex (renamed catalogNumber objName db)
  = stcFileCatalogNumberIndex db ∧
  barycenters (renamed catalogNumber objName db) = barycenters db.
Proof.
  unfold renamed. destruct (namesDB db); [destruct (negb _)|]; repeat split; reflexivity.
Qed.


(** *** Running the steps of the merge *)

Lemma bind_ret {A B} (a : A) (k : A → M B) db : (mret a ≫= k) db = k a db.
Proof. reflexivity. Qed.

Lemma bind_assoc {A B C} (m : M A) (f : A → M B) (g : B → M C) db :
  ((m ≫= f) ≫= g) db = (m ≫= (λ a, f a ≫= g)) db.
Proof. unfold mbind, M_bind. destruct (m db) as [[a db1]|]; reflexivity. Qed.


Lemma bind_readStar {B} star s (k : Star → M B) db :
  starAt star db = Some s → (readStar star ≫= k) db = k s db.
Proof.
  intros Hs. unfold mbind, M_bind, readStar. destruct star as [p|]; cbn [starAt] in Hs.
  - rewrite Hs. reflexivity.
  - injection Hs as <-. reflexivity.
Qed.

Lemma updateStar_run star f s db :
  starAt star db = Some s → updateStar star f db = Some (tt, afterUpdate star f db).
Proof.
  intros Hs. unfold updateStar, afterUpdate. destruct star as [p|]; cbn [starAt] in Hs.
  - rewrite Hs. reflexivity.
  - reflexivity.
Qed.

Lemma starAt_afterUpdate star f s db :
  starAt star db = Some s → starAt star (afterUpdate star f db) = Some (f s).
Proof.
  intros Hs. destruct star as [p|]; cbn in *.
  - rewrite list_lookup_alter_eq, Hs. reflexivity.
  - injection Hs as <-. reflexivity.
Qed.

Lemma bind_updateStar {B} star f s (k : unit → M B) db :
  starAt star db = Some s →
  (updateStar star f ≫= k) db = k tt (afterUpdate star f db).
Proof.
  intros Hs. unfold mbind, M_bind. rewrite (updateStar_run _ _ _ _ Hs). reflexivity.
Qed.

(** C7 (amended).  For a star (not a barycenter) whose block supplies an
    [Extinction] value: when the magnitude block of [createStar]
    succeeds, the stored extinction coefficient is that value divided by
    the distance of the star from the origin if the distance is not
    zero, and is left as it was if the distance is zero; the absolute
    magnitude is the [AbsMag] of the block when that is given, and
    otherwise the magnitude derived from [AppMag] (or, failing that, the
    magnitude the star had) minus the extinction value itself, not
    divided by the distance, or minus zero at distance zero. *)
Theorem extinction_applied (star : StarPtr) (disposition : DataDisposition)
    (starData : Hash) (extinction : float) (s0 : Star) (db db' : StarDatabase) :
  starAt star db = Some s0 →
  h_Extinction starData = Some extinction →
  resolveMagnitude star disposition starData false db = Some (true, db') →
  ∃ s', starAt star db' = Some s' ∧
    s_position s' = s_position s0 ∧
    s_extinction s'
    = (if F32.eqb (distanceOf s0) F32.zero then s_extinction s0
       else F32.div extinction (distanceOf s0)) ∧
    s_absMag s'
    = match h_AbsMag starData with
      | Some m => m
      | None =>
          F32.sub
            match h_AppMag starData with
            | Some appMag => appToAbsMag appMag (distanceOf s0)
            | None => s_absMag s0
            end
            (if F32.eqb (distanceOf s0) F32.zero then F32.zero else extinction)
      end.
Proof.
  intros Hs Hext Hrun. unfold resolveMagnitude in Hrun. rewrite Hext in Hrun.
  cbn [whenSome] in Hrun. unfold distanceOf.
  assert (∀ (absoluteDefined : bool) (magnitude : option float) s1 db1,
    starAt star db1 = Some s1 → s_position s1 = s_position s0 →
    s_extinction s1 = s_extinction s0 →
    (_ ← whenSome magnitude (λ m, updateStar star (setAbsoluteMagnitude m));
     _ ← (s ← readStar star;
          let distance := norm (s_position s) in
          extinction0 ←
            (if negb (F32.eqb distance F32.zero) then
               _ ← updateStar star (setExtinction (F32.div extinction distance));
               mret extinction
             else mret F32.zero);
          if negb absoluteDefined then
            s ← readStar star;
            updateStar star (setAbsoluteMagnitude (F32.sub (s_absMag s) extinction0))
          else mret tt);
     mret true) db1 = Some (true, db') →
    ∃ s', starAt star db' = Some s' ∧ s_position s' = s_position s0 ∧
      s_extinction s'
      = (if F32.eqb (norm (s_position s0)) F32.zero then s_extinction s0
         else F32.div extinction (norm (s_position s0))) ∧
      s_absMag s'
      = (if absoluteDefined then default (s_absMag s1) magnitude
         else F32.sub (default (s_absMag s1) magnitude)
                (if F32.eqb (norm (s_position s0)) F32.zero then F32.zero else extinction)))
    as Hrest.
  { intros absoluteDefined magnitude s1 db1 Hs1 Hp1 He1 Hgo.
    assert (∃ s2 db2, starAt star db2 = Some s2 ∧ s_position s2 = s_position s0 ∧
              s_extinction s2 = s_extinction s0 ∧
              s_absMag s2 = default (s_absMag s1) magnitude ∧
              (∀ B (k : unit → M B),
                 (whenSome magnitude (λ m, updateStar star (setAbsoluteMagnitude m)) ≫= k) db1
                 = k tt db2)) as (s2 & db2 & Hs2 & Hp2 & He2 & Hm2 & Hk2).
    { destruct magnitude as [m|]; cbn [whenSome default].
      - exists (setAbsoluteMagnitude m s1), (afterUpdate star (setAbsoluteMagnitude m) db1).
        split; [apply starAt_afterUpdate; exact Hs1|].
        repeat split; try assumption.
        intros B k. apply (bind_updateStar _ _ _ _ _ Hs1).
      - exists s1, db1. repeat split; try assumption. }
    rewrite Hk2 in Hgo. rewrite bind_assoc in Hgo.
    rewrite (bind_readStar _ _ _ _ Hs2) in Hgo. cbv zeta in Hgo.
    rewrite Hp2 in Hgo.
    destruct (F32.eqb (norm (s_position s0)) F32.zero) eqn:Hz; cbn [negb] in Hgo.
    - rewrite bind_assoc, bind_ret in Hgo.
      destruct absoluteDefined; cbn [negb] in Hgo.
      + rewrite bind_ret in Hgo. injection Hgo as <-.
        exists s2. repeat split; assumption.
      + rewrite bind_assoc in Hgo. rewrite (bind_readStar _ _ _ _ Hs2) in Hgo.
        rewrite (bind_updateStar _ _ _ _ _ Hs2) in Hgo. injection Hgo as <-.
        eexists. split; [apply starAt_afterUpdate; exact Hs2|].
        cbn. rewrite Hm2. repeat split; assumption.
    - rewrite !bind_assoc in Hgo. rewrite (bind_updateStar _ _ _ _ _ Hs2) in Hgo.
      rewrite bind_ret in Hgo.
      pose proof (starAt_afterUpdate star (setExtinction (F32.div extinction (norm (s_position s0))))
                    _ _ Hs2) as Hs3.
      destruct absoluteDefined; cbn [negb] in Hgo.
      + rewrite bind_ret in Hgo. injection Hgo as <-.
        eexists. split; [exact Hs3|]. cbn. repeat split; assumption.
      + rewrite bind_assoc in Hgo. rewrite (bind_readStar _ _ _ _ Hs3) in Hgo.
        rewrite (bind_updateStar _ _ _ _ _ Hs3) in Hgo. injection Hgo as <-.
        eexists. split; [apply starAt_afterUpdate; exact Hs3|].
        cbn. rewrite Hm2. repeat split; assumption. }
  destruct (h_AbsMag starData) as [m|].
  - destruct (Hrest true (Some m) s0 db Hs eq_refl eq_refl Hrun) as (s' & H1 & H2 & H3 & H4).
    exists s'. repeat split; assumption.
  - destruct (h_AppMag starData) as [appMag|].
    + rewrite (bind_readStar _ _ _ _ Hs) in Hrun. cbv zeta in Hrun.
      destruct (F32.ltb _ _); [discriminate|].
      destruct (Hrest false (Some (appToAbsMag appMag (norm (s_position s0)))) s0 db Hs
                  eq_refl eq_refl Hrun) as (s' & H1 & H2 & H3 & H4).
      exists s'. repeat split; assumption.
    + destruct (negb (is_Modify disposition)); [discriminate|].
      destruct (Hrest false None s0 db Hs eq_refl eq_refl Hrun) as (s' & H1 & H2 & H3 & H4).
      exists s'. repeat split; assumption.
Qed.

(** *** A block whose barycenter is not loaded *)

Lemma total_ret {A} (P : StarDatabase → Prop) (a : A) (Q : A → StarDatabase → Prop) :
  (∀ db, P db → Q a db) → total P (mret a) Q.
Proof. intros HPQ db HP. exists a, db. split; [reflexivity | apply HPQ; exact HP]. Qed.

Lemma total_bind {A B} P (m : M A) (R : A → StarDatabase → Prop) (f : A → M B) Q :
  total P m R → (∀ a, total (R a) (f a) Q) → total P (m ≫= f) Q.
Proof.
  intros Hm Hf db HP. destruct (Hm db HP) as (a & db1 & Hrun & HR).
  destruct (Hf a db1 HR) as (b & db2 & Hrun2 & HQ).
  exists b, db2. split; [|exact HQ]. unfold mbind, M_bind. rewrite Hrun. exact Hrun2.
Qed.

Lemma total_pre {A} (P P' : StarDatabase → Prop) (m : M A) Q :
  (∀ db, P' db → P db) → total P m Q → total P' m Q.
Proof. intros HP Hm db HP'. apply Hm, HP, HP'. Qed.

Lemma total_post {A} P (m : M A) (Q Q' : A → StarDatabase → Prop) :
  (∀ a db, Q a db → Q' a db) → total P m Q → total P m Q'.
Proof.
  intros HQ Hm db HP. destruct (Hm db HP) as (a & db' & Hrun & Hq).
  exists a, db'. split; [exact Hrun | apply HQ; exact Hq].
Qed.

Lemma indexAt_alter f p mem q :
  keepsIndex f → indexAt (alter f p mem) q = indexAt mem q.
Proof.
  intros Hf. unfold indexAt. rewrite list_lookup_alter.
  case_decide; [subst|reflexivity]. destruct (mem !! q); [apply Hf | reflexivity].
Qed.

Lemma framed_afterUpdate star db0 db f :
  keepsIndex f → framed star db0 db → framed star db0 (afterUpdate star f db).
Proof.
  intros Hf (Hp & Hi & e & He). split; [|split].
  - eapply (st_update _ _ _ (preserved_stable star db0)); [exact I | exact Hp |].
    eapply updateStar_run. exact He.
  - intros q. rewrite <- Hi. destruct star as [p|]; cbn; [apply indexAt_alter; exact Hf | reflexivity].
  - exists (f e). apply starAt_afterUpdate. exact He.
Qed.

Lemma total_updateDetails star db0 bs f :
  total (J star db0 bs) (updateDetails star f) (λ _, J star db0 bs).
Proof.
  intros db (Hf & (e & d & He & Hd) & Hb). unfold updateDetails.
  rewrite (bind_readStar _ _ _ _ He), Hd.
  rewrite (updateStar_run _ _ _ _ He). eexists tt, _. split; [reflexivity|].
  split; [apply framed_afterUpdate; [intros s; reflexivity | exact Hf]|].
  split.
  - exists (setDetails (Some (f d)) e), (f d). split; [|reflexivity].
    apply starAt_afterUpdate. exact He.
  - destruct star; exact Hb.
Qed.

Lemma total_whenSome {A} P (o : option A) (body : A → M unit) :
  (∀ a, total P (body a) (λ _, P)) → total P (whenSome o body) (λ _, P).
Proof. intros Hb. destruct o; [apply Hb | apply total_ret; auto]. Qed.


Lemma hasCustomDetails_orbit starData o :
  h_Orbit starData = Some o →
  hasCustomDetails (parseCustomStarDetails starData) = true ∧
  orbit (parseCustomStarDetails starData) = Some o.
Proof.
  intros Ho. unfold parseCustomStarDetails. cbn [hasCustomDetails orbit]. rewrite Ho.
  split; [|reflexivity].
  rewrite (bool_decide_eq_true_2 (is_Some (Some o))) by eauto.
  generalize (bool_decide (is_Some (h_Mesh starData))),
             (bool_decide (is_Some (h_Texture starData))),
             (bool_decide (is_Some (h_RotationModel starData))),
             (bool_decide (is_Some (h_SemiAxes starData))),
             (bool_decide (is_Some (h_Radius starData))),
             (F64.ltb F64.zero (default F64.zero (h_Temperature starData))),
             (bool_decide (is_Some (h_BoloCorrection starData))),
             (bool_decide (is_Some (h_InfoURL starData))).
  intros b1 b2 b3 b4 b5 b6 b7 b8.
  destruct b1, b2, b3, b4, b5, b6, b7, b8; reflexivity.
Qed.

(** [findWhileLoading] reads the load-time indexes and the catalog
    numbers of the stars. *)
Lemma findWhileLoading_ext db1 db2 n :
  binFileCatalogNumberIndex db1 = binFileCatalogNumberIndex db2 →
  binFileStarCount db1 = binFileStarCount db2 →
  stcFileCatalogNumberIndex db1 = stcFileCatalogNumberIndex db2 →
  (∀ q, indexAt (unsortedStars db1) q = indexAt (unsortedStars db2) q) →
  findWhileLoading db1 n = findWhileLoading db2 n.
Proof.
  intros Hb Hc Hs Hi. unfold findWhileLoading, lower_bound. rewrite Hb, Hc, Hs.
  destruct (binFileCatalogNumberIndex db2) as [arr|]; [|reflexivity].
  rewrite (lower_bound_loop_ext _ _ arr n Hi).
  destruct (arr !! _) as [p|]; [|reflexivity]. rewrite Hi. reflexivity.
Qed.

Lemma findCatalogNumberByName_ext db1 db2 name i18n :
  namesDB db1 = namesDB db2 → crossIndexes db1 = crossIndexes db2 →
  xheap db1 = xheap db2 →
  findCatalogNumberByName db1 name i18n = findCatalogNumberByName db2 name i18n.
Proof.
  intros Hn Hc Hx. unfold findCatalogNumberByName, searchCrossIndexForCatalogNumber.
  rewrite Hn, Hc, Hx. reflexivity.
Qed.

Lemma framed_lookups star db0 db n name i18n :
  framed star db0 db →
  findWhileLoading db n = findWhileLoading db0 n ∧
  findCatalogNumberByName db name i18n = findCatalogNumberByName db0 name i18n.
Proof.
  intros ((Hv & _) & Hi & _). injection Hv as _ _ _ Hn Hc Hx Hb Hbc Hs _.
  split; [apply findWhileLoading_ext | apply findCatalogNumberByName_ext]; assumption.
Qed.

Lemma bind_getDB {B} (k : StarDatabase → M B) db : (getDB ≫= k) db = k db db.
Proof. reflexivity. Qed.

Lemma bind_modifyDB {B} f (k : unit → M B) db : (modifyDB f ≫= k) db = k tt (f db).
Proof. reflexivity. Qed.

Lemma bind_liftOption {A B} (o : option A) a (k : A → M B) db :
  o = Some a → (liftOption o ≫= k) db = k a db.
Proof. intros ->. reflexivity. Qed.

Section Missing.
Context (star : StarPtr) (db0 : StarDatabase) (n bnum o : N) (starData : Hash).
Hypothesis Horbit : h_Orbit starData = Some o.
Hypothesis Hreference :
  h_OrbitBarycenter starData = Some (inr bnum) ∨
  ∃ name, h_OrbitBarycenter starData = Some (inl name) ∧
          findCatalogNumberByName db0 name false = Some bnum.
Hypothesis Hvalid : bnum ≠ InvalidIndex.
Hypothesis Hmissing : findWhileLoading db0 bnum = None.




End Missing.

(** [resolveTarget] writes the automatic catalog number and the log only. *)
Lemma resolveTarget_inv disposition isStar catalogNumber firstName db r db' :
  resolveTarget disposition isStar catalogNumber firstName db = Some (r, db') →
  ∃ next lg, db' = set_log lg (set_nextAutoCatalogNumber next db).
Proof.
  assert (∃ next lg, db = set_log lg (set_nextAutoCatalogNumber next db)) as Hsame
    by (exists (nextAutoCatalogNumber db), (log db); destruct db; reflexivity).
  assert (∀ r' db'', takeAutoCatalogNumber db = Some (r', db'') →
            ∃ next lg, db'' = set_log lg (set_nextAutoCatalogNumber next db)) as Htake.
  { intros r' db'' [= _ <-].
    exists (wrap32 (nextAutoCatalogNumber db + UINT32_MAX)), (log db).
    destruct db; reflexivity. }
  unfold resolveTarget. destruct disposition.
  - destruct (bool_decide (catalogNumber = InvalidIndex)).
    + destruct (negb isStar && _).
      * intros [= _ <-].
        exists (nextAutoCatalogNumber db),
               (log db ++ [(LError, "Bad barycenter: neither catalog number nor name set at line {}."%string)]).
        destruct db; reflexivity.
      * intros Hrun. apply bind_inv in Hrun as (a & db1 & Ht & [= _ <-]). eapply Htake, Ht.
    + intros [= _ <-]. exact Hsame.
  - intros Hrun. apply bind_inv in Hrun as (c & db1 & Hc & Hrun).
    assert (db1 = db) as ->.
    { destruct (_ && _) in Hc.
      - apply bind_inv in Hc as (dbx & db2 & [= <- <-] & Hl).
        unfold liftOption in Hl. destruct (findCatalogNumberByName _ _ _); [|discriminate].
        injection Hl as _ <-. reflexivity.
      - injection Hc as _ <-. reflexivity. }
    destruct (bool_decide (c = InvalidIndex)).
    + apply bind_inv in Hrun as (a & db1 & Ht & [= _ <-]). eapply Htake, Ht.
    + injection Hrun as _ <-. exact Hsame.
  - intros Hrun. apply bind_inv in Hrun as (c & db1 & Hc & Hrun).
    assert (db1 = db) as ->.
    { destruct (_ && _) in Hc.
      - apply bind_inv in Hc as (dbx & db2 & [= <- <-] & Hl).
        unfold liftOption in Hl. destruct (findCatalogNumberByName _ _ _); [|discriminate].
        injection Hl as _ <-. reflexivity.
      - injection Hc as _ <-. reflexivity. }
    destruct (bool_decide (c ≠ InvalidIndex)); injection Hrun as _ <-; exact Hsame.
Qed.


End Merge.

(** ** Catalog numbers of the Tycho scheme *)

Section Tycho.
Import CatalogNumbers.

(** Where the sum does not pass [UINT32_MAX], the three numbers printed
    for a packed Tycho number are the three numbers packed. *)
Lemma tychoParts_packTycho (tyc1 tyc2 tyc3 : N) :
  tyc1 < TYC2_MULTIPLIER →
  tyc2 * TYC2_MULTIPLIER + tyc1 < TYC3_MULTIPLIER →
  tyc3 * TYC3_MULTIPLIER + tyc2 * TYC2_MULTIPLIER + tyc1 < UINT32_MOD →
  tychoParts (packTycho tyc1 tyc2 tyc3) = (tyc1, tyc2, tyc3).
Proof.
  unfold tychoParts, packTycho, wrap32, TYC2_MULTIPLIER, TYC3_MULTIPLIER, UINT32_MOD.
  intros H1 H2 H3.
  rewrite (N.mod_small (tyc3 * 1000000000)) by lia.
  rewrite (N.mod_small (tyc2 * 10000)) by lia.
  rewrite (N.mod_small (tyc3 * 1000000000 + tyc2 * 10000)) by lia.
  rewrite (N.mod_small (tyc3 * 1000000000 + tyc2 * 10000 + tyc1)) by lia.
  assert ((tyc3 * 1000000000 + tyc2 * 10000 + tyc1) / 1000000000 = tyc3) as ->
    by (symmetry; apply (N.div_unique _ _ _ (tyc2 * 10000 + tyc1)); lia).
  rewrite (N.mod_small (tyc3 * 1000000000)) by lia.
  assert ((tyc3 * 1000000000 + tyc2 * 10000 + tyc1 + 4294967296 - tyc3 * 1000000000)
            mod 4294967296 = tyc2 * 10000 + tyc1) as ->
    by (symmetry; apply (N.mod_unique _ _ 1); lia).
  assert ((tyc2 * 10000 + tyc1) / 10000 = tyc2) as ->
    by (symmetry; apply (N.div_unique _ _ _ tyc1); lia).
  rewrite (N.mod_small (tyc2 * 10000)) by lia.
  assert ((tyc2 * 10000 + tyc1 + 4294967296 - tyc2 * 10000) mod 4294967296 = tyc1) as ->
    by (symmetry; apply (N.mod_unique _ _ 1); lia).
  reflexivity.
Qed.

(** C5 (as the code behaves).  The string [TYC 1-29497-4] is within the
    ranges that [parseTychoCatalogNumber] accepts, but the sum
    [4 * 1000000000 + 29497 * 10000 + 1] does not fit 32 bits: the parser
    succeeds with the wrapped number 2705, and [catalogNumberToString]
    gives for it a name other than the one parsed, whatever the Hipparcos
    ceiling is. *)
Theorem tycho_packing_overflow :
  parseTychoCatalogNumber "TYC 1-29497-4" = Some 2705 ∧
  4 * TYC3_MULTIPLIER + 29497 * TYC2_MULTIPLIER + 1 = UINT32_MOD + 2705 ∧
  tychoParts 2705 = (2705, 0, 0) ∧
  ∀ max_hipparcos,
    catalogNumberToString max_hipparcos 2705 ≠ "TYC 1-29497-4"%string.
Proof.
  split; [vm_compute; reflexivity|].
  split; [vm_compute; reflexivity|].
  split; [vm_compute; reflexivity|].
  intros max_hipparcos. unfold catalogNumberToString.
  destruct (2705 <=? max_hipparcos); vm_compute; discriminate.
Qed.

End Tycho.

(** ** Runs on concrete inputs *)

Section Runs.
Import Sample.

(** Two stars of distinct numbers: [finish] indexes them and [find]
    finds them. *)
Lemma find_after_finish_witness :
  finish false (databaseOf [starOnAxis 7 1 0; starOnAxis 3 2 0])
  = Some (finished (databaseOf [starOnAxis 7 1 0; starOnAxis 3 2 0])) ∧
  catalogNumberIndex (finished (databaseOf [starOnAxis 7 1 0; starOnAxis 3 2 0])) = [1%nat; 0%nat] ∧
  ∀ n p, find (finished (databaseOf [starOnAxis 7 1 0; starOnAxis 3 2 0])) n = Some p →
         ∃ e, stars (finished (databaseOf [starOnAxis 7 1 0; starOnAxis 3 2 0])) !! p = Some e ∧
              getIndex e = n.
Proof.
  assert (finish false (databaseOf [starOnAxis 7 1 0; starOnAxis 3 2 0])
          = Some (finished (databaseOf [starOnAxis 7 1 0; starOnAxis 3 2 0]))) as Hfin
    by (vm_compute; reflexivity).
  split; [exact Hfin|]. split; [vm_compute; reflexivity|].
  exact (proj1 (proj2 (proj2 (find_after_finish false _ _ Hfin)))).
Defined.

(** C1, as stated, fails on a binary file with two records of one
    number: both become finalized stars, the index holds the number 5
    twice, and [find] returns the first of the two stars for the number
    of the second. *)
Lemma find_misses_duplicate :
  ∃ in' db1 db' e0 e1,
    loadBinary (stream_of duplicateFile) emptyDatabase = Some (true, in', db1) ∧
    finish false db1 = Some db' ∧
    stars db' !! 0%nat = Some e0 ∧ stars db' !! 1%nat = Some e1 ∧ e0 ≠ e1 ∧
    getIndex e1 = 5 ∧ find db' (getIndex e1) = Some 0%nat ∧
    indexAt (stars db') <$> catalogNumberIndex db' = [5; 5].
Proof.
  do 5 eexists.
  split; [vm_compute; reflexivity|].
  split; [vm_compute; reflexivity|].
  split; [vm_compute; reflexivity|].
  split; [vm_compute; reflexivity|].
  split; [intros Heq; vm_compute in Heq; discriminate|].
  split; [vm_compute; reflexivity|].
  split; vm_compute; reflexivity.
Qed.

(** A table for Henry Draper numbers is loaded and answers; a reload
    from an empty stream fails and leaves the slot pointing to the
    deleted table. *)
Lemma loadCrossIndex_failed_reload_witness :
  searchCrossIndexForCatalogNumber withCrossIndex HenryDraper 7 = Some 5 ∧
  ∃ in' db',
    loadCrossIndex HenryDraper (stream_of []) withCrossIndex = Some (false, in', db') ∧
    crossIndexes db' !! HenryDraper = Some (Some 0%nat) ∧
    xheap db' !! 0%nat = Some XFreed ∧
    ∀ number, searchCrossIndexForCatalogNumber db' HenryDraper number = None.
Proof.
  split; [vm_compute; reflexivity|].
  eexists _, _.
  assert (loadCrossIndex HenryDraper (stream_of []) withCrossIndex
          = Some (false, (is_read 10 (stream_of [])).2,
                  set_xheap (<[0%nat := XFreed]> (xheap withCrossIndex)) withCrossIndex))
    as Hload by (vm_compute; reflexivity).
  split; [exact Hload|].
  apply (loadCrossIndex_failed_reload HenryDraper 0 [mkXEntry 7 5] (stream_of [])
           (is_read 10 (stream_of [])).2 withCrossIndex _);
    [vm_compute; reflexivity | vm_compute; reflexivity | exact Hload].
Defined.


(** A [Modify] block for the number 77, which no loaded star has. *)
Lemma modify_missing_target_witness :
  ∃ db',
    loadBlock "" (blockOf (Some Modify) 77 plainHash) loadedBinary = Some (true, db') ∧
    unsortedStars db' = unsortedStars loadedBinary ∧ nStars db' = 2%nat ∧
    load "" [blockOf (Some Modify) 77 plainHash; blockOf None 6 plainHash] loadedBinary
    = load "" [blockOf None 6 plainHash] db'.
Proof.
  assert (blockNumber loadedBinary (blockOf (Some Modify) 77 plainHash) = Some 77) as Hnum
    by (vm_compute; reflexivity).
  assert (findWhileLoading loadedBinary 77 = None) as Hmiss by (vm_compute; reflexivity).
  destruct (modify_missing_target "" (blockOf (Some Modify) 77 plainHash) plainHash 77
              loadedBinary [blockOf None 6 plainHash]
              eq_refl (or_introl eq_refl) eq_refl Hnum (or_intror Hmiss))
    as (db' & Hrun & _ & Hu & Hn & _ & _ & _ & Hload).
  exists db'. split; [exact Hrun|]. split; [exact Hu|]. split; [exact Hn | exact Hload].
Defined.

(** A well-formed file of two records is accepted; the conditions of
    the theorem hold of it. *)
Lemma loadBinary_accepts_iff_witness :
  is_good (stream_of twoStarFile) = true ∧
  ∃ in' db',
    loadBinary (stream_of twoStarFile) emptyDatabase = Some (true, in', db') ∧
    headerOk twoStarFile ∧ declaredCount twoStarFile = 2%nat ∧
    recordsDecodable 2 (drop 14 twoStarFile).
Proof.
  split; [reflexivity|].
  destruct (loadBinary_accepts_iff (stream_of twoStarFile) emptyDatabase eq_refl)
    as (ok & in' & db' & Hrun & Hiff).
  assert (ok = true) as ->.
  { assert (loadBinary (stream_of twoStarFile) emptyDatabase
            = Some (true, (IStream [] false false false false 40), loadedBinary)) as Hc
      by (vm_compute; reflexivity).
    rewrite Hc in Hrun. injection Hrun as <- _ _. reflexivity. }
  exists in', db'. split; [exact Hrun|].
  destruct (proj1 Hiff eq_refl) as (Hh & _ & Hd).
  split; [exact Hh|]. split; [vm_compute; reflexivity | exact Hd].
Defined.

(** C6, as stated, fails twice.  A stream with a good header that
    announces one record and continues with 18 bytes holds (by the
    claim's count) one complete record, but [loadBinary] wants 20 bytes
    and rejects it.  A stream with a good header and one complete record
    of 20 bytes is rejected when the spectral code of the record has no
    star details. *)
Lemma loadBinary_rejects_claimed_streams :
  (headerOk (starsHeader x01 ++ take 18 (starRecord x05 x01 x00)) ∧
   declaredCount (starsHeader x01 ++ take 18 (starRecord x05 x01 x00)) = 1%nat ∧
   (18 * 1 ≤ length (starsHeader x01 ++ take 18 (starRecord x05 x01 x00)) - 14)%nat ∧
   ∃ in' db',
     loadBinary (stream_of (starsHeader x01 ++ take 18 (starRecord x05 x01 x00)))
                emptyDatabase = Some (false, in', db')) ∧
  (headerOk (starsHeader x01 ++ starRecord x05 x01 x40) ∧
   declaredCount (starsHeader x01 ++ starRecord x05 x01 x40) = 1%nat ∧
   (20 * 1 ≤ length (starsHeader x01 ++ starRecord x05 x01 x40) - 14)%nat ∧
   ∃ in' db',
     loadBinary (stream_of (starsHeader x01 ++ starRecord x05 x01 x40))
                emptyDatabase = Some (false, in', db')).
Proof.
  split.
  - split; [repeat split; vm_compute; try reflexivity; lia|].
    split; [vm_compute; reflexivity|].
    split; [vm_compute; lia|].
    eexists _, _. vm_compute. reflexivity.
  - split; [repeat split; vm_compute; try reflexivity; lia|].
    split; [vm_compute; reflexivity|].
    split; [vm_compute; lia|].
    eexists _, _. vm_compute. reflexivity.
Qed.

(** A file that loads still loads, in the same way, with two bytes
    appended. *)
Lemma loadBinary_surplus_witness :
  ∃ in',
    loadBinary (stream_of twoStarFile) emptyDatabase = Some (true, in', loadedBinary) ∧
    loadBinary (stream_of (twoStarFile ++ [x01; x02])) emptyDatabase
    = Some (true, append_data in' [x01; x02], loadedBinary) ∧
    is_data (append_data in' [x01; x02]) = [x01; x02] ∧
    length (unsortedStars loadedBinary) = 2%nat.
Proof.
  eexists.
  assert (loadBinary (stream_of twoStarFile) emptyDatabase
          = Some (true, IStream [] false false false false 40, loadedBinary)) as Hrun
    by (vm_compute; reflexivity).
  split; [exact Hrun|].
  destruct (loadBinary_surplus (stream_of twoStarFile) _ emptyDatabase loadedBinary
              [x01; x02] Hrun) as (Hmore & Hdata & Hcount).
  split; [exact Hmore|]. split; [reflexivity|]. vm_compute. reflexivity.
Defined.

(** A star at distance 2 of magnitude 5, modified by a block that gives
    an extinction of 1 and nothing else. *)
Lemma extinction_applied_witness :
  ∃ db' s',
    resolveMagnitude OnHeap Modify extinctionHash false
                     (set_heapStar (starOnAxis 5 2 5) emptyDatabase) = Some (true, db') ∧
    starAt OnHeap db' = Some s' ∧
    s_extinction s' = F32.div (F32.of_Z 1) (F32.of_Z 2) ∧
    s_absMag s' = F32.of_Z 4.
Proof.
  assert (resolveMagnitude OnHeap Modify extinctionHash false
            (set_heapStar (starOnAxis 5 2 5) emptyDatabase)
          = Some (true,
                  set_heapStar
                    (setAbsoluteMagnitude (F32.of_Z 4)
                       (setExtinction (F32.div (F32.of_Z 1) (F32.of_Z 2)) (starOnAxis 5 2 5)))
                    emptyDatabase)) as Hrun by (vm_compute; reflexivity).
  destruct (extinction_applied OnHeap Modify extinctionHash (F32.of_Z 1) (starOnAxis 5 2 5)
              (set_heapStar (starOnAxis 5 2 5) emptyDatabase) _ eq_refl eq_refl Hrun)
    as (s' & Hs' & _ & Hext & Hmag).
  eexists _, s'. split; [exact Hrun|]. split; [exact Hs'|].
  split; [rewrite Hext; vm_compute; reflexivity | rewrite Hmag; vm_compute; reflexivity].
Defined.

(** C7, as stated, fails.  A star is added at distance 2 with magnitude
    5 and then modified by a block that gives an extinction of 1: the
    magnitude becomes 5 - 1, not 5 - 1/2.  When the block gives [AbsMag]
    too, nothing is subtracted.  At distance zero the stored extinction
    coefficient is left as it was, here 1/2, and not set to zero. *)
Lemma extinction_not_scaled :
  (∃ db' e,
     load "" [blockOf None 5
                (hashOf (Some "G2V"%string) (Some (Vec3f (F32.of_Z 2) F32.zero F32.zero))
                        (Some (F32.of_Z 5)) None None);
              blockOf (Some Modify) 5 extinctionHash] emptyDatabase
     = Some (true, db') ∧
     unsortedStars db' !! 0%nat = Some e ∧
     distanceOf e = F32.of_Z 2 ∧
     s_extinction e = F32.div (F32.of_Z 1) (F32.of_Z 2) ∧
     s_absMag e = F32.sub (F32.of_Z 5) (F32.of_Z 1) ∧
     s_absMag e ≠ F32.sub (F32.of_Z 5) (F32.div (F32.of_Z 1) (F32.of_Z 2))) ∧
  (∃ db' s',
     resolveMagnitude OnHeap Add
       (hashOf None None (Some (F32.of_Z 5)) None (Some (F32.of_Z 1))) false
       (set_heapStar (starOnAxis 5 2 0) emptyDatabase) = Some (true, db') ∧
     starAt OnHeap db' = Some s' ∧
     s_extinction s' = F32.div (F32.of_Z 1) (F32.of_Z 2) ∧
     s_absMag s' = F32.of_Z 5) ∧
  (∃ db' s',
     resolveMagnitude OnHeap Modify extinctionHash false
       (set_heapStar (setExtinction (F32.div (F32.of_Z 1) (F32.of_Z 2)) (starOnAxis 5 0 5))
                     emptyDatabase) = Some (true, db') ∧
     starAt OnHeap db' = Some s' ∧
     distanceOf s' = F32.zero ∧
     s_extinction s' = F32.div (F32.of_Z 1) (F32.of_Z 2) ∧
     s_extinction s' ≠ F32.zero).
Proof.
  split; [|split].
  - eexists _, _. split; [vm_compute; reflexivity|].
    split; [vm_compute; reflexivity|].
    split; [vm_compute; reflexivity|].
    split; [vm_compute; reflexivity|].
    split; [vm_compute; reflexivity|].
    vm_compute. discriminate.
  - eexists _, _. split; [vm_compute; reflexivity|].
    split; [vm_compute; reflexivity|].
    split; vm_compute; reflexivity.
  - eexists _, _. split; [vm_compute; reflexivity|].
    split; [vm_compute; reflexivity|].
    split; [vm_compute; reflexivity|].
    split; [vm_compute; reflexivity|].
    vm_compute. discriminate.
Qed.


(** C8, as stated, fails.  The rejected block above leaves the pair
    (6, 42) pending, and neither number belongs to a finalized star.
    Without assertions [finish] completes and logs only its five fixed
    messages, nothing about the pair; with assertions it stops. *)
Lemma finish_unresolved_silent :
  ∃ db1 db',
    load "" [blockOf None 6 (orbitingHash 42)] loadedBinary = Some (true, db1) ∧
    barycenters db1 = [mkUsage 6 42] ∧
    finish false db1 = Some db' ∧
    find db' 6 = None ∧ find db' 42 = None ∧
    log db' = log db1 ++ finishMessages ∧
    finish true db1 = None.
Proof.
  eexists _, _.
  split; [vm_compute; reflexivity|].
  split; [vm_compute; reflexivity|].
  split; [vm_compute; reflexivity|].
  split; [vm_compute; reflexivity|].
  split; [vm_compute; reflexivity|].
  split; vm_compute; reflexivity.
Qed.

End Runs.

(** ** Names and numbers *)

Section Names.
Import Strs CatalogNumbers.

Lemma uint_value_pos d : ∀ p, uint_value d (Npos p) = Npos (Pos.of_uint_acc d p).
Proof.
  induction d; intros p; cbn [uint_value Pos.of_uint_acc]; try reflexivity;
    rewrite <- IHd; f_equal; lia.
Qed.

Lemma uint_value_zero d : uint_value d 0 = N.of_uint d.
Proof.
  unfold N.of_uint.
  induction d; cbn [uint_value Pos.of_uint]; try reflexivity;
    try (change (10 * 0 + _) with 1 || idtac; apply uint_value_pos).
  exact IHd.
Qed.

Lemma append_nil_l (s : string) : (EmptyString ++ s)%string = s.
Proof. reflexivity. Qed.

Lemma append_cons (c : ascii) (s t : string) :
  (String c s ++ t)%string = String c (s ++ t)%string.
Proof. reflexivity. Qed.

Lemma scan_digits_uint d :
  ∀ acc rest, no_digit_ahead rest →
    scan_digits (NilEmpty.string_of_uint d ++ rest)%string acc = (uint_value d acc, rest).
Proof.
  induction d; intros acc rest Hrest; cbn [NilEmpty.string_of_uint uint_value];
    rewrite ?append_cons, ?append_nil_l; cbn [scan_digits].
  1: { destruct rest as [|c r]; [reflexivity|]. cbn [scan_digits]. change (is_digit c = false) in Hrest. rewrite Hrest. reflexivity. }
  all: change (is_digit _) with true; cbv iota; rewrite IHd by exact Hrest; f_equal.
  all: rewrite ?N.add_0_r; reflexivity.
Qed.

Lemma to_uint_not_Nil n : N.to_uint n ≠ Decimal.Nil.
Proof.
  destruct n as [|p]; [discriminate|]. apply DecimalPos.Unsigned.to_uint_nonnil.
Qed.

Lemma fmt_uint_digits n : fmt_uint n = NilEmpty.string_of_uint (N.to_uint n).
Proof.
  unfold fmt_uint, NilZero.string_of_uint.
  pose proof (to_uint_not_Nil n) as Hn. destruct (N.to_uint n); [contradiction|..]; reflexivity.
Qed.

Lemma fmt_uint_head n : ∃ c r, fmt_uint n = String c r ∧ is_digit c = true.
Proof.
  rewrite fmt_uint_digits. pose proof (to_uint_not_Nil n) as Hn.
  destruct (N.to_uint n); [contradiction|..]; cbn [NilEmpty.string_of_uint]; eauto.
Qed.

Lemma scan_digits_fmt_uint n rest :
  no_digit_ahead rest → scan_digits (fmt_uint n ++ rest)%string 0 = (n, rest).
Proof.
  intros Hrest. rewrite fmt_uint_digits, scan_digits_uint by exact Hrest.
  rewrite uint_value_zero, DecimalN.Unsigned.of_to. reflexivity.
Qed.

(** [from_chars] reads back what [fmt::format] prints, up to the first
    character that is not a digit. *)
Lemma from_chars_fmt_uint n rest :
  no_digit_ahead rest →
  from_chars (fmt_uint n ++ rest)%string
  = if n <=? UINT32_MAX then FromChars rest errc_ok n
    else FromChars rest result_out_of_range 0.
Proof.
  intros Hrest. unfold from_chars.
  pose proof (scan_digits_fmt_uint n rest Hrest) as Hscan.
  destruct (fmt_uint_head n) as (c & r & Hfmt & Hc).
  rewrite Hfmt in Hscan |- *. rewrite append_cons in Hscan |- *.
  rewrite Hc, Hscan. reflexivity.
Qed.

Lemma append_nil_r (s : string) : (s ++ EmptyString)%string = s.
Proof. induction s as [|c s IH]; [reflexivity|]. rewrite append_cons, IH. reflexivity. Qed.

Lemma append_assoc (s t u : string) : ((s ++ t) ++ u = s ++ (t ++ u))%string.
Proof.
  induction s as [|c s IH]; [reflexivity|]. rewrite !append_cons, IH. reflexivity.
Qed.

Lemma blank_not_digit c : is_blank c = true → is_digit c = false.
Proof.
  unfold is_blank, is_digit. intros Hb. apply orb_true_iff in Hb.
  destruct Hb as [Hb|Hb]; apply N.eqb_eq in Hb; rewrite Hb; reflexivity.
Qed.

Lemma digit_not_blank c : is_digit c = true → is_blank c = false.
Proof.
  intros Hd. destruct (is_blank c) eqn:Hb; [|reflexivity].
  rewrite (blank_not_digit c Hb) in Hd. discriminate.
Qed.

Lemma find_first_not_of_blank_None s :
  find_first_not_of_blank s = None ↔ all_blank s = true.
Proof.
  induction s as [|c s IH]; cbn [find_first_not_of_blank all_blank]; [tauto|].
  destruct (is_blank c); cbn [andb]; [exact IH|]. split; discriminate.
Qed.

Lemma find_first_not_of_blank_skip ws s :
  all_blank ws = true →
  find_first_not_of_blank (ws ++ s)%string = find_first_not_of_blank s.
Proof.
  induction ws as [|c ws IH]; [reflexivity|]. cbn [all_blank]. intros Hb.
  apply andb_true_iff in Hb as [Hc Hws]. rewrite append_cons.
  cbn [find_first_not_of_blank]. rewrite Hc. apply IH. exact Hws.
Qed.

Lemma find_first_not_of_blank_fmt_uint n tail :
  find_first_not_of_blank (fmt_uint n ++ tail)%string = Some (fmt_uint n ++ tail)%string.
Proof.
  destruct (fmt_uint_head n) as (c & r & -> & Hc). rewrite append_cons.
  cbn [find_first_not_of_blank]. rewrite (digit_not_blank c Hc). reflexivity.
Qed.

Lemma compareIgnoringCase_app p x :
  ∀ prefix, String.length p = String.length prefix →
    compareIgnoringCase (p ++ x)%string prefix (String.length prefix)
    = compareIgnoringCase p prefix (String.length prefix).
Proof.
  induction p as [|c p IH]; intros [|d prefix] Hlen; try discriminate; [rewrite append_nil_l; destruct x; reflexivity|].
  rewrite append_cons. cbn [String.length compareIgnoringCase].
  destruct (Ascii.eqb _ _); [|reflexivity]. apply IH. injection Hlen as Hlen. exact Hlen.
Qed.

Lemma drop_chars_app p x : drop_chars (String.length p) (p ++ x)%string = x.
Proof.
  induction p as [|c p IH]; [rewrite append_nil_l; destruct x; reflexivity|].
  rewrite append_cons. cbn [String.length drop_chars]. exact IH.
Qed.

(** X1.  [parseSimpleCatalogNumber] on a name made of the prefix in any
    case, blanks, a printed number and a tail that does not go on with a
    digit: the number is read back when it fits 32 bits and the tail is
    blank; any other tail, and any larger number, is rejected. *)
Theorem parseSimpleCatalogNumber_printed (prefix p ws tail : string) (n : N) :
  String.length p = String.length prefix →
  compareIgnoringCase p prefix (String.length prefix) = true →
  all_blank ws = true →
  no_digit_ahead tail →
  parseSimpleCatalogNumber (p ++ ws ++ fmt_uint n ++ tail)%string prefix
  = if (n <=? UINT32_MAX) && all_blank tail then Some n else None.
Proof.
  intros Hlen Hcmp Hws Htail. unfold parseSimpleCatalogNumber.
  rewrite compareIgnoringCase_app, Hcmp by exact Hlen. cbn [negb].
  rewrite <- Hlen, drop_chars_app.
  rewrite find_first_not_of_blank_skip by exact Hws.
  rewrite find_first_not_of_blank_fmt_uint.
  rewrite from_chars_fmt_uint by exact Htail.
  destruct (n <=? UINT32_MAX); cbn [fc_ec fc_ptr fc_value errc_is_ok andb]; [|reflexivity].
  destruct (all_blank tail) eqn:Hb.
  - apply find_first_not_of_blank_None in Hb. rewrite Hb. reflexivity.
  - destruct (find_first_not_of_blank tail) eqn:Hf; [reflexivity|].
    apply find_first_not_of_blank_None in Hf. congruence.
Qed.

Lemma parseSimpleCatalogNumber_printed_witness :
  parseSimpleCatalogNumber "hip   42 " HIPPARCOSCatalogPrefix = Some 42
  ∧ parseSimpleCatalogNumber "HIP 4294967296" HIPPARCOSCatalogPrefix = None
  ∧ parseSimpleCatalogNumber "HIP 42b" HIPPARCOSCatalogPrefix = None.
Proof.
  split; [|split].
  - exact (parseSimpleCatalogNumber_printed "HIP " "hip " "  " " " 42
             eq_refl eq_refl eq_refl eq_refl).
  - exact (parseSimpleCatalogNumber_printed "HIP " "HIP " "" "" 4294967296
             eq_refl eq_refl eq_refl I).
  - exact (parseSimpleCatalogNumber_printed "HIP " "HIP " "" "b" 42
             eq_refl eq_refl eq_refl eq_refl).
Defined.

Lemma euclid (n d : N) : d ≠ 0 → ∃ q r, n = d * q + r ∧ r < d.
Proof.
  intros Hd. exists (n / d), (n mod d). split; [apply N.div_mod; exact Hd | apply N.mod_lt; exact Hd].
Qed.

Lemma euclid_unique (n d q r : N) : n = d * q + r → r < d → n / d = q ∧ n mod d = r.
Proof.
  intros Hn Hr. split; symmetry; [apply (N.div_unique n d q r) | apply (N.mod_unique n d q r)];
    assumption.
Qed.

(** The three parts of a 32-bit number, and the packing that undoes them. *)
Lemma tychoParts_digits n :
  n < UINT32_MOD →
  ∃ a b c, a < 10000 ∧ b < 100000 ∧ c ≤ 4 ∧
    tychoParts n = (a, b, c) ∧ packTycho a b c = n.
Proof.
  intros Hn. unfold UINT32_MOD in Hn.
  destruct (euclid n 1000000000 ltac:(discriminate)) as (c & r & Hd3 & Hm3).
  destruct (euclid r 10000 ltac:(discriminate)) as (b & a & Hd2 & Hm2).
  exists a, b, c.
  split; [exact Hm2|]. split; [lia|]. split; [lia|].
  assert (∀ x y, y ≤ x → x < 4294967296 → (x + 4294967296 - y) mod 4294967296 = x - y)
    as Hsub.
  { intros x y Hyx Hx. symmetry. apply (N.mod_unique _ _ 1); lia. }
  pose proof (proj1 (euclid_unique n 1000000000 c r Hd3 Hm3)) as Hq3.
  pose proof (proj1 (euclid_unique r 10000 b a Hd2 Hm2)) as Hq2.
  split.
  - unfold tychoParts, wrap32, TYC3_MULTIPLIER, TYC2_MULTIPLIER, UINT32_MOD. cbv zeta.
    rewrite Hq3. clear Hq3 Hq2. rewrite (N.mod_small (c * 1000000000)) by lia.
    rewrite (Hsub n (c * 1000000000)) by lia. replace (n - c * 1000000000) with r by lia.
    pose proof (proj1 (euclid_unique r 10000 b a Hd2 Hm2)) as Hq2.
    rewrite Hq2. clear Hq2. rewrite (N.mod_small (b * 10000)) by lia.
    rewrite (Hsub r (b * 10000)) by lia. replace (r - b * 10000) with a by lia. reflexivity.
  - clear Hq3 Hq2. unfold packTycho, wrap32, TYC3_MULTIPLIER, TYC2_MULTIPLIER, UINT32_MOD.
    rewrite (N.mod_small (c * 1000000000)) by lia.
    rewrite (N.mod_small (b * 10000)) by lia.
    rewrite (N.mod_small (c * 1000000000 + b * 10000)) by lia.
    rewrite (N.mod_small (c * 1000000000 + b * 10000 + a)) by lia. lia.
Qed.

Lemma parseTychoCatalogNumber_printed (tyc1 tyc2 tyc3 : N) :
  parseTychoCatalogNumber (fmt_tycho (tyc1, tyc2, tyc3))
  = if tychoPartsAccepted (tyc1, tyc2, tyc3)
    then Some (packTycho tyc1 tyc2 tyc3) else None.
Proof.
  unfold parseTychoCatalogNumber, fmt_tycho, tychoPartsAccepted.
  rewrite (compareIgnoringCase_app "TYC " _ TychoCatalogPrefix eq_refl).
  change (compareIgnoringCase "TYC " TychoCatalogPrefix (String.length TychoCatalogPrefix))
    with true. cbn [negb].
  change (String.length TychoCatalogPrefix) with (String.length "TYC ").
  rewrite drop_chars_app.
  rewrite find_first_not_of_blank_fmt_uint.
  rewrite from_chars_fmt_uint by reflexivity.
  unfold TYC123_MIN, TYC1_MAX, TYC2_MAX, TYC3_MAX, TDSC_TYC3_MAX, TDSC_TYC3_MAX_RANGE_TYC1,
    UINT32_MAX.
  rewrite !N.ltb_antisym.
  destruct (tyc1 <=? 4294967295) eqn:H1m; cbn [fc_ec fc_ptr fc_value errc_is_ok negb orb].
  2: { apply N.leb_gt in H1m. rewrite (proj2 (N.leb_gt tyc1 9999)) by lia.
       rewrite andb_false_r. reflexivity. }
  destruct (1 <=? tyc1) eqn:H1a; cbn [negb orb andb]; [|reflexivity].
  destruct (tyc1 <=? 9999) eqn:H1b; cbn [negb orb andb]; [|reflexivity].
  rewrite ?append_cons, ?append_nil_l. cbn [at_end_or_not drop_chars].
  change (negb (Ascii.eqb "-" "-")) with false. cbv iota.
  rewrite from_chars_fmt_uint by reflexivity. unfold UINT32_MAX.
  destruct (tyc2 <=? 4294967295) eqn:H2m; cbn [fc_ec fc_ptr fc_value errc_is_ok negb orb].
  2: { apply N.leb_gt in H2m. rewrite (proj2 (N.leb_gt tyc2 99999)) by lia.
       rewrite andb_false_r. reflexivity. }
  destruct (1 <=? tyc2) eqn:H2a; cbn [negb orb andb]; [|reflexivity].
  destruct (tyc2 <=? 99999) eqn:H2b; cbn [negb orb andb]; [|reflexivity].
  rewrite ?append_cons, ?append_nil_l. cbn [at_end_or_not drop_chars].
  change (negb (Ascii.eqb "-" "-")) with false. cbv iota.
  rewrite <- (append_nil_r (fmt_uint tyc3)).
  rewrite from_chars_fmt_uint by exact I. unfold UINT32_MAX.
  destruct (tyc3 <=? 4294967295) eqn:H3m; cbn [fc_ec fc_ptr fc_value errc_is_ok negb orb andb].
  2: { apply N.leb_gt in H3m. rewrite (proj2 (N.leb_gt tyc3 3)) by lia.
       rewrite (proj2 (N.eqb_neq tyc3 4)) by lia. rewrite andb_false_r. reflexivity. }
  destruct (1 <=? tyc3) eqn:H3a; cbn [negb orb andb]; [|reflexivity].
  destruct ((tyc3 <=? 3) || (tyc3 =? 4) && (tyc1 <=? 2907)); reflexivity.
Qed.

(** X2.  The name that [catalogNumberToString] gives a number above the
    Hipparcos range is read back by [parseTychoCatalogNumber] as that
    number when its three parts are in the accepted ranges, and is
    rejected otherwise. *)
Theorem tycho_name_round_trip (max_hipparcos n : N) :
  max_hipparcos < n → n ≤ UINT32_MAX →
  parseTychoCatalogNumber (catalogNumberToString max_hipparcos n)
  = if tychoPartsAccepted (tychoParts n) then Some n else None.
Proof.
  intros Hmax Hn. unfold catalogNumberToString.
  rewrite (proj2 (N.leb_gt n max_hipparcos)) by exact Hmax.
  destruct (tychoParts_digits n) as (a & b & c & _ & _ & _ & Hparts & Hpack).
  { unfold UINT32_MOD, UINT32_MAX in *. lia. }
  rewrite Hparts, parseTychoCatalogNumber_printed, Hpack. reflexivity.
Qed.

Lemma tycho_name_round_trip_witness :
  parseTychoCatalogNumber (catalogNumberToString 999999 3012760001) = Some 3012760001
  ∧ catalogNumberToString 999999 1000000 = "TYC 0-100-0"%string
  ∧ parseTychoCatalogNumber (catalogNumberToString 999999 1000000) = None.
Proof.
  split; [|split; [reflexivity|]].
  - exact (tycho_name_round_trip 999999 3012760001 eq_refl ltac:(discriminate)).
  - exact (tycho_name_round_trip 999999 1000000 eq_refl ltac:(discriminate)).
Defined.

End Names.


(** ** More on the queries by name *)

Section NameProperties.
Import Strs CatalogNumbers.
Context `{Env}.
Context (names_ofNumber : NameDB → N → list string)
        (localize : string → string)
        (MaxTychoCatalogNumber : N).

Lemma parseSimpleCatalogNumber_exact (prefix : string) (n : N) :
  compareIgnoringCase prefix prefix (String.length prefix) = true →
  n ≤ UINT32_MAX →
  parseSimpleCatalogNumber (prefix ++ fmt_uint n)%string prefix = Some n.
Proof.
  intros Hcmp Hn. rewrite <- (append_nil_r (fmt_uint n)). unfold parseSimpleCatalogNumber.
  rewrite compareIgnoringCase_app, Hcmp by reflexivity. cbn [negb].
  rewrite drop_chars_app, find_first_not_of_blank_fmt_uint.
  rewrite from_chars_fmt_uint by exact I.
  rewrite (proj2 (N.leb_le n UINT32_MAX)) by exact Hn. reflexivity.
Qed.

Lemma parseCelestiaCatalogNumber_exact (n : N) :
  n ≤ UINT32_MAX → parseCelestiaCatalogNumber ("#" ++ fmt_uint n)%string = Some n.
Proof.
  intros Hn. rewrite append_cons, append_nil_l. unfold parseCelestiaCatalogNumber.
  change (negb (Ascii.eqb "#" "#")) with false. cbv iota.
  rewrite <- (append_nil_r (fmt_uint n)), from_chars_fmt_uint by exact I.
  rewrite (proj2 (N.leb_le n UINT32_MAX)) by exact Hn. reflexivity.
Qed.

Lemma findCatalogNumberByName_unnamed db name i18n :
  name ≠ EmptyString → unnamed db name i18n →
  findCatalogNumberByName db name i18n =
    match parseCelestiaCatalogNumber name with
    | Some n => Some n
    | None =>
    match parseHIPPARCOSCatalogNumber name with
    | Some n => Some n
    | None =>
    match parseTychoCatalogNumber name with
    | Some n => Some n
    | None =>
    match parseHDCatalogNumber name with
    | Some n => searchCrossIndexForCatalogNumber db HenryDraper n
    | None =>
    match parseSimpleCatalogNumber name SAOCatalogPrefix with
    | Some n => searchCrossIndexForCatalogNumber db SAO n
    | None => Some InvalidIndex
    end end end end end.
Proof.
  intros Hne Hun. unfold findCatalogNumberByName.
  rewrite bool_decide_eq_false_2 by exact Hne.
  destruct (namesDB db) as [names|] eqn:Hnames.
  - rewrite (Hun names Hnames). rewrite bool_decide_eq_false_2 by (intros Hby; apply Hby; reflexivity).
    reflexivity.
  - rewrite bool_decide_eq_false_2 by (intros Hby; apply Hby; reflexivity). reflexivity.
Qed.

Lemma prefixed_not_empty (c : ascii) (p x : string) : (String c p ++ x)%string ≠ EmptyString.
Proof. rewrite append_cons. discriminate. Qed.

(** X3.  The printed forms of the four catalogs, looked up by name in a
    database whose names do not hold them: the number after ["#"] or
    ["HIP "] is the catalog number itself; the number after ["HD "] or
    ["SAO "] is sought in the cross index of that catalog. *)
Theorem findCatalogNumberByName_forms (db : StarDatabase) (n : N) (i18n : bool) :
  n ≤ UINT32_MAX →
  (unnamed db ("#" ++ fmt_uint n) i18n →
   findCatalogNumberByName db ("#" ++ fmt_uint n) i18n = Some n) ∧
  (unnamed db ("HIP " ++ fmt_uint n) i18n →
   findCatalogNumberByName db ("HIP " ++ fmt_uint n) i18n = Some n) ∧
  (unnamed db ("HD " ++ fmt_uint n) i18n →
   findCatalogNumberByName db ("HD " ++ fmt_uint n) i18n
   = searchCrossIndexForCatalogNumber db HenryDraper n) ∧
  (unnamed db ("SAO " ++ fmt_uint n) i18n →
   findCatalogNumberByName db ("SAO " ++ fmt_uint n) i18n
   = searchCrossIndexForCatalogNumber db SAO n).
Proof.
  intros Hn. repeat split; intros Hun.
  - rewrite findCatalogNumberByName_unnamed by (apply prefixed_not_empty || exact Hun).
    rewrite parseCelestiaCatalogNumber_exact by exact Hn. reflexivity.
  - rewrite findCatalogNumberByName_unnamed by (apply prefixed_not_empty || exact Hun).
    unfold parseHIPPARCOSCatalogNumber, HIPPARCOSCatalogPrefix.
    rewrite parseSimpleCatalogNumber_exact by (reflexivity || exact Hn).
    rewrite append_cons. reflexivity.
  - rewrite findCatalogNumberByName_unnamed by (apply prefixed_not_empty || exact Hun).
    unfold parseHDCatalogNumber, HDCatalogPrefix.
    rewrite parseSimpleCatalogNumber_exact by (reflexivity || exact Hn).
    rewrite !append_cons. reflexivity.
  - rewrite findCatalogNumberByName_unnamed by (apply prefixed_not_empty || exact Hun).
    unfold SAOCatalogPrefix.
    rewrite parseSimpleCatalogNumber_exact by (reflexivity || exact Hn).
    rewrite !append_cons. reflexivity.
Qed.

Lemma findCatalogNumberByName_printed db n i18n :
  n ≤ UINT32_MAX →
  unnamed db (catalogNumberToString MAX_HIPPARCOS_NUMBER n) i18n →
  findCatalogNumberByName db (catalogNumberToString MAX_HIPPARCOS_NUMBER n) i18n
  = Some (if (n <=? MAX_HIPPARCOS_NUMBER) || tychoPartsAccepted (tychoParts n)
          then n else InvalidIndex).
Proof.
  intros Hn Hun.
  rewrite findCatalogNumberByName_unnamed; [| |exact Hun].
  2: { unfold catalogNumberToString, fmt_tycho.
       destruct (n <=? _); [|destruct (tychoParts n) as [[a b] c]]; apply prefixed_not_empty. }
  unfold catalogNumberToString.
  destruct (n <=? MAX_HIPPARCOS_NUMBER); cbn [orb].
  - unfold parseHIPPARCOSCatalogNumber, HIPPARCOSCatalogPrefix.
    rewrite parseSimpleCatalogNumber_exact by (reflexivity || exact Hn).
    rewrite append_cons. reflexivity.
  - destruct (tychoParts_digits n) as (a & b & c & _ & _ & _ & Hparts & Hpack).
    { unfold UINT32_MOD, UINT32_MAX in *. lia. }
    rewrite Hparts, parseTychoCatalogNumber_printed, Hpack.
    unfold fmt_tycho. rewrite !append_cons.
    destruct (tychoPartsAccepted (a, b, c)); reflexivity.
Qed.

(** X4.  A star that the name database has no names for is named by its
    catalog number.  Looking that name up in a database whose index is
    built leads back to a star of the same number, except where the
    number is above the Hipparcos range and its three parts are not in
    the ranges of a Tycho name: then the name of the star finds nothing. *)
Theorem star_name_round_trip (db : StarDatabase) (s : Star) (i18n : bool) :
  indexed db → s ∈ stars db →
  getIndex s ≤ UINT32_MAX → getIndex s ≠ InvalidIndex →
  (∀ names, namesDB db = Some names → names_ofNumber names (getIndex s) = []) →
  unnamed db (catalogNumberToString MAX_HIPPARCOS_NUMBER (getIndex s)) i18n →
  getStarName names_ofNumber localize db s i18n
  = catalogNumberToString MAX_HIPPARCOS_NUMBER (getIndex s) ∧
  if (getIndex s <=? MAX_HIPPARCOS_NUMBER) || tychoPartsAccepted (tychoParts (getIndex s))
  then ∃ p e, findByName db (getStarName names_ofNumber localize db s i18n) i18n
              = Some (Some p) ∧
              stars db !! p = Some e ∧ getIndex e = getIndex s
  else findByName db (getStarName names_ofNumber localize db s i18n) i18n = Some None.
Proof.
  intros Hidx Hs Hn Hvalid Hnone Hun.
  assert (getStarName names_ofNumber localize db s i18n
          = catalogNumberToString MAX_HIPPARCOS_NUMBER (getIndex s)) as Hname.
  { unfold getStarName. destruct (namesDB db) as [names|] eqn:Hnames; [|reflexivity].
    rewrite (Hnone names eq_refl). reflexivity. }
  split; [exact Hname|]. rewrite Hname. unfold findByName.
  rewrite (findCatalogNumberByName_printed db (getIndex s) i18n Hn Hun).
  destruct (_ || _).
  - rewrite bool_decide_eq_true_2 by exact Hvalid.
    destruct (find db (getIndex s)) as [p|] eqn:Hfind.
    + destruct (find_Some db _ p Hidx Hfind) as (e & He & Hen). eauto.
    + exfalso. exact (find_None db _ Hidx Hfind s Hs eq_refl).
  - rewrite bool_decide_eq_false_2 by (intros Hne; apply Hne; reflexivity). reflexivity.
Qed.

Lemma joinNames_snoc (l : list string) (x : string) :
  joinNames (l ++ [x])
  = ((if bool_decide (l = []) then EmptyString else joinNames l ++ " / ") ++ x)%string.
Proof.
  destruct l as [|y l]; [reflexivity|].
  rewrite bool_decide_eq_false_2 by discriminate.
  cbn [joinNames app]. rewrite fold_left_app. reflexivity.
Qed.

Lemma listed_size db star maxNames l acc :
  listed names_ofNumber localize db star maxNames l acc → size (nameSet acc) = length l.
Proof. intros (Hnd & _ & -> & _). apply size_list_to_set. exact Hnd. Qed.

Lemma listed_append db star maxNames l acc x :
  listed names_ofNumber localize db star maxNames l acc → roomLeft maxNames acc = true →
  nameOrigin names_ofNumber localize db star x →
  ∃ l', listed names_ofNumber localize db star maxNames l' (appendName x acc).
Proof.
  intros Hl Hroom Hx. pose proof (listed_size _ _ _ _ _ Hl) as Hsize.
  destruct Hl as (Hnd & Hlen & Hset & Hstr & Hemp & Horigin).
  unfold appendName. destruct (bool_decide (x ∈ nameSet acc)) eqn:Hin.
  - exists l. split; [exact Hnd|]. split; [exact Hlen|]. split; [exact Hset|].
    split; [exact Hstr|]. split; [exact Hemp | exact Horigin].
  - exists (l ++ [x]). unfold roomLeft in Hroom. apply N.ltb_lt in Hroom.
    rewrite Hsize in Hroom.
    apply bool_decide_eq_false in Hin.
    assert (x ∉ l) as Hxl by (rewrite Hset in Hin; set_solver).
    split; [|split; [|split; [|split; [|split]]]]; cbn.
    + apply NoDup_app. split; [exact Hnd|]. split; [|apply NoDup_singleton].
      intros y Hy Hyx. apply list_elem_of_singleton in Hyx. subst. contradiction.
    + rewrite length_app. cbn. lia.
    + rewrite Hset, list_to_set_app_L. cbn [list_to_set].
      rewrite (right_id_L ∅ (∪) {[x]}). apply (comm_L (∪)).
    + rewrite joinNames_snoc, Hemp, Hstr.
      destruct (bool_decide (l = [])) eqn:He; [|reflexivity].
      apply bool_decide_eq_true in He. subst l. reflexivity.
    + rewrite bool_decide_eq_false_2; [reflexivity|]. destruct l; discriminate.
    + intros y Hy. apply elem_of_app in Hy as [Hy|Hy]; [apply Horigin; exact Hy|].
      apply list_elem_of_singleton in Hy. subst. exact Hx.
Qed.

Lemma listed_appendNamesOf db star maxNames names :
  ∀ l acc,
    listed names_ofNumber localize db star maxNames l acc →
    (∀ name, name ∈ names →
       nameOrigin names_ofNumber localize db star (localize name)) →
    ∃ l', listed names_ofNumber localize db star maxNames l' (appendNamesOf localize maxNames names acc).
Proof.
  induction names as [|name rest IH]; intros l acc Hl Hnames; [eauto|].
  cbn [appendNamesOf]. destruct (roomLeft maxNames acc) eqn:Hroom; [|eauto].
  destruct (listed_append _ _ _ _ _ (localize name) Hl Hroom) as [l1 Hl1].
  { apply Hnames. left. }
  apply (IH l1); [exact Hl1|]. intros y Hy. apply Hnames. right. exact Hy.
Qed.

(** X5.  [getStarNameList] never lists more than [maxNames] names and
    never the same name twice: its result is the join by [" / "] of
    pairwise different names, each the translation of a name of the star
    or the printed form of one of its catalog numbers. *)
Theorem getStarNameList_bounded (db : StarDatabase) (star : Star) (maxNames : N)
    (str : string) :
  getStarNameList names_ofNumber localize MaxTychoCatalogNumber db star maxNames = Some str →
  ∃ l, str = joinNames l ∧ NoDup l ∧ N.of_nat (length l) ≤ maxNames ∧
       ∀ x, x ∈ l → nameOrigin names_ofNumber localize db star x.
Proof.
  unfold getStarNameList. cbv zeta.
  assert (listed names_ofNumber localize db star maxNames [] (mkNameList EmptyString ∅ true)) as H0.
  { split; [apply NoDup_nil_2|]. split; [cbn; lia|]. repeat split. intros x Hx.
    apply elem_of_nil in Hx. contradiction. }
  set (acc1 := match namesDB db with Some _ => _ | None => _ end).
  assert (∃ l, listed names_ofNumber localize db star maxNames l acc1) as [l1 H1].
  { subst acc1. destruct (namesDB db) as [names|] eqn:Hnames; [|eauto].
    apply (listed_appendNamesOf _ _ _ _ [] _ H0).
    intros name Hname. left. exists names, name. auto. }
  clearbody acc1.
  set (acc2 := if _ && _ && roomLeft maxNames acc1 then _ else _).
  assert (∃ l, listed names_ofNumber localize db star maxNames l acc2) as [l2 H2].
  { subst acc2. destruct (_ && _ && roomLeft maxNames acc1) eqn:Hc; [|eauto].
    apply andb_true_iff in Hc as [_ Hroom].
    destruct (_ <=? MaxTychoCatalogNumber); [|eauto].
    destruct (1000000 <=? _); eapply listed_append; eauto.
    - right. left. reflexivity.
    - right. right. left. reflexivity. }
  clearbody acc2.
  destruct (crossIndex db HenryDraper (getIndex star)) as [hd|] eqn:Hhd; [|discriminate].
  set (acc3 := if roomLeft maxNames acc2 && _ then _ else _).
  assert (∃ l, listed names_ofNumber localize db star maxNames l acc3) as [l3 H3].
  { subst acc3. destruct (roomLeft maxNames acc2 && _) eqn:Hc; [|eauto].
    apply andb_true_iff in Hc as [Hroom Hvalid]. apply bool_decide_eq_true in Hvalid.
    eapply listed_append; eauto. right. right. right. left. exists hd. auto. }
  clearbody acc3.
  destruct (crossIndex db SAO (getIndex star)) as [sao|] eqn:Hsao; [|discriminate].
  set (acc4 := if roomLeft maxNames acc3 && _ then _ else _).
  assert (∃ l, listed names_ofNumber localize db star maxNames l acc4) as [l4 H4].
  { subst acc4. destruct (roomLeft maxNames acc3 && _) eqn:Hc; [|eauto].
    apply andb_true_iff in Hc as [Hroom Hvalid]. apply bool_decide_eq_true in Hvalid.
    eapply listed_append; eauto. right. right. right. right. exists sao. auto. }
  clearbody acc4. intros [= <-].
  destruct H4 as (Hnd & Hlen & _ & Hstr & _ & Horigin).
  exists l4. auto.
Qed.

End NameProperties.


(** ** More on cross indexes *)

Section CrossIndexMore.
Context `{Env}.



Lemma length_decodeCrossIndexRecords n :
  ∀ ptr, length (decodeCrossIndexRecords n ptr) = n.
Proof. induction n as [|n IH]; intros ptr; [reflexivity|]. cbn. rewrite IH. reflexivity. Qed.





#[local] Instance byCatalogNumber_refl : Reflexive byCatalogNumber.
Proof. intros a. unfold byCatalogNumber. lia. Qed.

#[local] Instance byCatalogNumber_trans : Transitive byCatalogNumber.
Proof. intros a b c. unfold byCatalogNumber. lia. Qed.

#[local] Instance byCatalogNumber_total : Total byCatalogNumber.
Proof. intros a b. unfold byCatalogNumber. lia. Qed.


(** The binary search of [searchCrossIndexForCatalogNumber] in a table
    ordered by foreign number: it stops at an entry of the number asked
    for when there is one, and otherwise no entry has that number. *)
Lemma lower_bound_table (t : list CrossIndexEntry) (number : N) :
  ordered x_catalogNumber t (length t) →
  match t !! lower_bound x_catalogNumber t (length t) number with
  | Some e => x_catalogNumber e = number ∨ ∀ e', e' ∈ t → x_catalogNumber e' ≠ number
  | None => ∀ e', e' ∈ t → x_catalogNumber e' ≠ number
  end.
Proof.
  intros Hord.
  destruct (lower_bound_spec x_catalogNumber t number (length t) (le_n _) Hord)
    as (Hr & Hlow & Hhigh).
  set (r := lower_bound x_catalogNumber t (length t) number) in *.
  assert (∀ e, t !! r = Some e → x_catalogNumber e ≠ number →
            ∀ e', e' ∈ t → x_catalogNumber e' ≠ number) as Hmiss.
  { intros e He Hne e' Hin. apply list_elem_of_lookup in Hin as [i Hi].
    destruct (decide (i < r)%nat) as [Hlt|Hge].
    - pose proof (Hlow i e' Hlt Hi). lia.
    - pose proof (lookup_lt_Some _ _ _ Hi) as Hilen.
      pose proof (lookup_lt_Some _ _ _ He) as Hrlen.
      pose proof (Hhigh r e ltac:(lia) Hrlen He) as Hve.
      pose proof (Hord r i e e' ltac:(lia) Hilen He Hi) as Hle. lia. }
  destruct (t !! r) as [e|] eqn:He.
  - destruct (decide (x_catalogNumber e = number)) as [Heq|Hne]; [left; exact Heq|].
    right. apply (Hmiss e eq_refl Hne).
  - intros e' Hin. apply list_elem_of_lookup in Hin as [i Hi].
    pose proof (lookup_lt_Some _ _ _ Hi) as Hilen.
    apply lookup_ge_None in He.
    assert (i < r)%nat as Hlt by lia. pose proof (Hlow i e' Hlt Hi). lia.
Qed.





(** X9.  In a table ordered by foreign number that holds no foreign
    number twice, the linear search of [crossIndex] for the Celestia
    number of an entry gives a foreign number that
    [searchCrossIndexForCatalogNumber] maps back to that Celestia number. *)
Theorem crossIndex_round_trip (db : StarDatabase) (catalog p : nat)
    (t : list CrossIndexEntry) (e : CrossIndexEntry) :
  crossIndexes db !! catalog = Some (Some p) →
  xheap db !! p = Some (XLive t) →
  ordered x_catalogNumber t (length t) →
  NoDup (x_catalogNumber <$> t) →
  e ∈ t →
  ∃ hd, crossIndex db catalog (x_celCatalogNumber e) = Some hd ∧
        searchCrossIndexForCatalogNumber db catalog hd = Some (x_celCatalogNumber e).
Proof.
  intros Hslot Hcell Hord Hnd Hin.
  pose proof (lookup_lt_Some _ _ _ Hslot) as Hcat.
  unfold crossIndex, searchCrossIndexForCatalogNumber.
  rewrite bool_decide_eq_false_2 by lia. rewrite Hslot, Hcell.
  destruct (List.find _ t) as [e1|] eqn:Hfind.
  2: { exfalso. apply list_elem_of_In in Hin.
       pose proof (List.find_none _ _ Hfind e Hin) as Hno. cbn in Hno.
       rewrite N.eqb_refl in Hno. discriminate. }
  apply List.find_some in Hfind as [Hin1 Heq1]. apply N.eqb_eq in Heq1.
  apply list_elem_of_In in Hin1.
  exists (x_catalogNumber e1). split; [reflexivity|].
  pose proof (lower_bound_table t (x_catalogNumber e1) Hord) as Hsearch.
  destruct (t !! lower_bound x_catalogNumber t (length t) (x_catalogNumber e1))
    as [e2|] eqn:He2.
  - destruct Hsearch as [Hkey|Hnone]; [|exfalso; exact (Hnone e1 Hin1 eq_refl)].
    rewrite Hkey, N.eqb_refl. cbn [negb]. f_equal.
    apply list_elem_of_lookup in Hin1 as [i Hi].
    assert (lower_bound x_catalogNumber t (length t) (x_catalogNumber e1) = i) as Hsame.
    { apply (NoDup_lookup _ _ _ (x_catalogNumber e1) Hnd); rewrite list_lookup_fmap.
      - rewrite He2. cbn. rewrite Hkey. reflexivity.
      - rewrite Hi. reflexivity. }
    rewrite Hsame, Hi in He2. injection He2 as <-. symmetry. exact Heq1.
  - exfalso. exact (Hsearch e1 Hin1 eq_refl).
Qed.

End CrossIndexMore.


(** ** More on the binary star file *)

Section BinaryMore.
Context `{Env}.

Lemma grown_refl db : grown db db [].
Proof.
  exists (log db). destruct db. unfold set_log, set_nStars, set_unsortedStars. cbn.
  rewrite app_nil_r, Nat.add_0_r. reflexivity.
Qed.

Lemma grown_trans db1 db2 db3 l1 l2 :
  grown db1 db2 l1 → grown db2 db3 l2 → grown db1 db3 (l1 ++ l2).
Proof.
  intros [lg1 ->] [lg2 ->]. exists lg2.
  destruct db1. unfold set_log, set_nStars, set_unsortedStars. cbn.
  rewrite <- app_assoc, length_app. f_equal. lia.
Qed.

Lemma grown_logger db db' l lvl msg : grown db db' l → grown db (logger lvl msg db') l.
Proof. intros [lg ->]. eexists. reflexivity. Qed.

Lemma starOfRecord_take m ptr :
  (StarsDatRecord_size ≤ m)%nat → starOfRecord (take m ptr) = starOfRecord ptr.
Proof.
  unfold StarsDatRecord_size. intros Hm. unfold starOfRecord.
  rewrite !le_uint_take by lia. reflexivity.
Qed.

Lemma decodedFrom_nil body : decodedFrom body [].
Proof. intros i s Hi. rewrite lookup_nil in Hi. discriminate. Qed.

Lemma decodedFrom_app body l1 l2 :
  decodedFrom body l1 →
  decodedFrom (drop (StarsDatRecord_size * length l1) body) l2 →
  decodedFrom body (l1 ++ l2).
Proof.
  unfold decodedFrom, StarsDatRecord_size.
  intros H1 H2 i s Hi. apply lookup_app_Some in Hi as [Hi|[Hge Hi]].
  - apply H1. exact Hi.
  - specialize (H2 _ _ Hi). rewrite drop_drop in H2.
    replace (20 * length l1 + 20 * (i - length l1))%nat with (20 * i)%nat in H2 by lia.
    exact H2.
Qed.

Lemma decodedFrom_take m body l :
  (StarsDatRecord_size * length l ≤ m)%nat →
  decodedFrom (take m body) l → decodedFrom body l.
Proof.
  intros Hm Hl i s Hi. specialize (Hl i s Hi).
  pose proof (lookup_lt_Some _ _ _ Hi) as Hlt.
  rewrite skipn_firstn_comm, starOfRecord_take in Hl; [exact Hl|].
  unfold StarsDatRecord_size in *. lia.
Qed.

(** The loop over the records of one buffer appends the stars of the
    records up to the first that has no star details. *)
Lemma decodeStarRecords_appends n :
  ∀ ptr db,
    ∃ l, grown db (decodeStarRecords n ptr db).2 l ∧ decodedFrom ptr l ∧
         (length l ≤ n)%nat ∧
         ((decodeStarRecords n ptr db).1 = true → length l = n).
Proof.
  induction n as [|n IH]; intros ptr db.
  - exists []. cbn [decodeStarRecords fst snd].
    split; [apply grown_refl|]. split; [apply decodedFrom_nil|]. split; reflexivity.
  - cbn [decodeStarRecords].
    destruct (unpackV1 (Bytes.le_uint 18 2 ptr) ≫= GetStarDetails) as [details|] eqn:Hd.
    + match goal with |- context [decodeStarRecords n ?p ?d] =>
        destruct (IH p d) as (l & Hg & Hdec & Hlen & Hok) end.
      match type of Hg with grown (set_nStars _ (set_unsortedStars (_ ++ [?s]) _)) _ _ =>
        exists (s :: l) end.
      split; [|split; [|split]].
      * destruct Hg as [lg ->]. exists lg.
        destruct db. unfold set_log, set_nStars, set_unsortedStars. cbn.
        rewrite <- app_assoc. f_equal. lia.
      * intros [|i] s Hi.
        -- cbn in Hi. injection Hi as <-. rewrite Nat.mul_0_r, drop_0.
           unfold starOfRecord. rewrite Hd. reflexivity.
        -- cbn in Hi. specialize (Hdec i s Hi). rewrite drop_drop in Hdec.
           unfold StarsDatRecord_size in *.
           replace (20 * S i)%nat with (20 + 20 * i)%nat by lia.
           exact Hdec.
      * cbn. lia.
      * intros Ht. cbn. rewrite (Hok Ht). reflexivity.
    + exists []. cbn [fst snd].
      split; [apply grown_logger, grown_refl|]. split; [apply decodedFrom_nil|].
      split; [cbn; lia | discriminate].
Qed.

(** The loop of [loadBinary], whatever its result: it appends the stars
    of the first records of the stream, all of them when it succeeds. *)
Lemma readStarRecords_appends fuel :
  ∀ nStarsRemaining inp db ok in' db',
    is_good inp = true →
    readStarRecords fuel nStarsRemaining inp db = Some (ok, in', db') →
    ∃ l, grown db db' l ∧ decodedFrom (is_data inp) l ∧
         (ok = true → length l = N.to_nat nStarsRemaining).
Proof.
  induction fuel as [|fuel IH]; intros rem inp db ok in' db' Hg Hrun; [discriminate|].
  destruct (decide (rem = 0)) as [->|Hne].
  - cbn [readStarRecords] in Hrun. rewrite N.eqb_refl in Hrun. injection Hrun as <- <- <-.
    exists []. split; [apply grown_refl|]. split; [apply decodedFrom_nil|]. reflexivity.
  - rewrite (readStarRecords_step _ _ _ _ Hne) in Hrun. cbv zeta in Hrun.
    set (k := N.min BUFFER_RECORDS rem) in *.
    assert (k ≤ rem) as Hkrem by (subst k; lia).
    destruct (decide (StarsDatRecord_size * N.to_nat k ≤ length (is_data inp))%nat)
      as [Hlen|Hlen].
    + rewrite (is_read_good_enough _ _ Hg Hlen) in Hrun. cbn [fst snd] in Hrun.
      change (is_good (IStream _ _ false false false _)) with true in Hrun.
      cbn [negb] in Hrun.
      destruct (decodeStarRecords_appends (N.to_nat k)
                  (take (StarsDatRecord_size * N.to_nat k) (is_data inp)) db)
        as (l1 & Hg1 & Hdec1 & Hlen1 & Hok1).
      apply decodedFrom_take in Hdec1; [|unfold StarsDatRecord_size; lia].
      destruct ((decodeStarRecords _ _ db).1) eqn:Hok; cbn [negb] in Hrun.
      * specialize (Hok1 eq_refl).
        destruct (λ Hgood, IH _ _ _ _ _ _ Hgood Hrun) as (l2 & Hg2 & Hdec2 & Hok2); [reflexivity|].
        cbn [is_data] in Hdec2. exists (l1 ++ l2).
        split; [eapply grown_trans; eassumption|]. split.
        -- apply decodedFrom_app; [exact Hdec1|]. rewrite Hok1. exact Hdec2.
        -- intros Ht. rewrite length_app, Hok1, (Hok2 Ht). lia.
      * injection Hrun as <- <- <-. exists l1.
        split; [exact Hg1|]. split; [exact Hdec1 | discriminate].
    + rewrite (is_read_good_short _ _ Hg) in Hrun by lia. cbn [negb] in Hrun.
      injection Hrun as <- <- <-. exists [].
      split; [apply grown_refl|]. split; [apply decodedFrom_nil | discriminate].
Qed.

(** The result of [loadBinary] in terms of the stars it appends. *)
Lemma loadBinary_run inp db ok in' db' :
  loadBinary inp db = Some (ok, in', db') →
  ∃ l db2, grown db db2 l ∧ decodedFrom (drop 14 (is_data inp)) l ∧
    (ok = false → db' = db2) ∧
    (ok = true →
       length l = declaredCount (is_data inp) ∧
       db' = if bool_decide (0 < length (unsortedStars db2))%nat
             then set_binFileIndex
                    (Some (sortByIndex (unsortedStars db2)
                             (seq 0 (length (unsortedStars db2)))))
                    (length (unsortedStars db2)) db2
             else db2).
Proof.
  intros Hload. unfold loadBinary in Hload.
  assert (∃ l db2, grown db db2 l ∧ decodedFrom (drop 14 (is_data inp)) l ∧
            (false = false → db = db2)) as Hnone.
  { exists [], db. split; [apply grown_refl|]. split; [apply decodedFrom_nil|]. reflexivity. }
  destruct (is_good inp) eqn:Hg.
  2: { pose proof (is_read_not_good 14 inp Hg) as Hbad.
       destruct (is_read 14 inp) as [header in1]. cbn [snd] in Hbad.
       rewrite Hbad in Hload. cbn [negb] in Hload. injection Hload as <- <- <-.
       destruct Hnone as (l & db2 & ? & ? & ?). exists l, db2.
       repeat split; auto; discriminate. }
  destruct (decide (14 ≤ length (is_data inp))%nat) as [Hlen|Hlen].
  2: { pose proof (is_read_good_short 14 inp Hg ltac:(lia)) as Hbad.
       destruct (is_read 14 inp) as [header in1]. cbn [snd] in Hbad.
       rewrite Hbad in Hload. cbn [negb] in Hload. injection Hload as <- <- <-.
       destruct Hnone as (l & db2 & ? & ? & ?). exists l, db2.
       repeat split; auto; discriminate. }
  rewrite (is_read_good_enough _ _ Hg Hlen) in Hload.
  change (is_good (IStream _ _ false false false _)) with true in Hload.
  cbn [negb] in Hload.
  destruct (negb (Bytes.eqb_bytes _ _)).
  { injection Hload as <- <- <-. destruct Hnone as (l & db2 & ? & ? & ?). exists l, db2.
    repeat split; auto; discriminate. }
  destruct (negb (_ =? 256)).
  { injection Hload as <- <- <-. destruct Hnone as (l & db2 & ? & ? & ?). exists l, db2.
    repeat split; auto; discriminate. }
  clear Hnone. rewrite le_uint_take in Hload by lia.
  destruct (readStarRecords _ _ _ db) as [[[ok1 in2] db1]|] eqn:Hrun; [|discriminate].
  destruct (λ Hgood, readStarRecords_appends _ _ _ _ _ _ _ Hgood Hrun)
    as (l & Hgrown & Hdec & Hcount); [reflexivity|].
  cbn [is_data] in Hdec.
  destruct ok1.
  2: { injection Hload as <- <- <-. exists l, db1.
       split; [exact Hgrown|]. split; [exact Hdec|]. split; [reflexivity | discriminate]. }
  destruct (is_badbit in2).
  { injection Hload as <- <- <-. exists l, db1.
    split; [exact Hgrown|]. split; [exact Hdec|]. split; [reflexivity | discriminate]. }
  cbv zeta in Hload.
  set (db2 := logger LInfo _ (logger LDebug _ db1)) in Hload.
  exists l, db2. split; [apply grown_logger, grown_logger; exact Hgrown|].
  split; [exact Hdec|]. split.
  - intros ->. destruct (bool_decide _); discriminate.
  - intros ->. split; [exact (Hcount eq_refl)|].
    destruct (bool_decide _); injection Hload as _ <-; reflexivity.
Qed.

(** X11.  [loadBinary] only appends: whatever it returns, the stars that
    were loaded before are still there, those decoded from the first
    records of the stream follow them, and [nStars] has advanced by their
    number.  A successful load has appended a star for every record
    announced; a failed one keeps the stars decoded before the failure
    and leaves the index of the binary file as it was. *)
Theorem loadBinary_appends (inp in' : istream) (db db' : StarDatabase) (ok : bool) :
  loadBinary inp db = Some (ok, in', db') →
  ∃ l, unsortedStars db' = unsortedStars db ++ l ∧
       nStars db' = (nStars db + length l)%nat ∧
       (∀ i s, l !! i = Some s →
          starOfRecord (drop (14 + StarsDatRecord_size * i) (is_data inp)) = Some s) ∧
       (ok = true → length l = declaredCount (is_data inp)) ∧
       (ok = false →
          binFileCatalogNumberIndex db' = binFileCatalogNumberIndex db ∧
          binFileStarCount db' = binFileStarCount db).
Proof.
  intros Hload.
  destruct (loadBinary_run _ _ _ _ _ Hload) as (l & db2 & [lg ->] & Hdec & Hfalse & Htrue).
  exists l.
  assert (unsortedStars db' = unsortedStars db ++ l ∧ nStars db' = (nStars db + length l)%nat)
    as [Hstars Hn].
  { destruct ok.
    - destruct (Htrue eq_refl) as [_ ->]. case_bool_decide; split; reflexivity.
    - rewrite (Hfalse eq_refl). split; reflexivity. }
  split; [exact Hstars|]. split; [exact Hn|]. split.
  - intros i s Hi. rewrite <- drop_drop. apply Hdec. exact Hi.
  - split; [intros Ht; apply (Htrue Ht)|].
    intros Hf. rewrite (Hfalse Hf). split; reflexivity.
Qed.

Lemma findWhileLoading_view db arr n :
  binFileCatalogNumberIndex db = Some arr →
  findWhileLoading db n
  = match find (binaryView db arr) n with
    | Some p => Some p
    | None => stcFileCatalogNumberIndex db !! n
    end.
Proof. intros Harr. unfold findWhileLoading. rewrite Harr. reflexivity. Qed.

Lemma binaryView_indexed db :
  indexed (binaryView
             (set_binFileIndex
                (Some (sortByIndex (unsortedStars db) (seq 0 (length (unsortedStars db)))))
                (length (unsortedStars db)) db)
             (sortByIndex (unsortedStars db) (seq 0 (length (unsortedStars db))))).
Proof.
  pose proof (buildIndexes_indexed
                (set_stars (unsortedStars db) (set_nStars (length (unsortedStars db)) db))
                eq_refl) as Hidx.
  revert Hidx. apply indexed_frame; reflexivity.
Qed.

(** X12.  After a successful [loadBinary], [findWhileLoading] finds a star
    for the catalog number of every star in the store, and one that has
    this number; for a number that no stored star has it answers from the
    index of the [.stc] files alone. *)
Theorem findWhileLoading_after_loadBinary (inp in' : istream) (db db' : StarDatabase) :
  loadBinary inp db = Some (true, in', db') →
  unsortedStars db' ≠ [] →
  (∀ s, s ∈ unsortedStars db' →
     ∃ q s', findWhileLoading db' (getIndex s) = Some q ∧
             unsortedStars db' !! q = Some s' ∧ getIndex s' = getIndex s) ∧
  (∀ n, (∀ s, s ∈ unsortedStars db' → getIndex s ≠ n) →
     findWhileLoading db' n = stcFileCatalogNumberIndex db !! n).
Proof.
  intros Hload Hne.
  destruct (loadBinary_run _ _ _ _ _ Hload) as (l & db2 & [lg Hdb2] & _ & _ & Htrue).
  destruct (Htrue eq_refl) as [_ Hdb'].
  assert (unsortedStars db' = unsortedStars db2) as Hsame
    by (rewrite Hdb'; case_bool_decide; reflexivity).
  rewrite bool_decide_eq_true_2 in Hdb'
    by (rewrite <- Hsame; destruct (unsortedStars db'); [contradiction | cbn; lia]).
  set (arr := sortByIndex (unsortedStars db2) (seq 0 (length (unsortedStars db2)))) in *.
  assert (binFileCatalogNumberIndex db' = Some arr) as Harr by (rewrite Hdb'; reflexivity).
  assert (indexed (binaryView db' arr)) as Hidx by (rewrite Hdb'; apply binaryView_indexed).
  assert (stcFileCatalogNumberIndex db' = stcFileCatalogNumberIndex db) as Hstc
    by (rewrite Hdb', Hdb2; reflexivity).
  split.
  - intros s Hs. rewrite (findWhileLoading_view _ _ _ Harr).
    destruct (find (binaryView db' arr) (getIndex s)) as [q|] eqn:Hfind.
    + destruct (find_Some _ _ _ Hidx Hfind) as (s' & Hs' & Hn).
      exists q, s'. split; [reflexivity|]. split; [exact Hs' | exact Hn].
    + exfalso. exact (find_None _ _ Hidx Hfind s Hs eq_refl).
  - intros n Hnone. rewrite (findWhileLoading_view _ _ _ Harr), Hstc.
    destruct (find (binaryView db' arr) n) as [q|] eqn:Hfind; [|reflexivity].
    exfalso. destruct (find_Some _ _ _ Hidx Hfind) as (s' & Hs' & Hn).
    apply (Hnone s'); [|exact Hn]. eapply list_elem_of_lookup_2. exact Hs'.
Qed.

End BinaryMore.


(** ** More on [finish] *)

Section FinishMore.
Context `{Env}.

Lemma linkBarycenter_entryData i j mem p :
  entryData <$> linkBarycenter i j mem !! p = entryData <$> mem !! p.
Proof.
  rewrite lookup_linkBarycenter. destruct (mem !! p) as [s|]; [|reflexivity].
  repeat case_decide; reflexivity.
Qed.

(** The loop of [finish] over the pending pairs writes barycenter links
    into [stars] and nothing else. *)
Lemma resolveBarycenters_entryData assertions bs :
  ∀ db db', resolveBarycenters assertions bs db = Some db' →
    (∀ p, entryData <$> stars db' !! p = entryData <$> stars db !! p) ∧
    nStars db' = nStars db ∧ unsortedStars db' = unsortedStars db ∧
    stcFileCatalogNumberIndex db' = stcFileCatalogNumberIndex db ∧
    binFileCatalogNumberIndex db' = binFileCatalogNumberIndex db.
Proof.
  induction bs as [|b bs IH]; intros db db' Hres.
  - injection Hres as <-. repeat split; reflexivity.
  - cbn [resolveBarycenters] in Hres.
    destruct (assertions && _); [discriminate|].
    destruct (find db (bu_catNo b)) as [i|]; [|apply IH; exact Hres].
    destruct (find db (bu_barycenterCatNo b)) as [j|]; [|apply IH; exact Hres].
    destruct (IH _ _ Hres) as (Hdata & Hn & Hu & Hstc & Hbin).
    split; [|repeat split; assumption].
    intros p. rewrite Hdata. cbn [stars set_stars]. apply linkBarycenter_entryData.
Qed.

Lemma buildOctree_stars db :
  nStars db = length (unsortedStars db) →
  rebuildAndSort (unsortedStars db) ≡ₚ unsortedStars db →
  stars (buildOctree db) = rebuildAndSort (unsortedStars db).
Proof.
  intros Hn Hperm. unfold buildOctree. cbn [stars set_stars logger set_log unsortedStars nStars].
  rewrite Hn, <- (Permutation_length Hperm). apply take_app_length.
Qed.

(** X14.  When the counter agrees with the store and the octree emits
    every star it was given, [finish] keeps the catalog: the finalized
    array holds the loaded stars, each with the data it had (the
    barycenter links apart); the load-time store, the pending pairs and
    the index of the [.stc] files are emptied; and [find] answers for
    exactly the catalog numbers of the stars that were loaded. *)
Theorem finish_keeps_stars (assertions : bool) (db db' : StarDatabase) :
  finish assertions db = Some db' →
  nStars db = length (unsortedStars db) →
  rebuildAndSort (unsortedStars db) ≡ₚ unsortedStars db →
  entryData <$> stars db' ≡ₚ entryData <$> unsortedStars db ∧
  nStars db' = nStars db ∧ unsortedStars db' = [] ∧ barycenters db' = [] ∧
  stcFileCatalogNumberIndex db' = ∅ ∧
  ∀ n, is_Some (find db' n) ↔ ∃ s, s ∈ unsortedStars db ∧ getIndex s = n.
Proof.
  intros Hfin Hn Hperm.
  pose proof (finish_indexed _ _ _ Hfin) as Hidx.
  rewrite finish_unfold in Hfin.
  destruct (resolveBarycenters _ _ _) as [db4|] eqn:Hres; [|discriminate].
  injection Hfin as <-.
  destruct (resolveBarycenters_entryData _ _ _ _ Hres) as (Hdata & Hn4 & Hu4 & Hstc4 & _).
  destruct (beforeLinks_fields db) as (_ & _ & Hstars).
  rewrite (buildOctree_stars db Hn Hperm) in Hstars.
  assert (entryData <$> stars db4 = entryData <$> rebuildAndSort (unsortedStars db)) as Heq.
  { apply list_eq. intros p. rewrite !list_lookup_fmap, Hdata, Hstars. reflexivity. }
  assert (entryData <$> stars db4 ≡ₚ entryData <$> unsortedStars db) as Hp
    by (rewrite Heq, Hperm; reflexivity).
  split; [exact Hp|].
  split; [exact Hn4|]. split; [exact Hu4|]. split; [reflexivity|]. split; [exact Hstc4|].
  intros n. split.
  - intros [p Hfind]. destruct (find_Some _ _ _ Hidx Hfind) as (e & He & Hen).
    assert (entryData e ∈ entryData <$> unsortedStars db) as Hin.
    { rewrite <- Hp. apply list_elem_of_fmap. exists e. split; [reflexivity|].
      eapply list_elem_of_lookup_2. exact He. }
    apply list_elem_of_fmap in Hin as (s & Hs & Hsin). exists s. split; [exact Hsin|].
    rewrite <- Hen. injection Hs as Hi _. symmetry. exact Hi.
  - intros (s & Hs & Hsn).
    destruct (find (set_barycenters [] db4) n) as [p|] eqn:Hfind; [eauto|]. exfalso.
    assert (entryData s ∈ entryData <$> stars db4) as Hin.
    { rewrite Hp. apply list_elem_of_fmap. exists s. split; [reflexivity | exact Hs]. }
    apply list_elem_of_fmap in Hin as (e & He & Hein).
    apply (find_None _ _ Hidx Hfind e Hein). rewrite <- Hsn. injection He as Hi _.
    symmetry. exact Hi.
Qed.

End FinishMore.


(** ** More on the merge *)

Section LoadMore.
Context `{Env}.

Lemma bind_const_result {A B} (m : M A) (b : B) db r db' :
  (m ≫= λ _, mret b) db = Some (r, db') → r = b.
Proof.
  intros Hrun. apply bind_inv in Hrun as (a & db1 & _ & Hret). injection Hret as <- _.
  reflexivity.
Qed.

(** [resolveTarget] gives up exactly on a barycenter to add that has
    neither number nor name. *)
Lemma resolveTarget_None disposition isStar catalogNumber firstName db r db' :
  resolveTarget disposition isStar catalogNumber firstName db = Some (r, db') →
  bool_decide (r = None)
  = is_Add disposition && bool_decide (catalogNumber = InvalidIndex)
    && negb isStar && bool_decide (firstName = EmptyString).
Proof.
  intros Hrun. unfold resolveTarget in Hrun.
  destruct disposition; cbn [is_Add andb].
  - destruct (bool_decide (catalogNumber = InvalidIndex)); cbn [andb].
    + destruct (negb isStar && bool_decide (firstName = EmptyString)) eqn:Hbad.
      * apply bind_const_result in Hrun. subst r. reflexivity.
      * apply bind_inv in Hrun as (n & db1 & _ & Hret). injection Hret as <- _. reflexivity.
    + apply bind_inv in Hrun as (d & db1 & _ & Hret). injection Hret as <- _. reflexivity.
  - apply bind_inv in Hrun as (c & db1 & _ & Hrun).
    destruct (bool_decide (c = InvalidIndex));
      apply bind_inv in Hrun as (d & db2 & _ & Hret); injection Hret as <- _; reflexivity.
  - apply bind_inv in Hrun as (c & db1 & _ & Hrun).
    destruct (bool_decide (c ≠ InvalidIndex)).
    + apply bind_inv in Hrun as (d & db2 & _ & Hret). injection Hret as <- _. reflexivity.
    + injection Hrun as <- _. reflexivity.
Qed.

(** What [loadBlock] returns is decided by the header of the block: no
    error in the data of a block makes [load] stop. *)
Lemma loadBlock_result resourcePath b db ok db' :
  loadBlock resourcePath b db = Some (ok, db') → ok = blockWellFormed b.
Proof.
  intros Hrun. unfold loadBlock in Hrun. unfold blockWellFormed.
  assert (∀ isStar,
    (let catalogNumber := default InvalidIndex (b_catalogNumber b) in
     let objName := default EmptyString (b_objName b) in
     let firstName := upToColon objName in
     match b_body b with
     | NotAGroup => _ ← logM LError "Unexpected token at line {}!"; mret false
     | body =>
        target ← resolveTarget (default Add (b_disposition b)) isStar catalogNumber firstName;
        match target with
        | None => mret false
        | Some (catalogNumber, found) =>
            let isNewStar := negb (bool_decide (is_Some found)) in
            match body with
            | Group starData =>
                _ ← (if isNewStar then modifyDB (set_heapStar newStar) else mret tt);
                let star := match found with Some p => InStore p | None => OnHeap end in
                ok ←
                  (if isNewStar && is_Modify (default Add (b_disposition b)) then
                     _ ← logM LWarn "Modify requested for nonexistent star.";
                     mret false
                   else
                     ok ← createStar star (default Add (b_disposition b)) catalogNumber
                            starData resourcePath (negb isStar);
                     _ ← updateStar star (λ s,
                           setCategories (loadCategories starData (default Add (b_disposition b))
                                            resourcePath (s_categories s)) s);
                     mret ok);
                _ ← commitStar ok isNewStar catalogNumber objName;
                mret true
            | _ =>
                _ ← logM LError "Bad star definition at line {}.";
                mret false
            end
        end
     end) db = Some (ok, db') →
    ok = match b_body b with
         | Group _ =>
             negb (is_Add (default Add (b_disposition b))
                   && bool_decide (default InvalidIndex (b_catalogNumber b) = InvalidIndex)
                   && negb isStar
                   && bool_decide (upToColon (default EmptyString (b_objName b)) = EmptyString))
         | _ => false
         end) as Hafter.
  { intros isStar Hbody. cbv zeta in Hbody.
    destruct (b_body b) as [| |starData].
    - apply bind_const_result in Hbody. exact Hbody.
    - apply bind_inv in Hbody as (target & db1 & _ & Hrest).
      destruct target as [[catalogNumber found]|].
      + apply bind_const_result in Hrest. exact Hrest.
      + injection Hrest as <- _. reflexivity.
    - apply bind_inv in Hbody as (target & db1 & Htarget & Hrest).
      rewrite <- (resolveTarget_None _ _ _ _ _ _ _ Htarget).
      destruct target as [[catalogNumber found]|].
      + apply bind_inv in Hrest as (u & db2 & _ & Hrest).
        apply bind_inv in Hrest as (ok1 & db3 & _ & Hrest).
        apply bind_const_result in Hrest. subst ok. reflexivity.
      + injection Hrest as <- _. reflexivity. }
  destruct (b_objectType b) as [tokenValue|]; [|apply Hafter; exact Hrun].
  destruct (bool_decide (tokenValue = "Star")); [apply Hafter; exact Hrun|].
  destruct (bool_decide (tokenValue = "Barycenter")); [apply Hafter; exact Hrun|].
  apply bind_const_result in Hrun. exact Hrun.
Qed.

(** X15.  [load] returns [false] exactly when a block has a malformed
    header: a block whose data are rejected (a [Modify] without target, a
    bad spectral type, a missing field, a barycenter that is not loaded)
    is logged and skipped, and the blocks after it are still read. *)
Theorem load_stops_on_syntax_only (resourcePath : string) (blocks : list StcBlock)
    (db db' : StarDatabase) (ok : bool) :
  load resourcePath blocks db = Some (ok, db') →
  ok = forallb blockWellFormed blocks.
Proof.
  revert db. induction blocks as [|b rest IH]; intros db Hrun.
  - injection Hrun as <- _. reflexivity.
  - cbn [load forallb] in Hrun |- *.
    apply bind_inv in Hrun as (okb & db1 & Hblock & Hrest).
    rewrite <- (loadBlock_result _ _ _ _ _ Hblock).
    destruct okb; cbn [andb].
    + apply (IH db1). exact Hrest.
    + injection Hrest as <- _. reflexivity.
Qed.

Lemma storeOk_frame db db' :
  nStars db' = nStars db → length (unsortedStars db') = length (unsortedStars db) →
  stcFileCatalogNumberIndex db' = stcFileCatalogNumberIndex db →
  binFileCatalogNumberIndex db' = binFileCatalogNumberIndex db →
  storeOk db → storeOk db'.
Proof. unfold storeOk. intros -> -> -> ->. auto. Qed.

Lemma storeOk_stable star : stable star (λ _, True) storeOk.
Proof.
  split.
  - intros db db' f _ Hok Hrun. apply updateStar_inv in Hrun as (e & _ & _ & ->).
    revert Hok. apply storeOk_frame; destruct star; try reflexivity.
    cbn [unsortedStars set_unsortedStars]. apply length_alter.
  - intros db lvl msg. apply storeOk_frame; reflexivity.
  - intros db bs. apply storeOk_frame; reflexivity.
Qed.

Lemma keeps_modifyDB (I : StarDatabase → Prop) f :
  (∀ db, I db → I (f db)) → keeps I (modifyDB f).
Proof. intros Hf db a db' HI [= _ <-]. apply Hf. exact HI. Qed.

Lemma keeps_resolveTarget (I : StarDatabase → Prop) disposition isStar catalogNumber firstName :
  (∀ db next lg, I db → I (set_log lg (set_nextAutoCatalogNumber next db))) →
  keeps I (resolveTarget disposition isStar catalogNumber firstName).
Proof.
  intros HI db r db' Hdb Hrun.
  apply resolveTarget_inv in Hrun as (next & lg & ->). apply HI. exact Hdb.
Qed.

Lemma storeOk_commit db catalogNumber :
  storeOk db →
  storeOk (let db1 := set_nStars (S (nStars db))
                        (set_unsortedStars (unsortedStars db ++ [heapStar db]) db) in
           set_stcFileCatalogNumberIndex
             (<[catalogNumber := (length (unsortedStars db1) - 1)%nat]>
                (stcFileCatalogNumberIndex db1)) db1).
Proof.
  intros (Hn & Hstc & Hbin). unfold storeOk. cbn. rewrite !length_app. cbn.
  split; [lia|]. split.
  - intros n p Hp. destruct (decide (n = catalogNumber)) as [->|Hne].
    + rewrite lookup_insert_eq in Hp. injection Hp as <-. lia.
    + rewrite lookup_insert_ne in Hp by congruence. specialize (Hstc n p Hp). lia.
  - intros arr p Harr Hp. specialize (Hbin arr p Harr Hp). lia.
Qed.

Lemma keeps_commitStar ok isNewStar catalogNumber objName :
  keeps storeOk (commitStar ok isNewStar catalogNumber objName).
Proof.
  unfold commitStar. destruct ok.
  - apply keeps_bind.
    + destruct isNewStar; [|apply keeps_ret].
      apply keeps_modifyDB. intros db. apply storeOk_commit.
    + intros _. apply keeps_modifyDB. intros db.
      destruct (namesDB db); [|auto]. destruct (negb _); [|auto].
      apply storeOk_frame; reflexivity.
  - apply (keeps_logM OnHeap _ _ (storeOk_stable OnHeap)).
Qed.

Lemma keeps_loadBlock resourcePath b : keeps storeOk (loadBlock resourcePath b).
Proof.
  assert (∀ lvl msg, keeps storeOk (logM lvl msg)) as Hlog
    by (intros; apply (keeps_logM OnHeap _ _ (storeOk_stable OnHeap))).
  assert (∀ d i c f, keeps storeOk (resolveTarget d i c f)) as Htarget.
  { intros. apply keeps_resolveTarget. intros db next lg.
    apply storeOk_frame; reflexivity. }
  unfold loadBlock.
  assert (∀ isStar, keeps storeOk
    (let catalogNumber := default InvalidIndex (b_catalogNumber b) in
     let objName := default EmptyString (b_objName b) in
     let firstName := upToColon objName in
     match b_body b with
     | NotAGroup => _ ← logM LError "Unexpected token at line {}!"; mret false
     | body =>
        target ← resolveTarget (default Add (b_disposition b)) isStar catalogNumber firstName;
        match target with
        | None => mret false
        | Some (catalogNumber, found) =>
            let isNewStar := negb (bool_decide (is_Some found)) in
            match body with
            | Group starData =>
                _ ← (if isNewStar then modifyDB (set_heapStar newStar) else mret tt);
                let star := match found with Some p => InStore p | None => OnHeap end in
                ok ←
                  (if isNewStar && is_Modify (default Add (b_disposition b)) then
                     _ ← logM LWarn "Modify requested for nonexistent star.";
                     mret false
                   else
                     ok ← createStar star (default Add (b_disposition b)) catalogNumber
                            starData resourcePath (negb isStar);
                     _ ← updateStar star (λ s,
                           setCategories (loadCategories starData (default Add (b_disposition b))
                                            resourcePath (s_categories s)) s);
                     mret ok);
                _ ← commitStar ok isNewStar catalogNumber objName;
                mret true
            | _ =>
                _ ← logM LError "Bad star definition at line {}.";
                mret false
            end
        end
     end)) as Hafter.
  { intros isStar. cbv zeta.
    destruct (b_body b) as [| |starData].
    - apply keeps_bind; [apply Hlog | intros; apply keeps_ret].
    - apply keeps_bind; [apply Htarget|]. intros [[catalogNumber found]|]; [|apply keeps_ret].
      apply keeps_bind; [apply Hlog | intros; apply keeps_ret].
    - apply keeps_bind; [apply Htarget|]. intros [[catalogNumber found]|]; [|apply keeps_ret].
      apply keeps_bind.
      { destruct (negb _); [|apply keeps_ret].
        apply keeps_modifyDB. intros db. apply storeOk_frame; reflexivity. }
      intros _. apply keeps_bind.
      { destruct (_ && _).
        - apply keeps_bind; [apply Hlog | intros; apply keeps_ret].
        - set (star := match found with Some p => InStore p | None => OnHeap end).
          apply keeps_bind.
          + apply (keeps_createStar star _ _ (storeOk_stable star)). intros f. exact I.
          + intros ok. apply keeps_bind; [|intros; apply keeps_ret].
            apply (keeps_updateStar star _ _ (storeOk_stable star)). exact I. }
      intros ok. apply keeps_bind; [apply keeps_commitStar | intros; apply keeps_ret]. }
  destruct (b_objectType b) as [tokenValue|]; [|apply Hafter].
  destruct (bool_decide (tokenValue = "Star")); [apply Hafter|].
  destruct (bool_decide (tokenValue = "Barycenter")); [apply Hafter|].
  apply keeps_bind; [apply Hlog | intros; apply keeps_ret].
Qed.

(** [load] keeps the load-time store well formed, whatever the blocks
    are and whether it returns [true] or [false]. *)
Lemma load_keeps_store (resourcePath : string) (blocks : list StcBlock)
    (db db' : StarDatabase) (ok : bool) :
  storeOk db → load resourcePath blocks db = Some (ok, db') → storeOk db'.
Proof.
  revert db. induction blocks as [|b rest IH]; intros db Hok Hrun.
  - injection Hrun as _ <-. exact Hok.
  - cbn [load] in Hrun. apply bind_inv in Hrun as (okb & db1 & Hblock & Hrest).
    pose proof (keeps_loadBlock resourcePath b db okb db1 Hok Hblock) as Hok1.
    destruct okb; [apply (IH db1 Hok1 Hrest)|]. injection Hrest as _ <-. exact Hok1.
Qed.

(** A block that replaces a loaded star and is rejected for its missing
    magnitude has, by then, overwritten the star. *)
Lemma createStar_missing_magnitude star disposition n starData path s0 st r pos db :
  is_Modify disposition = false →
  starAt star db = Some s0 →
  h_SpectralType starData = Some st →
  GetStarDetails (parseStellarClass st) = Some r →
  hasCustomDetails (parseCustomStarDetails starData) = false →
  h_Position starData = Some pos →
  h_AbsMag starData = None → h_AppMag starData = None →
  createStar star disposition n starData path false db
  = Some (false,
          logger LError "Invalid star: missing magnitude."
            (afterUpdate star (setPosition pos)
               (afterUpdate star (setIndex n)
                  (afterUpdate star (setDetails (Some r)) db)))).
Proof.
  intros Hmod Hs0 Hst Hr Hcustom Hpos Habs Happ.
  pose proof (starAt_afterUpdate star (setDetails (Some r)) _ _ Hs0) as Hs1.
  pose proof (starAt_afterUpdate star (setIndex n) _ _ Hs1) as Hs2.
  unfold createStar, createOrUpdateStarDetails. rewrite Hst, Hr. cbv zeta.
  rewrite Hmod, Hcustom. unfold applyCustomStarDetails. rewrite Hcustom.
  unfold resolvePosition, resolveMagnitude. rewrite Hpos, Habs, Happ, Hmod.
  unfold mbind, M_bind, mret, M_ret, logM, modifyDB. cbn [negb].
  rewrite (updateStar_run _ _ _ _ Hs0). cbn [negb]. cbv beta iota.
  rewrite (updateStar_run _ _ _ _ Hs1). cbn [negb]. cbv beta iota.
  rewrite (updateStar_run _ _ _ _ Hs2). reflexivity.
Qed.

(** X16.  A block that is to replace a loaded star ([Add] or [Replace]
    with the number of that star) and gives neither [AbsMag] nor [AppMag]
    is rejected, but not before it has changed the star: the star keeps
    its place and its magnitude, and has the details, the position and
    the categories of the rejected block.  [load] goes on. *)
Theorem rejected_block_overwrites (resourcePath : string) (b : StcBlock)
    (starData : Hash) (n : N) (p : nat) (s0 : Star) (st : string) (r : StarDetails)
    (pos : Vector3f) (db : StarDatabase) :
  is_Modify (default Add (b_disposition b)) = false →
  (b_objectType b = None ∨ b_objectType b = Some "Star"%string) →
  b_body b = Group starData →
  b_catalogNumber b = Some n → n ≠ InvalidIndex →
  findWhileLoading db n = Some p → unsortedStars db !! p = Some s0 →
  h_SpectralType starData = Some st →
  GetStarDetails (parseStellarClass st) = Some r →
  hasCustomDetails (parseCustomStarDetails starData) = false →
  h_Position starData = Some pos →
  h_AbsMag starData = None → h_AppMag starData = None →
  ∃ db',
    loadBlock resourcePath b db = Some (true, db') ∧
    unsortedStars db'
    = <[p := withCategories starData (default Add (b_disposition b)) resourcePath
               (setPosition pos (setIndex n (setDetails (Some r) s0)))]>
        (unsortedStars db) ∧
    nStars db' = nStars db ∧ namesDB db' = namesDB db ∧
    stcFileCatalogNumberIndex db' = stcFileCatalogNumberIndex db ∧
    log db' = log db ++ [(LError, "Invalid star: missing magnitude."%string);
                         (LInfo, "Bad star definition--will continue parsing file."%string)].
Proof.
  intros Hmod Htype Hbody Hnum Hvalid Hfound Hs0 Hst Hr Hcustom Hpos Habs Happ.
  assert (knownObjectType b) as Hknown by (destruct Htype; [left|right; left]; assumption).
  assert (blockIsBarycenter b = false) as Hbary.
  { unfold blockIsBarycenter. destruct Htype as [-> | ->];
      apply bool_decide_eq_false_2; discriminate. }
  rewrite (loadBlock_known _ _ _ _ Hknown Hbody), Hnum. cbn [default]. change (id n) with n.
  set (disposition := default Add (b_disposition b)) in *.
  assert (resolveTarget disposition (negb (blockIsBarycenter b)) n
            (upToColon (default EmptyString (b_objName b))) db
          = Some (Some (n, Some p), db)) as Htarget.
  { unfold resolveTarget. destruct disposition; try discriminate.
    - rewrite bool_decide_eq_false_2 by exact Hvalid.
      unfold mbind, M_bind, getDB, mret, M_ret. rewrite Hfound. reflexivity.
    - rewrite bool_decide_eq_false_2 by exact Hvalid. cbn [andb].
      unfold mbind, M_bind, getDB, mret, M_ret.
      rewrite bool_decide_eq_false_2 by exact Hvalid. rewrite Hfound. reflexivity. }
  unfold mbind at 1, M_bind at 1. rewrite Htarget.
  unfold blockBody. rewrite (bool_decide_eq_true_2 (is_Some (Some p))) by eauto.
  cbn [negb andb]. rewrite Hbary.
  pose proof (createStar_missing_magnitude (InStore p) disposition n starData resourcePath
                s0 st r pos db Hmod Hs0 Hst Hr Hcustom Hpos Habs Happ) as Hcreate.
  unfold mbind, M_bind. cbn [mret M_ret]. rewrite Hcreate.
  unfold updateStar, afterUpdate, logger.
  cbn [unsortedStars set_unsortedStars set_log].
  rewrite !list_lookup_alter_eq, Hs0. cbn [fmap option_fmap option_map].
  unfold commitStar, logM, modifyDB, logger.
  eexists. split; [reflexivity|].
  cbn [unsortedStars set_unsortedStars set_log nStars namesDB stcFileCatalogNumberIndex log].
  split.
  - apply list_eq. intros q.
    destruct (decide (q = p)) as [->|Hne].
    + rewrite !list_lookup_alter_eq, Hs0.
      rewrite list_lookup_insert_eq by (eapply lookup_lt_Some; exact Hs0). reflexivity.
    + rewrite !list_lookup_alter_ne by congruence.
      rewrite list_lookup_insert_ne by congruence. reflexivity.
  - repeat split. rewrite <- app_assoc. reflexivity.
Qed.

End LoadMore.


(** ** Safety of the loaders *)

Section Safety.
Context `{Env}.

Lemma crossAlive_frame db db' :
  crossIndexes db' = crossIndexes db → xheap db' = xheap db →
  crossAlive db → crossAlive db'.
Proof. intros Hc Hx Halive c p. rewrite Hc, Hx. apply Halive. Qed.

Lemma crossAlive_search db c number :
  crossAlive db → is_Some (searchCrossIndexForCatalogNumber db c number).
Proof.
  intros Halive. unfold searchCrossIndexForCatalogNumber.
  case_bool_decide; [eauto|].
  destruct (crossIndexes db !! c) as [[p|]|] eqn:Hslot; [|eauto|eauto].
  destruct (proj1 (Halive c p Hslot)) as [t ->].
  destruct (t !! _) as [e|]; [|eauto]. destruct (negb _); eauto.
Qed.

Lemma findCatalogNumberByName_defined db name i18n :
  crossAlive db → is_Some (findCatalogNumberByName db name i18n).
Proof.
  intros Halive. unfold findCatalogNumberByName.
  case_bool_decide; [eauto|]. case_bool_decide; [eauto|].
  destruct (CatalogNumbers.parseCelestiaCatalogNumber name); [eauto|].
  destruct (CatalogNumbers.parseHIPPARCOSCatalogNumber name); [eauto|].
  destruct (CatalogNumbers.parseTychoCatalogNumber name); [eauto|].
  destruct (CatalogNumbers.parseHDCatalogNumber name) as [n|];
    [apply crossAlive_search; exact Halive|].
  destruct (CatalogNumbers.parseSimpleCatalogNumber name _) as [n|];
    [apply crossAlive_search; exact Halive|eauto].
Qed.

Lemma findWhileLoading_in_range db n q :
  storeOk db → findWhileLoading db n = Some q → (q < length (unsortedStars db))%nat.
Proof.
  intros (_ & Hstc & Hbin) Hfind. unfold findWhileLoading in Hfind.
  destruct (binFileCatalogNumberIndex db) as [arr|] eqn:Harr.
  - destruct (arr !! _) as [p|] eqn:Hp.
    + destruct (_ && _).
      * injection Hfind as <-. apply (Hbin arr p eq_refl). eapply list_elem_of_lookup_2. exact Hp.
      * apply (Hstc n q Hfind).
    + apply (Hstc n q Hfind).
  - apply (Hstc n q Hfind).
Qed.

Lemma loadSafe_frame db db' :
  nStars db' = nStars db → unsortedStars db' = unsortedStars db →
  stcFileCatalogNumberIndex db' = stcFileCatalogNumberIndex db →
  binFileCatalogNumberIndex db' = binFileCatalogNumberIndex db →
  crossIndexes db' = crossIndexes db → xheap db' = xheap db →
  loadSafe db → loadSafe db'.
Proof.
  intros Hn Hu Hs Hb Hc Hx (Hok & Hdet & Halive). split; [|split].
  - revert Hok. apply storeOk_frame; try assumption. rewrite Hu. reflexivity.
  - intros s Hin. rewrite Hu in Hin. apply Hdet. exact Hin.
  - revert Halive. apply crossAlive_frame; assumption.
Qed.

Lemma loadSafe_afterUpdate star f e db :
  starAt star db = Some e → (star ≠ OnHeap → is_Some (s_details (f e))) →
  loadSafe db → loadSafe (afterUpdate star f db).
Proof.
  intros He Hfe (Hok & Hdet & Halive). destruct star as [p|].
  - specialize (Hfe ltac:(discriminate)). cbn [starAt] in He. split; [|split].
    + revert Hok. apply storeOk_frame; try reflexivity.
      cbn [afterUpdate unsortedStars set_unsortedStars]. apply length_alter.
    + intros s Hin. cbn [afterUpdate unsortedStars set_unsortedStars] in Hin.
      apply list_elem_of_lookup in Hin as [q Hq].
      destruct (decide (q = p)) as [->|Hne].
      * rewrite list_lookup_alter_eq, He in Hq. injection Hq as <-. exact Hfe.
      * rewrite list_lookup_alter_ne in Hq by congruence.
        apply Hdet. eapply list_elem_of_lookup_2. exact Hq.
    + revert Halive. apply crossAlive_frame; reflexivity.
  - revert Hok Hdet Halive. intros. apply (loadSafe_frame db); try reflexivity.
    split; [|split]; assumption.
Qed.

(** *** Steps on a star that exists

    [P] is an invariant of the state under which the star at work
    exists; [okf] tells which changes of the star keep it. *)
Section Steps.
Context (star : StarPtr) (P : StarDatabase → Prop) (okf : (Star → Star) → Prop).
Hypothesis P_star : ∀ db, P db → ∃ e, starAt star db = Some e.
Hypothesis P_update : ∀ db f, okf f → P db → P (afterUpdate star f db).
Hypothesis P_log : ∀ db lvl msg, P db → P (logger lvl msg db).

Lemma total_updateStar_g f : okf f → total P (updateStar star f) (λ _, P).
Proof.
  intros Hf db HP. destruct (P_star db HP) as [e He].
  rewrite (updateStar_run _ _ _ _ He). eexists tt, _. split; [reflexivity|].
  apply P_update; assumption.
Qed.

Lemma total_readStar_g : total P (readStar star) (λ _, P).
Proof.
  intros db HP. destruct (P_star db HP) as [e He].
  exists e, db. split; [|exact HP].
  clear P_star P_update P_log HP.
  unfold readStar. destruct star; cbn [starAt] in He; [rewrite He|injection He as <-]; reflexivity.
Qed.

Lemma total_logM_g lvl msg : total P (logM lvl msg) (λ _, P).
Proof. intros db HP. eexists tt, _. split; [reflexivity|]. apply P_log. exact HP. Qed.

Ltac g_step :=
  match goal with
  | |- total _ (mret _) _ => apply total_ret; intros ? ?; assumption
  | |- total _ (updateStar _ _) _ => apply total_updateStar_g; solve [auto]
  | |- total _ (readStar _) _ => apply total_readStar_g
  | |- total _ (logM _ _) _ => apply total_logM_g
  | |- total _ (whenSome _ _) _ => apply total_whenSome; intros ?
  | |- total _ (if ?b then _ else _) _ => destruct b
  | |- total _ (match ?o with Some _ => _ | None => _ end) _ => destruct o
  | |- total ?Q (_ ≫= _) _ => apply (total_bind Q _ (λ _, Q)); [|intros ?]
  end.

Lemma total_resolvePosition_g disposition starData barycenterPosition :
  (∀ p, okf (setPosition p)) →
  total P (resolvePosition star disposition starData barycenterPosition) (λ _, P).
Proof.
  intros Hpos. unfold resolvePosition. destruct barycenterPosition; [repeat g_step|].
  destruct (h_Position starData); [repeat g_step|].
  apply (total_bind _ _ (λ _, P)); [g_step|]. intros s.
  destruct (if is_Modify disposition then _ else _) as [[ra0 dec0] distance0].
  destruct (h_RA starData), (h_Dec starData), (h_Distance starData),
    (is_Modify disposition); cbn [negb]; repeat g_step.
Qed.

Lemma total_resolveMagnitude_g disposition starData isBarycenter :
  (∀ m, okf (setAbsoluteMagnitude m)) → (∀ x, okf (setExtinction x)) →
  total P (resolveMagnitude star disposition starData isBarycenter) (λ _, P).
Proof.
  intros Hmag Hext.
  unfold resolveMagnitude. destruct isBarycenter; [repeat g_step|].
  assert (∀ absoluteDefined magnitude,
    total P
      (_ ← whenSome magnitude (λ m, updateStar star (setAbsoluteMagnitude m));
       _ ← whenSome (h_Extinction starData) (λ extinction,
             s ← readStar star;
             let distance := norm (s_position s) in
             extinction ←
               (if negb (F32.eqb distance F32.zero) then
                  _ ← updateStar star (setExtinction (F32.div extinction distance));
                  mret extinction
                else mret F32.zero);
             if negb absoluteDefined then
               s ← readStar star;
               updateStar star (setAbsoluteMagnitude (F32.sub (s_absMag s) extinction))
             else mret tt);
       mret true)
      (λ _, P)) as Hrest.
  { intros absoluteDefined magnitude. cbv zeta. repeat g_step. }
  destruct (h_AbsMag starData); [apply Hrest|].
  destruct (h_AppMag starData).
  - apply (total_bind _ _ (λ _, P)); [g_step|]. intros s1. cbv zeta.
    destruct (F32.ltb _ _); [repeat g_step | apply Hrest].
  - destruct (negb _); [repeat g_step | apply Hrest].
Qed.

End Steps.

Section Working.
Context (star : StarPtr) (custom : bool).

Lemma working_update f db :
  (∀ e, s_details (f e) = s_details e) →
  working star custom db → working star custom (afterUpdate star f db).
Proof.
  intros Hf (Hsafe & e & d & He & Hd & Hown). split.
  - apply (loadSafe_afterUpdate star f e db He); [|exact Hsafe]. rewrite Hf, Hd. eauto.
  - exists (f e), d. split; [apply starAt_afterUpdate; exact He|].
    split; [rewrite Hf; exact Hd | exact Hown].
Qed.

Lemma working_details f db :
  (∀ d, d_shared (f d) = d_shared d) →
  working star custom db →
  ∃ e d, starAt star db = Some e ∧ s_details e = Some d ∧
         working star custom (afterUpdate star (setDetails (Some (f d))) db).
Proof.
  intros Hf (Hsafe & e & d & He & Hd & Hown). exists e, d.
  split; [exact He|]. split; [exact Hd|]. split.
  - apply (loadSafe_afterUpdate star _ e db He); [eauto | exact Hsafe].
  - eexists _, (f d). split; [apply starAt_afterUpdate; exact He|].
    split; [reflexivity|]. rewrite Hf. exact Hown.
Qed.

Lemma working_frame db db' :
  nStars db' = nStars db → unsortedStars db' = unsortedStars db →
  stcFileCatalogNumberIndex db' = stcFileCatalogNumberIndex db →
  binFileCatalogNumberIndex db' = binFileCatalogNumberIndex db →
  crossIndexes db' = crossIndexes db → xheap db' = xheap db →
  heapStar db' = heapStar db →
  working star custom db → working star custom db'.
Proof.
  intros Hn Hu Hs Hb Hc Hx Hh (Hsafe & e & d & He & Hd).
  split; [revert Hsafe; apply loadSafe_frame; assumption|].
  exists e, d. split; [|exact Hd]. destruct star; cbn [starAt] in *; congruence.
Qed.

Lemma working_exists db : working star custom db → ∃ e, starAt star db = Some e.
Proof. intros (_ & e & d & He & _). eauto. Qed.

Lemma working_logger db lvl msg :
  working star custom db → working star custom (logger lvl msg db).
Proof. apply working_frame; reflexivity. Qed.

Lemma total_updateStar_w f :
  (∀ e, s_details (f e) = s_details e) →
  total (working star custom) (updateStar star f) (λ _, working star custom).
Proof.
  intros Hf.
  refine (total_updateStar_g star (working star custom)
            (λ f, ∀ e, s_details (f e) = s_details e) working_exists _ f Hf).
  intros db g Hg. apply working_update. exact Hg.
Qed.

Lemma total_readStar_w :
  total (working star custom) (readStar star) (λ _, working star custom).
Proof. apply (total_readStar_g star (working star custom)). apply working_exists. Qed.

Lemma total_updateDetails_w f :
  (∀ d, d_shared (f d) = d_shared d) →
  total (working star custom) (updateDetails star f) (λ _, working star custom).
Proof.
  intros Hf db Hw. destruct (working_details f db Hf Hw) as (e & d & He & Hd & Hw').
  unfold updateDetails. rewrite (bind_readStar _ _ _ _ He), Hd.
  rewrite (updateStar_run _ _ _ _ He). eexists tt, _. split; [reflexivity | exact Hw'].
Qed.

Lemma total_logM_w lvl msg :
  total (working star custom) (logM lvl msg) (λ _, working star custom).
Proof. apply (total_logM_g (working star custom)). apply working_logger. Qed.

Ltac w_step :=
  match goal with
  | |- total _ (mret _) _ => apply total_ret; intros ? ?; assumption
  | |- total _ (updateDetails _ _) _ => apply total_updateDetails_w; intros ?; reflexivity
  | |- total _ (updateStar _ _) _ => apply total_updateStar_w; intros ?; reflexivity
  | |- total _ (readStar _) _ => apply total_readStar_w
  | |- total _ (logM _ _) _ => apply total_logM_w
  | |- total _ (whenSome _ _) _ => apply total_whenSome; intros ?
  | |- total _ (if ?b then _ else _) _ => destruct b
  | |- total _ (match ?o with Some _ => _ | None => _ end) _ => destruct o
  | |- total ?P (_ ≫= _) _ => apply (total_bind P _ (λ _, P)); [|intros ?]
  end.

(** [applyOrbit] is defined on a working star and leaves one. *)
Lemma total_applyOrbit catalogNumber starData customDetails :
  total (working star custom) (applyOrbit catalogNumber starData star customDetails)
        (λ _, working star custom).
Proof.
  unfold applyOrbit. destruct (orbit customDetails) as [o|]; [|w_step].
  apply (total_bind _ _ (λ _, working star custom)); [w_step|]. intros _.
  apply (total_bind _ _ (λ _, working star custom)).
  { destruct (h_OrbitBarycenter starData) as [[name|number]|]; [|w_step|w_step].
    intros db Hw. pose proof Hw as ((_ & _ & Halive) & _).
    destruct (findCatalogNumberByName_defined db name false Halive) as [n Hn].
    unfold mbind, M_bind, getDB, liftOption. rewrite Hn.
    eexists _, _. split; [reflexivity | exact Hw]. }
  intros [barycenterCatNo barycenterDefined].
  destruct barycenterDefined; [|w_step].
  apply (total_bind _ _ (λ _, working star custom)); [|intros [pos|]; repeat w_step].
  case_bool_decide; [|w_step].
  intros db Hw.
  set (db1 := set_barycenters (barycenters db ++ [mkUsage catalogNumber barycenterCatNo]) db).
  assert (working star custom db1) as Hw1 by (revert Hw; apply working_frame; reflexivity).
  unfold mbind, M_bind, modifyDB, getDB. fold db1.
  destruct (findWhileLoading db1 barycenterCatNo) as [q|] eqn:Hfind.
  - pose proof Hw1 as ((Hok & _ & _) & _).
    pose proof (findWhileLoading_in_range _ _ _ Hok Hfind) as Hq.
    apply lookup_lt_is_Some_2 in Hq as [b Hb].
    unfold readStar. rewrite Hb. eexists _, _. split; [reflexivity | exact Hw1].
  - eexists _, _. split; [reflexivity | exact Hw1].
Qed.

Lemma total_applyCustomStarDetails catalogNumber starData path customDetails :
  total (working star custom)
        (applyCustomStarDetails star catalogNumber starData path customDetails)
        (λ _, working star custom).
Proof.
  unfold applyCustomStarDetails. destruct (negb _); [w_step|].
  do 7 (apply (total_bind _ _ (λ _, working star custom)); [repeat w_step | intros _]).
  apply (total_bind _ _ (λ _, working star custom)); [apply total_applyOrbit|].
  intros [ok bp]. repeat w_step.
Qed.

Lemma total_resolvePosition disposition starData barycenterPosition :
  total (working star custom)
        (resolvePosition star disposition starData barycenterPosition)
        (λ _, working star custom).
Proof.
  refine (total_resolvePosition_g star (working star custom)
            (λ f, ∀ e, s_details (f e) = s_details e) working_exists _
            working_logger _ _ _ _).
  - intros db g Hg. apply working_update. exact Hg.
  - intros p e. reflexivity.
Qed.

Lemma total_resolveMagnitude disposition starData isBarycenter :
  total (working star custom)
        (resolveMagnitude star disposition starData isBarycenter)
        (λ _, working star custom).
Proof.
  refine (total_resolveMagnitude_g star (working star custom)
            (λ f, ∀ e, s_details (f e) = s_details e) working_exists _
            working_logger _ _ _ _ _).
  - intros db g Hg. apply working_update. exact Hg.
  - intros m e. reflexivity.
  - intros x e. reflexivity.
Qed.

Lemma working_standing db : working star custom db → standing star db.
Proof. intros (Hsafe & e & d & He & Hd & _). split; [exact Hsafe|]. exists e. split; eauto. Qed.

Lemma standing_logger lvl msg db :
  standing star db → standing star (logger lvl msg db).
Proof.
  intros (Hsafe & e & He). split; [revert Hsafe; apply loadSafe_frame; reflexivity|].
  exists e. destruct star; exact He.
Qed.

End Working.

(** [createOrUpdateStarDetails] is defined on a star that exists and,
    where the block modifies it, has details; when it returns [true] the
    star has details, and they are its own if the block has custom ones. *)
Lemma total_createOrUpdateStarDetails star disposition catalogNumber starData path
    isBarycenter :
  total (λ db, standing star db ∧
               ∃ e, starAt star db = Some e ∧
                    (is_Modify disposition = true → is_Some (s_details e)))
    (createOrUpdateStarDetails star disposition catalogNumber starData path isBarycenter)
    (λ r db', standing star db' ∧
              (r.1 = true →
               working star (hasCustomDetails (parseCustomStarDetails starData)) db')).
Proof.
  set (custom := hasCustomDetails (parseCustomStarDetails starData)).
  assert (∀ lvl msg,
    total (λ db, standing star db ∧
                 ∃ e, starAt star db = Some e ∧
                      (is_Modify disposition = true → is_Some (s_details e)))
      (_ ← logM lvl msg; mret (false, @None Vector3f))
      (λ r db', standing star db' ∧ (r.1 = true → working star custom db'))) as Hfail.
  { intros lvl msg db [Hst _]. eexists _, _. split; [reflexivity|].
    split; [apply standing_logger; exact Hst | discriminate]. }
  assert (∀ referenceDetails,
    (is_Modify disposition = false → is_Some referenceDetails) →
    total (λ db, standing star db ∧
                 ∃ e, starAt star db = Some e ∧
                      (is_Modify disposition = true → is_Some (s_details e)))
      (_ ← (if is_Modify disposition then
              modifyStarDetails star referenceDetails custom
            else
              match referenceDetails with
              | Some r => updateStar star (setDetails (Some (if custom then clone r else r)))
              | None => undefined
              end);
       applyCustomStarDetails star catalogNumber starData path
         (parseCustomStarDetails starData))
      (λ r db', standing star db' ∧ (r.1 = true → working star custom db'))) as Hcontinue.
  { intros referenceDetails Href.
    apply (total_bind _ _ (λ _, working star custom)).
    2: { intros _. eapply total_post; [|apply total_applyCustomStarDetails].
         intros r db' Hw. split; [exact (working_standing star custom db' Hw) | intros _; exact Hw]. }
    intros db ((Hsafe & _) & e & He & Hdet).
    assert (∀ x, (custom = true → d_shared x = false) →
              working star custom (afterUpdate star (setDetails (Some x)) db)) as Hset.
    { intros x Hx. split.
      - apply (loadSafe_afterUpdate star _ e db He); [eauto | exact Hsafe].
      - eexists _, x. split; [apply starAt_afterUpdate; exact He|]. split; [reflexivity|exact Hx]. }
    destruct (is_Modify disposition) eqn:Hd.
    - destruct (Hdet eq_refl) as [d Hd0].
      unfold modifyStarDetails. rewrite (bind_readStar _ _ _ _ He), Hd0.
      destruct (d_shared d) eqn:Hshared.
      + destruct custom eqn:Hcustom.
        * rewrite (updateStar_run _ _ _ _ He). eexists tt, _. split; [reflexivity|].
          apply Hset. reflexivity.
        * destruct referenceDetails as [r|].
          -- rewrite (updateStar_run _ _ _ _ He). eexists tt, _. split; [reflexivity|].
             apply Hset. discriminate.
          -- eexists tt, _. split; [reflexivity|]. split; [exact Hsafe|].
             exists e, d. split; [exact He|]. split; [exact Hd0 | discriminate].
      + destruct referenceDetails as [r|].
        * rewrite (updateStar_run _ _ _ _ He). eexists tt, _. split; [reflexivity|].
          apply Hset. intros _. exact Hshared.
        * eexists tt, _. split; [reflexivity|]. split; [exact Hsafe|].
          exists e, d. split; [exact He|]. split; [exact Hd0 | intros _; exact Hshared].
    - destruct (Href eq_refl) as [r ->].
      rewrite (updateStar_run _ _ _ _ He). eexists tt, _. split; [reflexivity|].
      apply Hset. destruct custom; [reflexivity | discriminate]. }
  unfold createOrUpdateStarDetails. fold custom.
  destruct isBarycenter; [apply Hcontinue; eauto|].
  destruct (h_SpectralType starData) as [st|].
  - destruct (GetStarDetails (parseStellarClass st)) as [r|]; [apply Hcontinue; eauto|apply Hfail].
  - destruct (is_Modify disposition) eqn:Hd; cbn [negb]; [|apply Hfail].
    apply Hcontinue. discriminate.
Qed.

(** [createStar] likewise. *)
Lemma total_createStar star disposition catalogNumber starData path isBarycenter :
  total (λ db, standing star db ∧
               ∃ e, starAt star db = Some e ∧
                    (is_Modify disposition = true → is_Some (s_details e)))
    (createStar star disposition catalogNumber starData path isBarycenter)
    (λ ok db', standing star db' ∧
               (ok = true →
                working star (hasCustomDetails (parseCustomStarDetails starData)) db')).
Proof.
  set (custom := hasCustomDetails (parseCustomStarDetails starData)).
  unfold createStar.
  eapply total_bind; [apply total_createOrUpdateStarDetails|].
  intros [ok bp]. fold custom. destruct ok; cbn [negb fst].
  2: { intros db [Hst _]. eexists _, _. split; [reflexivity|]. split; [exact Hst|discriminate]. }
  apply (total_pre (working star custom)); [intros db [_ Hw]; apply Hw; reflexivity|].
  eapply total_post.
  { intros ok db' Hw. split; [exact (working_standing star custom db' Hw) | intros _; exact Hw]. }
  apply (total_bind _ _ (λ _, working star custom)).
  { destruct (negb _).
    - apply total_updateStar_w. intros e. reflexivity.
    - apply total_ret. auto. }
  intros _. apply (total_bind _ _ (λ _, working star custom));
    [apply total_resolvePosition|].
  intros ok. destruct ok; cbn [negb]; [apply total_resolveMagnitude|].
  apply total_ret. auto.
Qed.

Lemma total_resolveTarget disposition isStar catalogNumber firstName :
  total loadSafe (resolveTarget disposition isStar catalogNumber firstName)
    (λ r db', loadSafe db' ∧
              ∀ n p, r = Some (n, Some p) → is_Some (unsortedStars db' !! p)).
Proof.
  assert (∀ c, total loadSafe (db ← getDB; mret (Some (c, findWhileLoading db c)))
                 (λ r db', loadSafe db' ∧
                    ∀ n p, r = Some (n, Some p) → is_Some (unsortedStars db' !! p))) as Hfind.
  { intros c db Hsafe. eexists _, _. split; [reflexivity|]. split; [exact Hsafe|].
    intros n p [= -> Hp]. apply lookup_lt_is_Some_2.
    apply (findWhileLoading_in_range db n p); [apply Hsafe | exact Hp]. }
  assert (total loadSafe (n ← takeAutoCatalogNumber; mret (Some (n, @None nat)))
            (λ r db', loadSafe db' ∧
               ∀ n p, r = Some (n, Some p) → is_Some (unsortedStars db' !! p))) as Hauto.
  { intros db Hsafe. eexists _, _. split; [reflexivity|].
    split; [revert Hsafe; apply loadSafe_frame; reflexivity | discriminate]. }
  assert (total loadSafe
            (if bool_decide (catalogNumber = InvalidIndex)
                && negb (bool_decide (firstName = EmptyString))
             then db ← getDB; liftOption (findCatalogNumberByName db firstName false)
             else mret catalogNumber)
            (λ _, loadSafe)) as Hname.
  { destruct (_ && _); [|apply total_ret; auto].
    intros db Hsafe. pose proof Hsafe as (_ & _ & Halive).
    destruct (findCatalogNumberByName_defined db firstName false Halive) as [n Hn].
    unfold mbind, M_bind, getDB, liftOption. rewrite Hn.
    eexists _, _. split; [reflexivity | exact Hsafe]. }
  unfold resolveTarget. destruct disposition.
  - clear Hname. destruct (bool_decide (catalogNumber = InvalidIndex)); [|apply Hfind].
    destruct (negb isStar && bool_decide (firstName = EmptyString)); [|apply Hauto].
    intros db Hsafe. eexists _, _. split; [reflexivity|].
    split; [revert Hsafe; apply loadSafe_frame; reflexivity | discriminate].
  - eapply total_bind; [apply Hname|]. intros c.
    destruct (bool_decide (c = InvalidIndex)); [apply Hauto | apply Hfind].
  - eapply total_bind; [apply Hname|]. intros c.
    destruct (bool_decide (c ≠ InvalidIndex)); [apply Hfind|].
    intros db Hsafe. eexists _, _. split; [reflexivity|]. split; [exact Hsafe | discriminate].
Qed.

Lemma loadSafe_commit db catalogNumber :
  loadSafe db → is_Some (s_details (heapStar db)) →
  loadSafe (let db1 := set_nStars (S (nStars db))
                         (set_unsortedStars (unsortedStars db ++ [heapStar db]) db) in
            set_stcFileCatalogNumberIndex
              (<[catalogNumber := (length (unsortedStars db1) - 1)%nat]>
                 (stcFileCatalogNumberIndex db1)) db1).
Proof.
  intros (Hok & Hdet & Halive) Hheap. split; [apply storeOk_commit; exact Hok|]. split.
  - intros s Hin. cbn in Hin. apply elem_of_app in Hin as [Hin|Hin]; [apply Hdet; exact Hin|].
    apply list_elem_of_singleton in Hin. subst s. exact Hheap.
  - revert Halive. apply crossAlive_frame; reflexivity.
Qed.

Lemma total_commitStar ok isNewStar catalogNumber objName :
  total (λ db, loadSafe db ∧ (ok = true → isNewStar = true → is_Some (s_details (heapStar db))))
        (commitStar ok isNewStar catalogNumber objName) (λ _, loadSafe).
Proof.
  intros db [Hsafe Hheap]. unfold commitStar. destruct ok.
  - unfold mbind, M_bind, modifyDB. destruct isNewStar.
    + eexists tt, _. split; [reflexivity|].
      pose proof (loadSafe_commit db catalogNumber Hsafe (Hheap eq_refl eq_refl)) as Hc.
      cbv zeta in Hc. revert Hc. generalize (set_stcFileCatalogNumberIndex
        (<[catalogNumber:=(length (unsortedStars (set_nStars (S (nStars db))
           (set_unsortedStars (unsortedStars db ++ [heapStar db]) db))) - 1)%nat]>
           (stcFileCatalogNumberIndex (set_nStars (S (nStars db))
              (set_unsortedStars (unsortedStars db ++ [heapStar db]) db))))
        (set_nStars (S (nStars db)) (set_unsortedStars (unsortedStars db ++ [heapStar db]) db))).
      intros dbc Hc. destruct (namesDB dbc); [|exact Hc]. destruct (negb _); [|exact Hc].
      revert Hc. apply loadSafe_frame; reflexivity.
    + eexists tt, _. split; [reflexivity|]. cbn [mret M_ret].
      destruct (namesDB db); [|exact Hsafe]. destruct (negb _); [|exact Hsafe].
      revert Hsafe. apply loadSafe_frame; reflexivity.
  - eexists tt, _. split; [reflexivity|]. revert Hsafe. apply loadSafe_frame; reflexivity.
Qed.

(** One block of an [.stc] file never takes [load] out of the safe
    states, and is always defined on them. *)
Lemma total_loadBlock resourcePath b : total loadSafe (loadBlock resourcePath b) (λ _, loadSafe).
Proof.
  assert (∀ lvl msg (r : bool), total loadSafe (_ ← logM lvl msg; mret r) (λ _, loadSafe)) as Hlog.
  { intros lvl msg r db Hsafe. eexists _, _. split; [reflexivity|].
    revert Hsafe. apply loadSafe_frame; reflexivity. }
  unfold loadBlock.
  assert (∀ isStar, total loadSafe
    (let catalogNumber := default InvalidIndex (b_catalogNumber b) in
     let objName := default EmptyString (b_objName b) in
     let firstName := upToColon objName in
     match b_body b with
     | NotAGroup => _ ← logM LError "Unexpected token at line {}!"; mret false
     | body =>
        target ← resolveTarget (default Add (b_disposition b)) isStar catalogNumber firstName;
        match target with
        | None => mret false
        | Some (catalogNumber, found) =>
            let isNewStar := negb (bool_decide (is_Some found)) in
            match body with
            | Group starData =>
                _ ← (if isNewStar then modifyDB (set_heapStar newStar) else mret tt);
                let star := match found with Some p => InStore p | None => OnHeap end in
                ok ←
                  (if isNewStar && is_Modify (default Add (b_disposition b)) then
                     _ ← logM LWarn "Modify requested for nonexistent star.";
                     mret false
                   else
                     ok ← createStar star (default Add (b_disposition b)) catalogNumber
                            starData resourcePath (negb isStar);
                     _ ← updateStar star (λ s,
                           setCategories (loadCategories starData (default Add (b_disposition b))
                                            resourcePath (s_categories s)) s);
                     mret ok);
                _ ← commitStar ok isNewStar catalogNumber objName;
                mret true
            | _ =>
                _ ← logM LError "Bad star definition at line {}.";
                mret false
            end
        end
     end) (λ _, loadSafe)) as Hafter.
  { intros isStar. cbv zeta.
    set (disposition := default Add (b_disposition b)).
    destruct (b_body b) as [| |starData]; [apply Hlog|..].
    - eapply total_bind; [apply total_resolveTarget|].
      intros [[catalogNumber found]|].
      + eapply total_pre; [|apply Hlog]. intros db [Hsafe _]. exact Hsafe.
      + intros db [Hsafe _]. eexists _, _. split; [reflexivity | exact Hsafe].
    - eapply total_bind; [apply total_resolveTarget|].
      intros [[catalogNumber found]|].
      2: { intros db [Hsafe _]. eexists _, _. split; [reflexivity | exact Hsafe]. }
      set (star := match found with Some p => InStore p | None => OnHeap end).
      set (isNewStar := negb (bool_decide (is_Some found))).
      set (custom := hasCustomDetails (parseCustomStarDetails starData)).
      (* the star to work on exists once the heap star is made *)
      apply (total_bind _ _ (λ _ db, standing star db ∧
               ∃ e, starAt star db = Some e ∧
                    (isNewStar = false → is_Some (s_details e)))).
      { intros db [Hsafe Hfound]. subst star isNewStar. destruct found as [p|].
        - destruct (Hfound catalogNumber p eq_refl) as [e He].
          rewrite (bool_decide_eq_true_2 (is_Some (Some p))) by eauto. cbn [negb].
          eexists tt, db. split; [reflexivity|].
          assert (is_Some (s_details e)) as Hd
            by (apply Hsafe; eapply list_elem_of_lookup_2; exact He).
          split; [split; [exact Hsafe|]; exists e; split; [exact He | intros _; exact Hd]|].
          exists e. split; [exact He | intros _; exact Hd].
        - rewrite (bool_decide_eq_false_2 (is_Some None)) by (intros [? ?]; discriminate).
          cbn [negb]. eexists tt, _. split; [reflexivity|].
          assert (loadSafe (set_heapStar newStar db)) as Hsafe'
            by (revert Hsafe; apply loadSafe_frame; reflexivity).
          split; [split; [exact Hsafe'|]; exists newStar; split; [reflexivity | congruence]|].
          exists newStar. split; [reflexivity | discriminate]. }
      intros _.
      apply (total_bind _ _ (λ ok db, loadSafe db ∧
               (ok = true → isNewStar = true → is_Some (s_details (heapStar db))))).
      2: { intros ok. apply (total_bind _ _ (λ _, loadSafe)); [apply total_commitStar|].
           intros _. apply total_ret. auto. }
      destruct (isNewStar && is_Modify disposition) eqn:Hskip.
      { intros db [[Hsafe _] _]. eexists _, _. split; [reflexivity|].
        split; [revert Hsafe; apply loadSafe_frame; reflexivity | discriminate]. }
      eapply total_bind.
      { eapply total_pre; [|apply total_createStar].
        intros db [Hst (e & He & Hd)]. split; [exact Hst|]. exists e. split; [exact He|].
        intros Hmod. apply Hd. rewrite Hmod, andb_true_r in Hskip. exact Hskip. }
      intros ok db [(Hsafe & e & He & Hd) Hw].
      rewrite (bind_updateStar _ _ _ _ _ He). eexists _, _. split; [reflexivity|]. split.
      * apply (loadSafe_afterUpdate star _ e db He); [exact Hd | exact Hsafe].
      * intros Hok Hnew. destruct (Hw Hok) as (_ & e' & d & He' & Hd' & _).
        subst star isNewStar. destruct found as [p|].
        -- rewrite (bool_decide_eq_true_2 (is_Some (Some p))) in Hnew by eauto. discriminate.
        -- cbn [starAt] in He'. injection He' as <-. cbn. rewrite Hd'. eauto. }
  destruct (b_objectType b) as [tokenValue|]; [|apply Hafter].
  destruct (bool_decide (tokenValue = "Star")); [apply Hafter|].
  destruct (bool_decide (tokenValue = "Barycenter")); [apply Hafter|].
  apply Hlog.
Qed.

(** X17.  The merge of an [.stc] file is defined on every safe state: it
    never follows a star pointer out of the store, never reads the
    details of a star that has none, and never searches a deleted cross
    index; and the state it ends in is safe again. *)
Theorem load_defined (resourcePath : string) (blocks : list StcBlock) (db : StarDatabase) :
  loadSafe db →
  ∃ ok db', load resourcePath blocks db = Some (ok, db') ∧ loadSafe db'.
Proof.
  revert db. induction blocks as [|b rest IH]; intros db Hsafe.
  - exists true, db. split; [reflexivity | exact Hsafe].
  - destruct (total_loadBlock resourcePath b db Hsafe) as (okb & db1 & Hblock & Hsafe1).
    cbn [load]. unfold mbind, M_bind. rewrite Hblock. destruct okb.
    + apply IH. exact Hsafe1.
    + exists false, db1. split; [reflexivity | exact Hsafe1].
Qed.

(** X18.  [createStar] on a star that exists (with details, where the
    block modifies it) is defined and keeps the state safe; when it
    succeeds the star has details, and when the block has custom details
    these are a record of its own, not one shared with the other stars of
    its class. *)
Theorem createStar_owns_custom_details (star : StarPtr) (disposition : DataDisposition)
    (catalogNumber : N) (starData : Hash) (path : string) (isBarycenter : bool)
    (db : StarDatabase) (e : Star) :
  loadSafe db → starAt star db = Some e →
  (star = OnHeap → is_Modify disposition = true → is_Some (s_details e)) →
  ∃ ok db',
    createStar star disposition catalogNumber starData path isBarycenter db = Some (ok, db') ∧
    loadSafe db' ∧
    (ok = true →
     ∃ e' d, starAt star db' = Some e' ∧ s_details e' = Some d ∧
             (hasCustomDetails (parseCustomStarDetails starData) = true →
              d_shared d = false)).
Proof.
  intros Hsafe He Hheap.
  assert (star ≠ OnHeap ∨ is_Modify disposition = true → is_Some (s_details e)) as Hd.
  { destruct star as [p|]; [|intros [Hne|Hm]; [contradiction | auto]].
    intros _. apply (proj1 (proj2 Hsafe)). eapply list_elem_of_lookup_2. exact He. }
  destruct (total_createStar star disposition catalogNumber starData path isBarycenter db)
    as (ok & db' & Hrun & (Hsafe' & _) & Hw).
  { split; [split; [exact Hsafe|]|]; exists e; split; auto. }
  exists ok, db'. split; [exact Hrun|]. split; [exact Hsafe'|].
  intros Hok. destruct (Hw Hok) as (_ & e' & d & He' & Hd' & Hown). eauto 6.
Qed.

Lemma loadSafe_empty : loadSafe emptyDatabase.
Proof.
  split; [|split].
  - split; [reflexivity|]. split.
    + intros n p Hp. cbn in Hp. rewrite lookup_empty in Hp. discriminate.
    + intros arr p Harr. discriminate.
  - intros s Hin. cbn in Hin. apply elem_of_nil in Hin. contradiction.
  - intros c p Hslot. cbn [crossIndexes emptyDatabase] in Hslot.
    apply lookup_replicate in Hslot as [Hnone _]. discriminate.
Qed.

Lemma starOfRecord_details ptr s : starOfRecord ptr = Some s → is_Some (s_details s).
Proof.
  unfold starOfRecord. destruct (_ ≫= _) as [details|]; [|discriminate].
  intros [= <-]. eauto.
Qed.

(** X13.  [loadBinary] keeps the state safe, whatever it returns. *)
Theorem loadBinary_keeps_safe (inp in' : istream) (db db' : StarDatabase) (ok : bool) :
  loadSafe db → loadBinary inp db = Some (ok, in', db') → loadSafe db'.
Proof.
  intros (Hok & Hdet & Halive) Hload.
  destruct (loadBinary_run _ _ _ _ _ Hload) as (l & db2 & [lg Hdb2] & Hdec & Hfalse & Htrue).
  assert (loadSafe db2) as Hsafe2.
  { rewrite Hdb2. destruct Hok as (Hn & Hstc & Hbin). split; [|split].
    - split; [|split]; cbn; rewrite ?length_app.
      + lia.
      + intros n p Hp. specialize (Hstc n p Hp). lia.
      + intros arr p Harr Hp. specialize (Hbin arr p Harr Hp). lia.
    - intros s Hin. cbn in Hin. apply elem_of_app in Hin as [Hin|Hin]; [apply Hdet; exact Hin|].
      apply list_elem_of_lookup in Hin as [i Hi].
      apply (starOfRecord_details _ _ (Hdec i s Hi)).
    - revert Halive. apply crossAlive_frame; reflexivity. }
  destruct ok; [|rewrite (Hfalse eq_refl); exact Hsafe2].
  destruct (Htrue eq_refl) as [_ ->]. case_bool_decide; [|exact Hsafe2].
  destruct Hsafe2 as ((Hn & Hstc & Hbin) & Hdet2 & Halive2). split; [|split].
  - split; [exact Hn|]. split; [exact Hstc|].
    intros arr p [= <-] Hp. unfold sortByIndex in Hp.
    rewrite merge_sort_Permutation in Hp. apply elem_of_seq in Hp. cbn. lia.
  - exact Hdet2.
  - revert Halive2. apply crossAlive_frame; reflexivity.
Qed.

(** X10.  [loadCrossIndex] keeps the state safe when it succeeds, and
    when it fails for a catalog that had no table yet.  (A failure that
    comes after the old table was deleted does not.) *)
Theorem loadCrossIndex_keeps_safe (catalog : nat) (inp in' : istream)
    (db db' : StarDatabase) (ok : bool) :
  loadSafe db → loadCrossIndex catalog inp db = Some (ok, in', db') →
  (ok = true ∨ ∀ q, crossIndexes db !! catalog ≠ Some (Some q)) →
  loadSafe db'.
Proof.
  intros (Hok & Hdet & Halive) Hrun Hcase.
  assert (∀ dbx, nStars dbx = nStars db → unsortedStars dbx = unsortedStars db →
                 stcFileCatalogNumberIndex dbx = stcFileCatalogNumberIndex db →
                 binFileCatalogNumberIndex dbx = binFileCatalogNumberIndex db →
                 crossAlive dbx → loadSafe dbx) as Hsafe.
  { intros dbx Hn Hu Hs Hb Hx. split; [|split; [|exact Hx]].
    - revert Hok. apply storeOk_frame; try assumption. rewrite Hu. reflexivity.
    - intros s Hin. rewrite Hu in Hin. apply Hdet. exact Hin. }
  unfold loadCrossIndex in Hrun.
  case_bool_decide as Hcat.
  { injection Hrun as _ _ <-. split; [|split]; assumption. }
  set (db1 := match crossIndexes db !! catalog with
              | Some (Some p) => set_xheap (<[p := XFreed]> (xheap db)) db
              | _ => db
              end) in Hrun.
  assert (nStars db1 = nStars db ∧ unsortedStars db1 = unsortedStars db ∧
          stcFileCatalogNumberIndex db1 = stcFileCatalogNumberIndex db ∧
          binFileCatalogNumberIndex db1 = binFileCatalogNumberIndex db ∧
          crossIndexes db1 = crossIndexes db ∧
          length (xheap db1) = length (xheap db)) as (Hn1 & Hu1 & Hs1 & Hb1 & Hc1 & Hlen1).
  { subst db1. destruct (crossIndexes db !! catalog) as [[p|]|]; repeat split.
    cbn [xheap set_xheap]. apply length_insert. }
  (* the tables of the other catalogs are not touched by the deletion *)
  assert (∀ c p, c ≠ catalog → crossIndexes db !! c = Some (Some p) →
            (p < length (xheap db))%nat ∧ ∃ t, xheap db1 !! p = Some (XLive t)) as Hothers.
  { intros c p Hc Hslot. destruct (Halive c p Hslot) as [[t Ht] Huniq].
    split; [eapply lookup_lt_Some; exact Ht|].
    exists t. subst db1. destruct (crossIndexes db !! catalog) as [[q|]|] eqn:Hq; try exact Ht.
    cbn [xheap set_xheap]. rewrite list_lookup_insert_ne; [exact Ht|].
    intros ->. apply Hc. symmetry. apply Huniq. exact Hq. }
  assert ((∀ q, crossIndexes db !! catalog ≠ Some (Some q)) → db1 = db) as Hnull.
  { intros Hq. subst db1. destruct (crossIndexes db !! catalog) as [[p|]|]; try reflexivity.
    exfalso. exact (Hq p eq_refl). }
  assert (∀ lg cell, (∀ q, crossIndexes db !! catalog ≠ Some (Some q)) →
            crossAlive (set_xheap (<[length (xheap db1) := cell]> (xheap db1 ++ [XLive []]))
                          (set_log lg db1))) as Hfailed.
  { intros lg cell Hq. rewrite (Hnull Hq). intros c p Hslot.
    cbn [crossIndexes set_xheap set_log xheap] in Hslot |- *.
    destruct (Halive c p Hslot) as [[t Ht] Huniq]. split; [|exact Huniq].
    exists t. pose proof (lookup_lt_Some _ _ _ Ht) as Hp.
    rewrite list_lookup_insert_ne by lia. rewrite lookup_app_l by exact Hp. exact Ht. }
  clearbody db1.
  destruct (is_read 10 inp) as [header in1].
  destruct (negb (is_good in1)).
  { injection Hrun as <- _ <-. destruct Hcase as [Hf|Hq]; [discriminate Hf|].
    rewrite (Hnull Hq). split; [|split]; assumption. }
  destruct (negb (Bytes.eqb_bytes _ _)).
  { injection Hrun as <- _ <-. destruct Hcase as [Hf|Hq]; [discriminate Hf|].
    rewrite (Hnull Hq). apply Hsafe; try reflexivity.
    revert Halive. apply crossAlive_frame; reflexivity. }
  destruct (negb (_ =? 256)).
  { injection Hrun as <- _ <-. destruct Hcase as [Hf|Hq]; [discriminate Hf|].
    rewrite (Hnull Hq). apply Hsafe; try reflexivity.
    revert Halive. apply crossAlive_frame; reflexivity. }
  destruct (readCrossIndexRecords _ _ _) as [[[entries|msg] in2]|]; [| |discriminate].
  - injection Hrun as _ _ <-. apply Hsafe; try assumption.
    intros c p Hslot. cbn [crossIndexes set_crossIndexes set_xheap xheap logger set_log] in Hslot |- *.
    rewrite Hc1 in Hslot.
    assert (catalog < length (crossIndexes db))%nat as Hcatlt by lia.
    destruct (decide (c = catalog)) as [->|Hc].
    + rewrite list_lookup_insert_eq in Hslot by exact Hcatlt. injection Hslot as <-.
      split.
      * eexists. apply list_lookup_insert_eq. rewrite length_app. cbn. lia.
      * intros c' Hc'. rewrite Hc1 in Hc'.
        destruct (decide (c' = catalog)) as [|Hne]; [assumption|].
        rewrite list_lookup_insert_ne in Hc' by congruence.
        destruct (Hothers c' _ Hne Hc') as [Hlt _]. lia.
    + rewrite list_lookup_insert_ne in Hslot by congruence.
      destruct (Hothers c p Hc Hslot) as [Hlt [t Ht]]. split.
      * exists t. rewrite list_lookup_insert_ne by lia.
        rewrite lookup_app_l by lia. exact Ht.
      * intros c' Hc'. rewrite Hc1 in Hc'.
        destruct (decide (c' = catalog)) as [->|Hne].
        -- rewrite list_lookup_insert_eq in Hc' by exact Hcatlt. injection Hc' as Hp. lia.
        -- rewrite list_lookup_insert_ne in Hc' by congruence.
           exact (proj2 (Halive c p Hslot) c' Hc').
  - injection Hrun as <- _ <-. destruct Hcase as [Hf|Hq]; [discriminate Hf|].
    apply Hsafe; try assumption.
    exact (Hfailed _ XFreed Hq).
Qed.

End Safety.


(** ** An orbit around a loaded barycenter *)

Section Present.
Context `{Env}.
Context (star : StarPtr) (db0 : StarDatabase) (n bnum o : N) (starData : Hash)
        (q : nat) (sb : Star).
Hypothesis Horbit : h_Orbit starData = Some o.
Hypothesis Hreference :
  h_OrbitBarycenter starData = Some (inr bnum) ∨
  ∃ name, h_OrbitBarycenter starData = Some (inl name) ∧
          findCatalogNumberByName db0 name false = Some bnum.
Hypothesis Hvalid : bnum ≠ InvalidIndex.
Hypothesis Hfound : findWhileLoading db0 bnum = Some q.
Hypothesis Hstored : unsortedStars db0 !! q = Some sb.

Lemma stored_afterUpdate f pos db :
  (∀ e, s_position (f e) = s_position e) →
  (∃ b, unsortedStars db !! q = Some b ∧ s_position b = pos) →
  ∃ b, unsortedStars (afterUpdate star f db) !! q = Some b ∧ s_position b = pos.
Proof.
  intros Hf (b & Hb & Hpos). clear Hstored Hfound.
  destruct star as [p|]; cbn; [|eauto].
  rewrite list_lookup_alter. case_decide.
  - subst p. rewrite Hb. cbn. eexists. split; [reflexivity|]. rewrite Hf. exact Hpos.
  - eauto.
Qed.

Lemma total_updateDetails_at bs f :
  total (Jat star db0 bs q (s_position sb)) (updateDetails star f)
        (λ _, Jat star db0 bs q (s_position sb)).
Proof.
  intros db [HJ Hq].
  destruct (total_updateDetails star db0 bs f db HJ) as ([] & db' & Hrun & HJ').
  exists tt, db'. split; [exact Hrun|]. split; [exact HJ'|].
  destruct HJ as (_ & (e & d & He & Hd) & _). unfold updateDetails in Hrun.
  rewrite (bind_readStar _ _ _ _ He), Hd, (updateStar_run _ _ _ _ He) in Hrun.
  injection Hrun as <-. apply stored_afterUpdate; [intros ?; reflexivity | exact Hq].
Qed.

Ltac at_step :=
  match goal with
  | |- total _ (mret _) _ => apply total_ret; intros ? ?; assumption
  | |- total _ (updateDetails _ _) _ => apply total_updateDetails_at
  | |- total _ (whenSome _ _) _ => apply total_whenSome; intros ?
  | |- total _ (if ?b then _ else _) _ => destruct b
  | |- total ?P (_ ≫= _) _ => apply (total_bind P _ (λ _, P)); [|intros ?]
  end.

Lemma applyOrbit_present bs :
  total (Jat star db0 bs q (s_position sb))
        (applyOrbit n starData star (parseCustomStarDetails starData))
        (λ r db', r = (true, Some (s_position sb)) ∧
                  J star db0 (bs ++ [mkUsage n bnum]) db').
Proof.
  intros db HJ. unfold applyOrbit.
  rewrite (proj2 (hasCustomDetails_orbit _ _ Horbit)).
  destruct (total_updateDetails_at bs (d_setOrbit (Some o)) db HJ)
    as ([] & db1 & Hrun1 & HJ1).
  unfold mbind at 1, M_bind at 1. rewrite Hrun1.
  pose proof HJ1 as ((Hframed & Hdet & Hbs) & b & Hb & Hpos).
  assert (findWhileLoading (set_barycenters (barycenters db1 ++ [mkUsage n bnum]) db1) bnum
          = Some q) as Hlookup.
  { transitivity (findWhileLoading db1 bnum); [reflexivity|].
    rewrite (proj1 (framed_lookups _ _ _ bnum EmptyString false Hframed)). exact Hfound. }
  assert (∀ dbx,
    ((if bool_decide (bnum ≠ InvalidIndex) then
        _ ← modifyDB (λ db, set_barycenters (barycenters db ++ [mkUsage n bnum]) db);
        db ← getDB;
        match findWhileLoading db bnum with
        | Some barycenter => b ← readStar (InStore barycenter); mret (Some (s_position b))
        | None => mret None
        end
      else mret None)
     ≫= λ barycenterPosition : option Vector3f,
          match barycenterPosition with
          | None => _ ← logM LError "Barycenter {} does not exist."; mret (false, None)
          | Some pos => mret (true, Some pos)
          end) db1 = dbx →
    ∃ a db', dbx = Some (a, db') ∧ a = (true, Some (s_position sb)) ∧
             J star db0 (bs ++ [mkUsage n bnum]) db')
    as Hend.
  { intros dbx <-. rewrite bool_decide_eq_true_2 by exact Hvalid.
    rewrite bind_assoc, bind_modifyDB, bind_assoc, bind_getDB, Hlookup.
    rewrite bind_assoc.
    rewrite (bind_readStar (InStore q) b) by exact Hb.
    rewrite bind_ret. rewrite Hpos. eexists _, _. split; [reflexivity|]. split; [reflexivity|].
    split; [|split].
    - destruct Hframed as (Hp & Hi & He). split; [|split].
      + apply (st_barycenters _ _ _ (preserved_stable star db0)). exact Hp.
      + exact Hi.
      + destruct star; exact He.
    - destruct star; exact Hdet.
    - cbn. rewrite Hbs. reflexivity. }
  destruct Hreference as [Href|(name & Href & Hname)]; rewrite Href.
  - rewrite bind_ret. apply Hend. reflexivity.
  - rewrite bind_assoc, bind_getDB, bind_assoc.
    rewrite (bind_liftOption _ bnum).
    + rewrite bind_ret. apply Hend. reflexivity.
    + rewrite (proj2 (framed_lookups _ _ _ 0 name false Hframed)). exact Hname.
Qed.

Lemma applyCustomStarDetails_present bs path :
  total (Jat star db0 bs q (s_position sb))
        (applyCustomStarDetails star n starData path (parseCustomStarDetails starData))
        (λ r db', r = (true, Some (s_position sb)) ∧
                  J star db0 (bs ++ [mkUsage n bnum]) db').
Proof.
  unfold applyCustomStarDetails.
  rewrite (proj1 (hasCustomDetails_orbit _ _ Horbit)). cbn [negb].
  do 7 (apply (total_bind (Jat star db0 bs q (s_position sb)) _
                 (λ _, Jat star db0 bs q (s_position sb)));
        [repeat at_step | intros _]).
  eapply total_bind; [apply applyOrbit_present|].
  intros [ok bp] db [Heq HJ]. injection Heq as -> ->. cbn [negb].
  apply (total_bind (J star db0 (bs ++ [mkUsage n bnum])) _
           (λ _, J star db0 (bs ++ [mkUsage n bnum]))).
  - apply total_whenSome. intros r. apply total_updateDetails.
  - intros _. apply total_ret. intros db1 HJ1. split; [reflexivity | exact HJ1].
  - exact HJ.
Qed.

Lemma createOrUpdateStarDetails_present disposition path isBarycenter :
  (isBarycenter = true ∨
   (∃ st r, h_SpectralType starData = Some st ∧
            GetStarDetails (parseStellarClass st) = Some r) ∨
   (isBarycenter = false ∧ h_SpectralType starData = None ∧
    is_Modify disposition = true)) →
  ready star disposition db0 →
  ∃ db', createOrUpdateStarDetails star disposition n starData path isBarycenter db0
         = Some ((true, Some (s_position sb)), db') ∧
         J star db0 (barycenters db0 ++ [mkUsage n bnum]) db'.
Proof.
  intros Hspectral (e & He & Hdetails).
  set (bs := barycenters db0).
  assert (framed star db0 db0) as Hframed0
    by (split; [apply preserved_refl|]; split; [reflexivity | eauto]).
  assert (∀ x, Jat star db0 bs q (s_position sb) (afterUpdate star (setDetails (Some x)) db0))
    as Hset.
  { intros x. split; [|apply stored_afterUpdate; [intros ?; reflexivity | eauto]].
    split; [apply framed_afterUpdate; [intros s; reflexivity|exact Hframed0]|].
    split; [|destruct star; reflexivity].
    exists (setDetails (Some x) e), x. split; [|reflexivity].
    apply starAt_afterUpdate. exact He. }
  assert (∀ referenceDetails,
            (is_Modify disposition = false → is_Some referenceDetails) →
            total (λ db, db = db0)
              (_ ← (if is_Modify disposition then
                      modifyStarDetails star referenceDetails
                        (hasCustomDetails (parseCustomStarDetails starData))
                    else
                      match referenceDetails with
                      | Some r =>
                          updateStar star (setDetails
                            (Some (if hasCustomDetails (parseCustomStarDetails starData)
                                   then clone r else r)))
                      | None => undefined
                      end);
               applyCustomStarDetails star n starData path (parseCustomStarDetails starData))
              (λ r db', r = (true, Some (s_position sb)) ∧
                        J star db0 (bs ++ [mkUsage n bnum]) db'))
    as Hcontinue.
  { intros referenceDetails Href.
    apply (total_bind _ _ (λ _, Jat star db0 bs q (s_position sb)));
      [|intros []; apply applyCustomStarDetails_present].
    intros db Heq. subst db. rewrite (proj1 (hasCustomDetails_orbit _ _ Horbit)).
    destruct (is_Modify disposition) eqn:Hd.
    - destruct (Hdetails eq_refl) as [d Hd0].
      unfold modifyStarDetails. rewrite (bind_readStar _ _ _ _ He), Hd0.
      destruct (d_shared d).
      + rewrite (updateStar_run _ _ _ _ He). eexists tt, _. split; [reflexivity|]. apply Hset.
      + destruct referenceDetails as [r|].
        * rewrite (updateStar_run _ _ _ _ He). eexists tt, _. split; [reflexivity|]. apply Hset.
        * eexists tt, _. split; [reflexivity|].
          split; [|eauto].
          split; [exact Hframed0|]. split; [|reflexivity]. exists e, d. auto.
    - destruct (Href eq_refl) as [r ->].
      rewrite (updateStar_run _ _ _ _ He). eexists tt, _. split; [reflexivity|]. apply Hset. }
  unfold createOrUpdateStarDetails.
  destruct isBarycenter.
  - destruct (Hcontinue (Some GetBarycenterDetails) ltac:(eauto) db0 eq_refl)
      as (a & db' & Hrun & -> & HJ).
    exists db'. split; [exact Hrun | exact HJ].
  - destruct Hspectral as [Hb | [(st & r & -> & ->) | (_ & -> & Hm)]]; [discriminate| |].
    + destruct (Hcontinue (Some r) ltac:(eauto) db0 eq_refl) as (a & db' & Hrun & -> & HJ).
      exists db'. split; [exact Hrun | exact HJ].
    + destruct (Hcontinue None ltac:(congruence) db0 eq_refl) as (a & db' & Hrun & -> & HJ).
      exists db'. rewrite Hm in Hrun |- *. cbn [negb]. split; [exact Hrun | exact HJ].
Qed.

Lemma placed_exists pos bs db : placed star pos bs db → ∃ e, starAt star db = Some e.
Proof. intros [(e & He & _) _]. eauto. Qed.

Lemma placed_update pos bs db f :
  (∀ e, s_position (f e) = s_position e) →
  placed star pos bs db → placed star pos bs (afterUpdate star f db).
Proof.
  intros Hf [(e & He & Hpos) Hbs]. split.
  - exists (f e). split; [apply starAt_afterUpdate; exact He | rewrite Hf; exact Hpos].
  - clear Hstored Hfound. destruct star; exact Hbs.
Qed.

Lemma placed_logger pos bs db lvl msg :
  placed star pos bs db → placed star pos bs (logger lvl msg db).
Proof.
  intros [(e & He & Hpos) Hbs]. split; [|exact Hbs].
  exists e. split; [|exact Hpos]. clear Hstored Hfound. destruct star; exact He.
Qed.

(** An orbit around a barycenter that is loaded: the star is put at the
    position of the barycenter, whatever the block says about its own
    position, and the pair is pending. *)
Lemma createStar_present disposition path isBarycenter :
  (isBarycenter = true ∨
   (∃ st r, h_SpectralType starData = Some st ∧
            GetStarDetails (parseStellarClass st) = Some r) ∨
   (isBarycenter = false ∧ h_SpectralType starData = None ∧
    is_Modify disposition = true)) →
  ready star disposition db0 →
  ∃ ok db', createStar star disposition n starData path isBarycenter db0 = Some (ok, db') ∧
            placed star (s_position sb) (barycenters db0 ++ [mkUsage n bnum]) db'.
Proof.
  intros Hspectral Hready.
  destruct (createOrUpdateStarDetails_present disposition path isBarycenter Hspectral Hready)
    as (db1 & Hrun1 & (_ & _ & e1 & He1) & _ & Hbs1).
  set (pos := s_position sb) in *. set (bs := barycenters db0 ++ _) in *.
  unfold createStar. unfold mbind at 1, M_bind at 1. rewrite Hrun1. cbn [negb].
  assert (∃ db2 e2, (if negb (is_Modify disposition) then updateStar star (setIndex n)
                     else mret tt) db1 = Some (tt, db2) ∧
                    starAt star db2 = Some e2 ∧ barycenters db2 = bs)
    as (db2 & e2 & Hrun2 & He2 & Hbs2).
  { destruct (negb _).
    - rewrite (updateStar_run _ _ _ _ He1). eexists _, _. split; [reflexivity|].
      split; [apply starAt_afterUpdate; exact He1|].
      clear Hstored Hfound Hready He1. destruct star; exact Hbs1.
    - exists db1, e1. split; [reflexivity|]. split; [exact He1 | exact Hbs1]. }
  unfold mbind at 1, M_bind at 1. rewrite Hrun2.
  unfold resolvePosition. rewrite bind_assoc.
  unfold mbind at 1, M_bind at 1. rewrite (updateStar_run _ _ _ _ He2).
  rewrite bind_ret. cbn [negb].
  apply (total_resolveMagnitude_g star (placed star pos bs)
           (λ f, ∀ e, s_position (f e) = s_position e)).
  - apply placed_exists.
  - intros db f Hf. apply placed_update. exact Hf.
  - intros db lvl msg. apply placed_logger.
  - intros m e. reflexivity.
  - intros x e. reflexivity.
  - split.
    + exists (setPosition pos e2). split; [apply starAt_afterUpdate; exact He2 | reflexivity].
    + clear Hstored Hfound Hready He1 He2. destruct star; exact Hbs2.
Qed.

End Present.

(** X19.  A block with an orbit around a barycenter that is loaded:
    whatever [createStar] returns, the star ends at the position of the
    barycenter (the position of the block itself is not used), the pair
    of the two catalog numbers is appended to the pending barycenters,
    and nothing but that star changed in the store. *)
Theorem orbit_barycenter_loaded `{Env} (star : StarPtr) (disposition : DataDisposition)
    (n bnum o : N) (starData : Hash) (path : string) (isBarycenter : bool)
    (q : nat) (sb : Star) (db : StarDatabase) :
  h_Orbit starData = Some o →
  (h_OrbitBarycenter starData = Some (inr bnum) ∨
   ∃ name, h_OrbitBarycenter starData = Some (inl name) ∧
           findCatalogNumberByName db name false = Some bnum) →
  bnum ≠ InvalidIndex →
  findWhileLoading db bnum = Some q → unsortedStars db !! q = Some sb →
  (isBarycenter = true ∨
   (∃ st r, h_SpectralType starData = Some st ∧
            GetStarDetails (parseStellarClass st) = Some r) ∨
   (isBarycenter = false ∧ h_SpectralType starData = None ∧
    is_Modify disposition = true)) →
  ready star disposition db →
  ∃ ok db' e,
    createStar star disposition n starData path isBarycenter db = Some (ok, db') ∧
    starAt star db' = Some e ∧ s_position e = s_position sb ∧
    barycenters db' = barycenters db ++ [mkUsage n bnum] ∧
    preserved star db db'.
Proof.
  intros Horbit Href Hvalid Hfound Hstored Hspectral Hready.
  destruct (createStar_present star db n bnum o starData q sb Horbit Href Hvalid Hfound
              Hstored disposition path isBarycenter Hspectral Hready)
    as (ok & db' & Hrun & (e & He & Hpos) & Hbs).
  exists ok, db', e. repeat split; try assumption.
  - exact (proj1 (createStar_preserved _ _ _ _ _ _ _ _ _ Hrun)).
  - exact (proj1 (proj2 (createStar_preserved _ _ _ _ _ _ _ _ _ Hrun))).
  - exact (proj2 (proj2 (createStar_preserved _ _ _ _ _ _ _ _ _ Hrun))).
Qed.


(** ** Automatic catalog numbers *)

Section Auto.
Context `{Env}.

(** X20.  A block that gets an automatic catalog number is never taken
    for a loaded star, whatever its name: it uses up the next automatic
    number, whether its data are accepted or not, and when they are, a
    star of that number is appended to the store and entered into the
    index of the [.stc] files, without a look whether the number is in
    use. *)
Theorem automatic_number (resourcePath : string) (b : StcBlock) (starData : Hash)
    (db : StarDatabase) :
  loadSafe db → knownObjectType b → b_body b = Group starData →
  takesAutoNumber db b →
  ∃ db',
    loadBlock resourcePath b db = Some (true, db') ∧
    nextAutoCatalogNumber db' = wrap32 (nextAutoCatalogNumber db + UINT32_MAX) ∧
    ((∃ e, unsortedStars db' = unsortedStars db ++ [e] ∧
           getIndex e = nextAutoCatalogNumber db ∧
           nStars db' = S (nStars db) ∧
           stcFileCatalogNumberIndex db'
           = <[nextAutoCatalogNumber db := length (unsortedStars db)]>
               (stcFileCatalogNumberIndex db))
     ∨ (unsortedStars db' = unsortedStars db ∧ nStars db' = nStars db ∧
        stcFileCatalogNumberIndex db' = stcFileCatalogNumberIndex db)).
Proof.
  intros Hsafe Htype Hbody Hauto.
  set (d := default Add (b_disposition b)).
  set (n := nextAutoCatalogNumber db).
  set (dba := set_nextAutoCatalogNumber (wrap32 (n + UINT32_MAX)) db).
  set (dbh := set_heapStar newStar dba).
  assert (is_Modify d = false ∧
          loadBlock resourcePath b db = blockBody resourcePath b starData d n None dba)
    as [Hd Hblock].
  { rewrite (loadBlock_known _ _ _ _ Htype Hbody). fold d.
    destruct Hauto as [(Hadd & Hnum & Hnamed)|[Hrep Hnum]].
    - fold d in Hadd. rewrite Hadd, Hnum. split; [reflexivity|].
      unfold resolveTarget. rewrite bool_decide_eq_true_2 by reflexivity.
      assert (negb (negb (blockIsBarycenter b))
              && bool_decide (upToColon (default EmptyString (b_objName b)) = EmptyString)
              = false) as ->.
      { destruct Hnamed as [->|Hne]; [reflexivity|].
        rewrite (bool_decide_eq_false_2 _ Hne). apply andb_false_r. }
      reflexivity.
    - assert (d = Replace) as -> by (subst d; rewrite Hrep; reflexivity).
      split; [reflexivity|]. unfold blockNumber in Hnum. unfold resolveTarget.
      destruct (_ && _).
      + rewrite !bind_assoc, bind_getDB, (bind_liftOption _ _ _ _ Hnum).
        rewrite bool_decide_eq_true_2 by reflexivity. reflexivity.
      + injection Hnum as ->. rewrite bind_assoc, bind_ret.
        rewrite bool_decide_eq_true_2 by reflexivity. reflexivity. }
  assert (loadSafe dbh) as Hsafeh by (revert Hsafe; apply loadSafe_frame; reflexivity).
  destruct (total_createStar OnHeap d n starData resourcePath (blockIsBarycenter b) dbh)
    as (ok & db1 & Hcreate & _ & Hw).
  { split; [split; [exact Hsafeh|]|]; exists newStar; split; try reflexivity.
    - intros Hne. contradiction.
    - intros Hm. congruence. }
  pose proof (createStar_preserved _ _ _ _ _ _ _ _ _ Hcreate) as (Hview & Hlen & Hsame).
  injection Hview as Hn _ _ _ _ _ _ _ Hs Hnext. cbn in Hsame, Hn, Hs, Hnext.
  rewrite Hblock. unfold blockBody.
  rewrite (bool_decide_eq_false_2 (is_Some None)) by (intros [? ?]; discriminate).
  rewrite Hd. cbn [negb andb].
  unfold mbind, M_bind. cbn [mret M_ret modifyDB]. fold dbh. rewrite Hcreate.
  unfold updateStar.
  unfold commitStar, mbind, M_bind, mret, M_ret, modifyDB.
  destruct ok.
  - destruct (createStar_index _ d _ _ _ _ _ _ Hd Hcreate) as (e1 & He1 & Hn1).
    cbn [starAt] in He1. injection He1 as <-.
    set (dbc := set_heapStar (withCategories starData d resourcePath (heapStar db1)) db1).
    set (dbp := set_stcFileCatalogNumberIndex _ _).
    fold (renamed n (default EmptyString (b_objName b)) dbp).
    destruct (renamed_fields n (default EmptyString (b_objName b)) dbp)
      as (Hu & Hns & Hstc & Hrest).
    eexists. split; [reflexivity|]. split.
    + unfold renamed. subst dbp dbc.
      destruct (namesDB _); [destruct (negb _)|]; exact Hnext.
    + left. exists (withCategories starData d resourcePath (heapStar db1)).
      rewrite Hu, Hns, Hstc. subst dbp dbc. cbn.
      rewrite Hsame, Hn, Hs, length_app. cbn.
      repeat split; try assumption. f_equal. lia.
  - eexists. split; [reflexivity|]. cbn. split; [exact Hnext|]. right. auto.
Qed.

End Auto.


(** ** Catalog numbers during the merge *)

Section Numbers.
Context `{Env}.

Lemma numbersKept_refl db : numbered db → numbersKept db db.
Proof. intros Hn. split; [exact Hn|]. auto. Qed.

Lemma numbersKept_same db0 db db' :
  nStars db' = nStars db →
  length (unsortedStars db') = length (unsortedStars db) →
  (∀ q, indexAt (unsortedStars db') q = indexAt (unsortedStars db) q) →
  stcFileCatalogNumberIndex db' = stcFileCatalogNumberIndex db →
  binFileCatalogNumberIndex db' = binFileCatalogNumberIndex db →
  numbersKept db0 db → numbersKept db0 db'.
Proof.
  intros Hn Hlen Hidx Hstc Hbin [[Hok Hright] Hold]. split; [split|].
  - revert Hok. apply storeOk_frame; assumption.
  - intros n p Hp. rewrite Hstc in Hp. rewrite Hidx. apply Hright. exact Hp.
  - intros q Hq. destruct (Hold q Hq) as [Hlt Hsame]. rewrite Hlen, Hidx. auto.
Qed.

Lemma numbersKept_stable_heap db0 : stable OnHeap (λ _, True) (numbersKept db0).
Proof.
  split.
  - intros db db' f _ HR Hrun. apply updateStar_inv in Hrun as (e & _ & _ & ->).
    revert HR. apply numbersKept_same; reflexivity.
  - intros db lvl msg. apply numbersKept_same; reflexivity.
  - intros db bs. apply numbersKept_same; reflexivity.
Qed.

Lemma numbersKept_stable_store db0 p n :
  stable (InStore p) (keepsNumber n)
         (λ db, numbersKept db0 db ∧ hasIndex (InStore p) n db).
Proof.
  split.
  - intros db db' f Hf [HR (e & He & Hn)] Hrun.
    apply updateStar_inv in Hrun as (e' & He' & Hnew & ->).
    rewrite He in He'. injection He' as <-. cbn [starAt] in He.
    split.
    + revert HR. apply numbersKept_same; try reflexivity.
      * cbn. apply length_alter.
      * intros q. cbn. unfold indexAt. rewrite list_lookup_alter.
        case_decide; [subst q|reflexivity]. rewrite He. cbn. rewrite (Hf e Hn), Hn. reflexivity.
    + exists (f e). split; [exact Hnew | apply Hf; exact Hn].
  - intros db lvl msg [HR Hh]. split; [|exact Hh].
    revert HR. apply numbersKept_same; reflexivity.
  - intros db bs [HR Hh]. split; [|exact Hh].
    revert HR. apply numbersKept_same; reflexivity.
Qed.

(** [createStar] with the steps it takes on the star told apart. *)
Lemma keeps_createStar_steps star okf I disposition n starData path isBarycenter :
  stable star okf I →
  (∀ d, okf (setDetails d)) → okf (setIndex n) → (∀ p, okf (setPosition p)) →
  (∀ m, okf (setAbsoluteMagnitude m)) → (∀ e, okf (setExtinction e)) →
  keeps I (createStar star disposition n starData path isBarycenter).
Proof.
  intros HI Hd Hi Hp Hm He. unfold createStar.
  apply keeps_bind; [apply (keeps_createOrUpdateStarDetails star okf I HI); exact Hd|].
  intros [ok bp]. destruct (negb ok); [apply keeps_ret|].
  apply keeps_bind.
  { destruct (negb _); [apply (keeps_updateStar star okf I HI); exact Hi | apply keeps_ret]. }
  intros _. apply keeps_bind; [apply (keeps_resolvePosition star okf I HI); exact Hp|].
  intros ok2. destruct (negb ok2); [apply keeps_ret|].
  apply (keeps_resolveMagnitude star okf I HI); assumption.
Qed.

(** [findWhileLoading] returns only a star of the number asked for. *)
Lemma findWhileLoading_sound db n p :
  numbered db → findWhileLoading db n = Some p → indexAt (unsortedStars db) p = n.
Proof.
  intros [_ Hright] Hfind. unfold findWhileLoading in Hfind.
  destruct (binFileCatalogNumberIndex db) as [arr|].
  - destruct (arr !! _) as [q|].
    + destruct (bool_decide _ && (indexAt (unsortedStars db) q =? n)) eqn:Hc.
      * injection Hfind as <-. apply andb_true_iff in Hc as [_ Hc]. apply N.eqb_eq. exact Hc.
      * apply Hright. exact Hfind.
    + apply Hright. exact Hfind.
  - apply Hright. exact Hfind.
Qed.

(** The star that [resolveTarget] settles on is the one that
    [findWhileLoading] has for the number. *)
Lemma resolveTarget_found disposition isStar catalogNumber firstName db n found dbT :
  resolveTarget disposition isStar catalogNumber firstName db = Some (Some (n, found), dbT) →
  found = None ∨ found = findWhileLoading db n.
Proof.
  intros Hrun. unfold resolveTarget in Hrun.
  assert (∀ c r, (db ← getDB; mret (Some (c, findWhileLoading db c))) db
                 = Some (Some (n, found), r) →
                 found = findWhileLoading db n) as Hget.
  { intros c r Hx. injection Hx as -> <- _. reflexivity. }
  assert (∀ r dbx, (m ← takeAutoCatalogNumber; mret (Some (m, @None nat))) dbx
                   = Some (Some (n, found), r) → found = None) as Hauto.
  { intros r dbx Hx. apply bind_inv in Hx as (m & db1 & _ & Hret).
    injection Hret as _ <- _. reflexivity. }
  assert (∀ (k : N → M (option (N * option nat))),
            (∀ c' r, k c' db = Some (Some (n, found), r) →
                     found = None ∨ found = findWhileLoading db n) →
            (c' ← (if bool_decide (catalogNumber = InvalidIndex)
                      && negb (bool_decide (firstName = EmptyString))
                   then db ← getDB; liftOption (findCatalogNumberByName db firstName false)
                   else mret catalogNumber); k c') db = Some (Some (n, found), dbT) →
            found = None ∨ found = findWhileLoading db n) as Hname.
  { intros k Hk Hx. apply bind_inv in Hx as (c' & db1 & Hc & Hx).
    assert (db1 = db) as ->.
    { destruct (_ && _) in Hc.
      - apply bind_inv in Hc as (dbx & db2 & [= <- <-] & Hl).
        unfold liftOption in Hl. destruct (findCatalogNumberByName _ _ _); [|discriminate].
        injection Hl as _ <-. reflexivity.
      - injection Hc as _ <-. reflexivity. }
    eapply Hk. exact Hx. }
  destruct disposition.
  - destruct (bool_decide (catalogNumber = InvalidIndex)).
    + destruct (negb isStar && _).
      * apply bind_inv in Hrun as (a & db1 & _ & Hret). discriminate.
      * left. eapply Hauto. exact Hrun.
    + right. eapply Hget. exact Hrun.
  - apply Hname in Hrun; [exact Hrun|]. intros c' r Hk.
    destruct (bool_decide (c' = InvalidIndex)).
    + left. eapply Hauto. exact Hk.
    + right. eapply Hget. exact Hk.
  - apply Hname in Hrun; [exact Hrun|]. intros c' r Hk.
    destruct (bool_decide (c' ≠ InvalidIndex)).
    + right. eapply Hget. exact Hk.
    + left. injection Hk as _ <- _. reflexivity.
Qed.

Lemma numbersKept_push db0 db n :
  numbersKept db0 db → getIndex (heapStar db) = n →
  numbersKept db0
    (let db1 := set_nStars (S (nStars db))
                  (set_unsortedStars (unsortedStars db ++ [heapStar db]) db) in
     set_stcFileCatalogNumberIndex
       (<[n := (length (unsortedStars db1) - 1)%nat]> (stcFileCatalogNumberIndex db1)) db1).
Proof.
  intros [[Hok Hright] Hold] Hn. split; [split|].
  - apply storeOk_commit. exact Hok.
  - cbn. rewrite length_app. cbn. intros n' p Hp.
    destruct (decide (n' = n)) as [->|Hne].
    + rewrite lookup_insert_eq in Hp. injection Hp as <-.
      replace (length (unsortedStars db) + 1 - 1)%nat with (length (unsortedStars db)) by lia.
      unfold indexAt. rewrite lookup_app_r by lia. rewrite Nat.sub_diag. exact Hn.
    + rewrite lookup_insert_ne in Hp by congruence.
      pose proof (proj1 (proj2 Hok) n' p Hp) as Hlt.
      unfold indexAt. rewrite lookup_app_l by exact Hlt. apply Hright. exact Hp.
  - intros q Hq. destruct (Hold q Hq) as [Hlt Hsame]. cbn. rewrite length_app. cbn.
    split; [lia|]. unfold indexAt in *. rewrite lookup_app_l by exact Hlt. exact Hsame.
Qed.

Lemma numbersKept_renamed db0 db n objName :
  numbersKept db0 db → numbersKept db0 (renamed n objName db).
Proof.
  unfold renamed. destruct (namesDB db); [destruct (negb _)|]; intros HR; exact HR.
Qed.

(** One block keeps the numbers. *)
Lemma loadBlock_numbers resourcePath b db0 :
  keeps (numbersKept db0) (loadBlock resourcePath b).
Proof.
  assert (∀ lvl msg (r : bool), keeps (numbersKept db0) (_ ← logM lvl msg; mret r)) as Hlog.
  { intros lvl msg r db a db' HR [= _ <-]. revert HR. apply numbersKept_same; reflexivity. }
  unfold loadBlock.
  set (d := default Add (b_disposition b)).
  assert (∀ isStar, keeps (numbersKept db0)
    (let catalogNumber := default InvalidIndex (b_catalogNumber b) in
     let objName := default EmptyString (b_objName b) in
     let firstName := upToColon objName in
     match b_body b with
     | NotAGroup => _ ← logM LError "Unexpected token at line {}!"; mret false
     | body =>
        target ← resolveTarget d isStar catalogNumber firstName;
        match target with
        | None => mret false
        | Some (catalogNumber, found) =>
            let isNewStar := negb (bool_decide (is_Some found)) in
            match body with
            | Group starData =>
                _ ← (if isNewStar then modifyDB (set_heapStar newStar) else mret tt);
                let star := match found with Some p => InStore p | None => OnHeap end in
                ok ←
                  (if isNewStar && is_Modify d then
                     _ ← logM LWarn "Modify requested for nonexistent star.";
                     mret false
                   else
                     ok ← createStar star d catalogNumber starData resourcePath (negb isStar);
                     _ ← updateStar star (λ s,
                           setCategories (loadCategories starData d
                                            resourcePath (s_categories s)) s);
                     mret ok);
                _ ← commitStar ok isNewStar catalogNumber objName;
                mret true
            | _ =>
                _ ← logM LError "Bad star definition at line {}.";
                mret false
            end
        end
     end)) as Hafter.
  { intros isStar. cbv zeta. intros db r db' HR Hrun.
    destruct (b_body b) as [| |starData] eqn:Hbody.
    - exact (Hlog _ _ _ db r db' HR Hrun).
    - apply bind_inv in Hrun as (target & dbT & Htarget & Hrun).
      apply resolveTarget_inv in Htarget as (next & lg & ->).
      assert (numbersKept db0 (set_log lg (set_nextAutoCatalogNumber next db))) as HRT
        by (revert HR; apply numbersKept_same; reflexivity).
      destruct target as [[n found]|]; [|injection Hrun as _ <-; exact HRT].
      exact (Hlog _ _ _ _ r db' HRT Hrun).
    - apply bind_inv in Hrun as (target & dbT & Htarget & Hrun).
      pose proof Htarget as Hinv. apply resolveTarget_inv in Hinv as (next & lg & ->).
      set (dbT := set_log lg (set_nextAutoCatalogNumber next db)) in *.
      assert (numbersKept db0 dbT) as HRT
        by (revert HR; apply numbersKept_same; reflexivity).
      destruct target as [[n found]|]; [|injection Hrun as _ <-; exact HRT].
      apply resolveTarget_found in Htarget.
      destruct found as [p|].
      + (* the block is for the loaded star at [p], which has the number [n] *)
        destruct Htarget as [Hnone|Hfound]; [discriminate|].
        assert (findWhileLoading dbT n = Some p) as Hfind by (rewrite Hfound; reflexivity).
        pose proof (findWhileLoading_sound dbT n p (proj1 HRT) Hfind) as Hnum.
        assert (p < length (unsortedStars dbT))%nat as Hp.
        { apply (findWhileLoading_in_range dbT n p); [apply HRT | exact Hfind]. }
        destruct (lookup_lt_is_Some_2 _ _ Hp) as [e He].
        assert (hasIndex (InStore p) n dbT) as Hhas.
        { exists e. split; [exact He|]. rewrite <- (indexAt_lookup _ _ _ He). exact Hnum. }
        pose proof (numbersKept_stable_store db0 p n) as Hst.
        rewrite (bool_decide_eq_true_2 (is_Some (Some p))) in Hrun by eauto.
        cbn [negb andb] in Hrun.
        assert (keeps (λ db, numbersKept db0 db ∧ hasIndex (InStore p) n db)
          (_ ← mret tt;
           ok ← (ok ← createStar (InStore p) d n starData resourcePath (negb isStar);
                 _ ← updateStar (InStore p) (λ s,
                       setCategories (loadCategories starData d
                                        resourcePath (s_categories s)) s);
                 mret ok);
           _ ← commitStar ok false n (default EmptyString (b_objName b));
           mret true)) as Hkeeps.
        { apply keeps_bind; [apply keeps_ret|]. intros _.
          apply keeps_bind.
          - apply keeps_bind.
            + apply (keeps_createStar_steps _ _ _ _ _ _ _ _ Hst); intros; intros s Hs;
                first [exact Hs | reflexivity].
            + intros ok. apply keeps_bind; [|intros; apply keeps_ret].
              apply (keeps_updateStar _ _ _ Hst). intros s Hs. exact Hs.
          - intros ok. apply keeps_bind; [|intros; apply keeps_ret].
            unfold commitStar. destruct ok.
            + apply keeps_bind; [apply keeps_ret|]. intros _.
              apply keeps_modifyDB. intros dbx [HRx (ex & Hex & Hnx)].
              fold (renamed n (default EmptyString (b_objName b)) dbx).
              split; [apply numbersKept_renamed; exact HRx|].
              exists ex. split; [|exact Hnx]. cbn [starAt] in Hex |- *.
              rewrite (proj1 (renamed_fields _ _ _)). exact Hex.
            + apply (keeps_logM _ _ _ Hst). }
        exact (proj1 (Hkeeps dbT r db' (conj HRT Hhas) Hrun)).
      + (* a new star *)
        rewrite (bool_decide_eq_false_2 (is_Some None)) in Hrun
          by (intros [? ?]; discriminate).
        cbn [negb andb] in Hrun.
        apply bind_inv in Hrun as ([] & dbh & [= <-] & Hrun).
        assert (numbersKept db0 (set_heapStar newStar dbT)) as HRh
          by (revert HRT; apply numbersKept_same; reflexivity).
        apply bind_inv in Hrun as (ok & db2 & Hinner & Hrun).
        apply bind_inv in Hrun as ([] & db3 & Hcommit & [= _ <-]).
        assert (numbersKept db0 db2 ∧ (ok = true → getIndex (heapStar db2) = n))
          as [HR2 Hidx].
        { destruct (is_Modify d) eqn:Hd.
          - injection Hinner as <- <-. split; [|discriminate].
            revert HRh. apply numbersKept_same; reflexivity.
          - apply bind_inv in Hinner as (ok1 & db1 & Hcreate & Hinner).
            apply bind_inv in Hinner as ([] & db1' & Hupd & [= <- <-]).
            pose proof (keeps_createStar OnHeap _ _ (numbersKept_stable_heap db0)
                          d n starData resourcePath (negb isStar) (λ _, I)
                          _ _ _ HRh Hcreate) as HR1.
            apply updateStar_inv in Hupd as (e1 & He1 & _ & ->).
            split; [revert HR1; apply numbersKept_same; reflexivity|].
            intros ->. destruct (createStar_index _ d _ _ _ _ _ _ Hd Hcreate)
              as (e2 & He2 & Hn2).
            cbn [starAt] in He2. injection He2 as <-. exact Hn2. }
        unfold commitStar in Hcommit. destruct ok.
        * apply bind_inv in Hcommit as ([] & dbp & Hpush & Hren).
          unfold modifyDB in Hpush, Hren. injection Hpush as Hpush. injection Hren as Hren.
          rewrite <- Hren, <- Hpush.
          fold (renamed n (default EmptyString (b_objName b))
                  (let db1 := set_nStars (S (nStars db2))
                     (set_unsortedStars (unsortedStars db2 ++ [heapStar db2]) db2) in
                   set_stcFileCatalogNumberIndex
                     (<[n := (length (unsortedStars db1) - 1)%nat]>
                        (stcFileCatalogNumberIndex db1)) db1)).
          apply numbersKept_renamed. apply numbersKept_push; [exact HR2 | auto].
        * injection Hcommit as <-. revert HR2. apply numbersKept_same; reflexivity. }
  destruct (b_objectType b) as [tokenValue|]; [|apply Hafter].
  destruct (bool_decide (tokenValue = "Star")); [apply Hafter|].
  destruct (bool_decide (tokenValue = "Barycenter")); [apply Hafter|].
  apply Hlog.
Qed.

Lemma load_numbers resourcePath blocks db0 :
  keeps (numbersKept db0) (load resourcePath blocks).
Proof.
  induction blocks as [|b rest IH]; cbn [load]; [apply keeps_ret|].
  apply keeps_bind; [apply loadBlock_numbers|].
  intros ok. destruct ok; [exact IH | apply keeps_ret].
Qed.

(** X21.  [load] keeps the catalog numbers in order: when the index of
    the [.stc] files is right at the start, it is right at the end; no
    star that was loaded before has another catalog number afterwards;
    and [findWhileLoading] never answers with a star of another number
    than the one asked for. *)
Theorem load_keeps_numbers (resourcePath : string) (blocks : list StcBlock)
    (db db' : StarDatabase) (ok : bool) :
  numbered db → load resourcePath blocks db = Some (ok, db') →
  numbered db' ∧
  (∀ q e, unsortedStars db !! q = Some e →
     ∃ e', unsortedStars db' !! q = Some e' ∧ getIndex e' = getIndex e) ∧
  (∀ n p, findWhileLoading db' n = Some p →
     ∃ e, unsortedStars db' !! p = Some e ∧ getIndex e = n).
Proof.
  intros Hnum Hrun.
  destruct (load_numbers resourcePath blocks db db ok db' (numbersKept_refl db Hnum) Hrun)
    as [Hnum' Hold].
  split; [exact Hnum'|]. split.
  - intros q e He. destruct (Hold q (lookup_lt_Some _ _ _ He)) as [Hlt Hsame].
    destruct (lookup_lt_is_Some_2 _ _ Hlt) as [e' He']. exists e'. split; [exact He'|].
    rewrite <- (indexAt_lookup _ _ _ He'), <- (indexAt_lookup _ _ _ He). exact Hsame.
  - intros n p Hfind.
    assert (p < length (unsortedStars db'))%nat as Hp.
    { apply (findWhileLoading_in_range db' n p); [apply Hnum' | exact Hfind]. }
    destruct (lookup_lt_is_Some_2 _ _ Hp) as [e He]. exists e. split; [exact He|].
    rewrite <- (indexAt_lookup _ _ _ He). apply findWhileLoading_sound; assumption.
Qed.

End Numbers.


(** ** Further runs *)

Section MoreRuns.
Import Sample Cases.


Lemma crossFile_loaded :
  loadCrossIndex HenryDraper (stream_of crossFile) emptyDatabase
  = Some (true, (afterCrossLoad emptyDatabase).1, withCrossIndex).
Proof. vm_compute. reflexivity. Qed.




Lemma crossIndex_round_trip_witness :
  ∃ hd, crossIndex withCrossIndex HenryDraper 5 = Some hd ∧
        searchCrossIndexForCatalogNumber withCrossIndex HenryDraper hd = Some 5.
Proof.
  apply (crossIndex_round_trip withCrossIndex HenryDraper 0 [mkXEntry 7 5] (mkXEntry 7 5)).
  - vm_compute. reflexivity.
  - vm_compute. reflexivity.
  - intros i j a b Hij Hj Ha Hb. destruct i, j; try discriminate; try (cbn in Hj; lia).
    injection Ha as <-. injection Hb as <-. reflexivity.
  - apply NoDup_singleton.
  - apply list_elem_of_singleton. reflexivity.
Defined.

Lemma twoStarFile_loaded :
  loadBinary (stream_of twoStarFile) emptyDatabase = Some (true, afterBinaryLoad, loadedBinary).
Proof. vm_compute. reflexivity. Qed.

Lemma loadBinary_appends_witness :
  ∃ l, unsortedStars loadedBinary = [] ++ l ∧
       nStars loadedBinary = (0 + length l)%nat ∧
       (∀ i s, l !! i = Some s →
          starOfRecord (drop (14 + StarsDatRecord_size * i) twoStarFile) = Some s) ∧
       (true = true → length l = declaredCount twoStarFile) ∧
       (true = false →
          binFileCatalogNumberIndex loadedBinary = binFileCatalogNumberIndex emptyDatabase ∧
          binFileStarCount loadedBinary = binFileStarCount emptyDatabase).
Proof.
  exact (loadBinary_appends (stream_of twoStarFile) afterBinaryLoad emptyDatabase loadedBinary
           true twoStarFile_loaded).
Defined.

Lemma findWhileLoading_after_loadBinary_witness :
  (∀ s, s ∈ unsortedStars loadedBinary →
     ∃ q s', findWhileLoading loadedBinary (getIndex s) = Some q ∧
             unsortedStars loadedBinary !! q = Some s' ∧ getIndex s' = getIndex s) ∧
  (∀ n, (∀ s, s ∈ unsortedStars loadedBinary → getIndex s ≠ n) →
     findWhileLoading loadedBinary n = stcFileCatalogNumberIndex emptyDatabase !! n).
Proof.
  apply (findWhileLoading_after_loadBinary (stream_of twoStarFile) afterBinaryLoad
           emptyDatabase loadedBinary twoStarFile_loaded).
  vm_compute. discriminate.
Defined.

Lemma finish_keeps_stars_witness :
  entryData <$> stars (finished (databaseOf [starOnAxis 7 1 0; starOnAxis 3 2 0]))
    ≡ₚ entryData <$> [starOnAxis 7 1 0; starOnAxis 3 2 0] ∧
  nStars (finished (databaseOf [starOnAxis 7 1 0; starOnAxis 3 2 0])) = 2%nat ∧
  ∀ n, is_Some (find (finished (databaseOf [starOnAxis 7 1 0; starOnAxis 3 2 0])) n)
       ↔ ∃ s, s ∈ [starOnAxis 7 1 0; starOnAxis 3 2 0] ∧ getIndex s = n.
Proof.
  assert (finish false (databaseOf [starOnAxis 7 1 0; starOnAxis 3 2 0])
          = Some (finished (databaseOf [starOnAxis 7 1 0; starOnAxis 3 2 0]))) as Hfin
    by (vm_compute; reflexivity).
  destruct (finish_keeps_stars false _ _ Hfin eq_refl (reflexivity _))
    as (Hstars & Hn & _ & _ & _ & Hfind).
  split; [exact Hstars|]. split; [exact Hn | exact Hfind].
Defined.

Lemma load_stops_on_syntax_only_witness :
  ∃ db', load "" [blockOf (Some Modify) 77 plainHash; blockOf None 6 plainHash] loadedBinary
         = Some (true, db').
Proof.
  assert (∃ ok db', load "" [blockOf (Some Modify) 77 plainHash; blockOf None 6 plainHash]
                      loadedBinary = Some (ok, db')) as (ok & db' & Hrun)
    by (eexists _, _; vm_compute; reflexivity).
  exists db'. rewrite Hrun.
  rewrite (load_stops_on_syntax_only _ _ _ _ _ Hrun). reflexivity.
Defined.

Lemma rejected_block_overwrites_witness :
  ∃ db' e,
    loadBlock "" (blockOf (Some Replace) 5 noMagnitudeHash) loadedBinary = Some (true, db') ∧
    unsortedStars db' !! 0%nat = Some e ∧
    s_position e = Vec3f (F32.of_Z 3) F32.zero F32.zero ∧
    nStars db' = 2%nat.
Proof.
  assert (∃ s0, unsortedStars loadedBinary !! 0%nat = Some s0) as [s0 Hs0]
    by (eexists; vm_compute; reflexivity).
  assert (findWhileLoading loadedBinary 5 = Some 0%nat) as Hfind by (vm_compute; reflexivity).
  destruct (rejected_block_overwrites "" (blockOf (Some Replace) 5 noMagnitudeHash)
              noMagnitudeHash 5 0 s0 "K0" (sampleDetails "K0")
              (Vec3f (F32.of_Z 3) F32.zero F32.zero) loadedBinary
              eq_refl (or_introl eq_refl) eq_refl eq_refl ltac:(discriminate) Hfind Hs0
              eq_refl eq_refl eq_refl eq_refl eq_refl eq_refl)
    as (db' & Hrun & Hstars & Hn & _).
  exists db'. eexists. split; [exact Hrun|]. split; [|split].
  - rewrite Hstars. apply list_lookup_insert_eq. eapply lookup_lt_Some. exact Hs0.
  - reflexivity.
  - rewrite Hn. vm_compute. reflexivity.
Defined.

Lemma load_defined_witness :
  ∃ ok db', load "" [blockOf None 6 plainHash; blockOf (Some Modify) 6 extinctionHash]
              emptyDatabase = Some (ok, db') ∧ loadSafe db'.
Proof. exact (load_defined "" _ emptyDatabase loadSafe_empty). Defined.

Lemma createStar_owns_custom_details_witness :
  ∃ ok db',
    createStar OnHeap Add 6 (orbitingHash 5) "" false emptyDatabase = Some (ok, db') ∧
    loadSafe db' ∧
    (ok = true →
     ∃ e' d, starAt OnHeap db' = Some e' ∧ s_details e' = Some d ∧
             (hasCustomDetails (parseCustomStarDetails (orbitingHash 5)) = true →
              d_shared d = false)).
Proof.
  apply (createStar_owns_custom_details OnHeap Add 6 (orbitingHash 5) "" false emptyDatabase
           newStar loadSafe_empty eq_refl).
  intros _ Hm. discriminate Hm.
Defined.

Lemma loadBinary_keeps_safe_witness : loadSafe loadedBinary.
Proof.
  exact (loadBinary_keeps_safe (stream_of twoStarFile) afterBinaryLoad emptyDatabase
           loadedBinary true loadSafe_empty twoStarFile_loaded).
Defined.

Lemma loadCrossIndex_keeps_safe_witness : loadSafe withCrossIndex.
Proof.
  exact (loadCrossIndex_keeps_safe HenryDraper (stream_of crossFile) _ emptyDatabase
           withCrossIndex true loadSafe_empty crossFile_loaded (or_introl eq_refl)).
Defined.

Lemma orbit_barycenter_loaded_witness :
  ∃ ok db' e sb,
    unsortedStars loadedBinary !! 0%nat = Some sb ∧
    createStar OnHeap Add 6 (orbitingHash 5) "" false loadedBinary = Some (ok, db') ∧
    starAt OnHeap db' = Some e ∧ s_position e = s_position sb ∧
    barycenters db' = barycenters loadedBinary ++ [mkUsage 6 5].
Proof.
  assert (∃ sb, unsortedStars loadedBinary !! 0%nat = Some sb) as [sb Hsb]
    by (eexists; vm_compute; reflexivity).
  assert (findWhileLoading loadedBinary 5 = Some 0%nat) as Hfind by (vm_compute; reflexivity).
  destruct (orbit_barycenter_loaded OnHeap Add 6 5 1 (orbitingHash 5) "" false 0 sb
              loadedBinary eq_refl (or_introl eq_refl) ltac:(discriminate) Hfind Hsb)
    as (ok & db' & e & Hrun & He & Hpos & Hbs & _).
  - right. left. exists "G2V"%string, (sampleDetails "G2V"). split; reflexivity.
  - exists newStar. split; [reflexivity|]. intros Hm. discriminate Hm.
  - exists ok, db', e, sb. auto.
Defined.

Lemma findCatalogNumberByName_forms_witness :
  findCatalogNumberByName withCrossIndex "#7" false = Some 7 ∧
  findCatalogNumberByName withCrossIndex "HIP 7" false = Some 7 ∧
  findCatalogNumberByName withCrossIndex "HD 7" false = Some 5 ∧
  findCatalogNumberByName withCrossIndex "SAO 7" false = Some InvalidIndex.
Proof.
  assert (∀ name, unnamed withCrossIndex name false) as Hun
    by (intros name names Hnames; vm_compute in Hnames; discriminate).
  destruct (findCatalogNumberByName_forms withCrossIndex 7 false ltac:(discriminate))
    as (H1 & H2 & H3 & H4).
  split; [exact (H1 (Hun _))|]. split; [exact (H2 (Hun _))|].
  split.
  - refine (eq_trans (H3 (Hun _)) _). vm_compute. reflexivity.
  - refine (eq_trans (H4 (Hun _)) _). vm_compute. reflexivity.
Defined.

Lemma star_name_round_trip_witness :
  getStarName sampleNamesOf id (finished (databaseOf [starOnAxis 7 1 0; starOnAxis 1000000 2 0]))
              (starOnAxis 7 1 0) false = "HIP 7"%string ∧
  (∃ p e, findByName (finished (databaseOf [starOnAxis 7 1 0; starOnAxis 1000000 2 0]))
                     "HIP 7" false = Some (Some p) ∧
          stars (finished (databaseOf [starOnAxis 7 1 0; starOnAxis 1000000 2 0])) !! p = Some e ∧
          getIndex e = 7) ∧
  getStarName sampleNamesOf id (finished (databaseOf [starOnAxis 7 1 0; starOnAxis 1000000 2 0]))
              (starOnAxis 1000000 2 0) false = "TYC 0-100-0"%string ∧
  findByName (finished (databaseOf [starOnAxis 7 1 0; starOnAxis 1000000 2 0]))
             "TYC 0-100-0" false = Some None.
Proof.
  set (db := finished (databaseOf [starOnAxis 7 1 0; starOnAxis 1000000 2 0])).
  assert (finish false (databaseOf [starOnAxis 7 1 0; starOnAxis 1000000 2 0]) = Some db)
    as Hfin by (vm_compute; reflexivity).
  pose proof (finish_indexed _ _ _ Hfin) as Hidx.
  assert (stars db = [starOnAxis 7 1 0; starOnAxis 1000000 2 0]) as Hstars
    by (vm_compute; reflexivity).
  assert (∀ n, ∀ names, namesDB db = Some names → sampleNamesOf names n = []) as Hnone
    by (intros n names Hnames; vm_compute in Hnames; discriminate).
  assert (∀ name, unnamed db name false) as Hun
    by (intros name names Hnames; vm_compute in Hnames; discriminate).
  destruct (star_name_round_trip (H := sampleEnv) sampleNamesOf id db (starOnAxis 7 1 0) false Hidx)
    as [Hname Hfind]; [rewrite Hstars; left | discriminate | discriminate | apply Hnone | apply Hun |].
  destruct (star_name_round_trip (H := sampleEnv) sampleNamesOf id db (starOnAxis 1000000 2 0) false Hidx)
    as [Hname' Hfind'];
    [rewrite Hstars; right; left | discriminate | discriminate | apply Hnone | apply Hun |].
  rewrite Hname in Hfind. rewrite Hname' in Hfind'.
  split; [exact Hname|]. split; [exact Hfind|]. split; [exact Hname' | exact Hfind'].
Defined.

Lemma getStarNameList_bounded_witness :
  getStarNameList sampleNamesOf id 4026531840 crossedBinary (starOnAxis 5 1 0) 2
  = Some "HIP 5 / HD 7"%string ∧
  ∃ l, "HIP 5 / HD 7"%string = joinNames l ∧ NoDup l ∧ N.of_nat (length l) ≤ 2.
Proof.
  assert (getStarNameList sampleNamesOf id 4026531840 crossedBinary (starOnAxis 5 1 0) 2
          = Some "HIP 5 / HD 7"%string) as Hrun by (vm_compute; reflexivity).
  split; [exact Hrun|].
  destruct (getStarNameList_bounded (H := sampleEnv) sampleNamesOf id 4026531840 crossedBinary
              (starOnAxis 5 1 0) 2 _ Hrun) as (l & Hjoin & Hnd & Hlen & _).
  exists l. auto.
Defined.

Lemma automatic_number_witness :
  ∃ db', loadBlock "" (namedBlock "Foo" plainHash) emptyDatabase = Some (true, db') ∧
         nextAutoCatalogNumber db' = 4294967293 ∧
         ∃ e, unsortedStars db' = [e] ∧ getIndex e = 4294967294.
Proof.
  destruct (automatic_number "" (namedBlock "Foo" plainHash) plainHash emptyDatabase
              loadSafe_empty (or_introl eq_refl) eq_refl)
    as (db' & Hrun & Hnext & Hstars).
  - left. split; [reflexivity|]. split; [reflexivity|]. left. reflexivity.
  - exists db'. split; [exact Hrun|]. split; [exact Hnext|].
    destruct Hstars as [(e & Hl & He & _)|(Hl & _)].
    + exists e. split; [exact Hl | exact He].
    + exfalso. assert (∃ db2, loadBlock "" (namedBlock "Foo" plainHash) emptyDatabase
                              = Some (true, db2) ∧ length (unsortedStars db2) = 1%nat)
        as (db2 & Hrun2 & Hlen) by (eexists; split; vm_compute; reflexivity).
      rewrite Hrun in Hrun2. injection Hrun2 as <-. rewrite Hl in Hlen.
      discriminate Hlen.
Defined.

Lemma numbered_empty : numbered emptyDatabase.
Proof.
  split; [apply loadSafe_empty|]. intros n p Hp. cbn in Hp.
  rewrite lookup_empty in Hp. discriminate.
Qed.

Lemma load_keeps_numbers_witness :
  ∃ ok db',
    load "" [blockOf None 6 plainHash; blockOf (Some Replace) 6 noMagnitudeHash;
             namedBlock "Foo" plainHash] emptyDatabase = Some (ok, db') ∧
    numbered db' ∧
    ∀ n p, findWhileLoading db' n = Some p →
           ∃ e, unsortedStars db' !! p = Some e ∧ getIndex e = n.
Proof.
  assert (∃ ok db',
            load "" [blockOf None 6 plainHash; blockOf (Some Replace) 6 noMagnitudeHash;
                     namedBlock "Foo" plainHash] emptyDatabase = Some (ok, db'))
    as (ok & db' & Hrun) by (eexists _, _; vm_compute; reflexivity).
  exists ok, db'. split; [exact Hrun|].
  destruct (load_keeps_numbers _ _ _ _ _ numbered_empty Hrun) as (Hnum & _ & Hfind).
  split; [exact Hnum | exact Hfind].
Defined.

End MoreRuns.

